(** * mwoffliner: a shallow embedding of the crawler's core functions

  The development follows the layout of the sources: the helpers of
  [util.js], then the functions of [mwoffliner.js] (link-target
  extraction, the geo rewriting of links, media file names, the HTTP
  fetcher, the media download cache and the per-section DOM rewriter).

  JavaScript strings are sequences of UTF-16 code units, kept as lists
  of integers; exceptions are explicit ([outcome]); state is threaded
  explicitly. *)

From Stdlib Require Import ZArith List String Ascii Bool Lia QArith.
From stdpp Require Import base option list gmap.
Import ListNotations.

Open Scope Z_scope.

(* ================================================================== *)
(** * JavaScript values used by the sources *)
(* ================================================================== *)

Module JS.

(** A UTF-16 code unit, 0 .. 65535. *)
Definition code_unit := Z.

(** A JavaScript string. *)
Definition jsstring := list code_unit.

(** An ASCII literal as a JavaScript string. *)
Definition js (s : string) : jsstring :=
  map (fun a => Z.of_N (N_of_ascii a)) (list_ascii_of_string s).

(** The exceptions the modelled code can raise. *)
Inductive jsexn := URIError | TypeError.

(** Result of a computation that may throw. *)
Inductive outcome (A : Type) :=
| Ret (a : A)
| Throw (e : jsexn).
Arguments Ret {A} a.
Arguments Throw {A} e.

Definition bind {A B} (m : outcome A) (k : A -> outcome B) : outcome B :=
  match m with
  | Ret a => k a
  | Throw e => Throw e
  end.

(** [try { m } catch (error) { h error }] *)
Definition try_catch {A} (m : outcome A) (h : jsexn -> outcome A) : outcome A :=
  match m with
  | Ret a => Ret a
  | Throw e => h e
  end.

Definition cu_eqb (a b : code_unit) : bool := a =? b.

Fixpoint str_eqb (a b : jsstring) : bool :=
  match a, b with
  | [], [] => true
  | x :: a', y :: b' => (x =? y) && str_eqb a' b'
  | _, _ => false
  end.

(** [s.indexOf(p) == 0] *)
Fixpoint starts_with (p s : jsstring) : bool :=
  match p, s with
  | [], _ => true
  | x :: p', y :: s' => (x =? y) && starts_with p' s'
  | _ :: _, [] => false
  end.

(** [s.substr(n)] for [0 <= n] *)
Definition substr_from (n : nat) (s : jsstring) : jsstring := drop n s.

(** [s.indexOf(p) >= 0] *)
Fixpoint contains (p s : jsstring) : bool :=
  starts_with p s ||
  match s with
  | [] => false
  | _ :: s' => contains p s'
  end.

(** [s.split(sep)] for a one-unit separator: the returned array is
    never empty. *)
Fixpoint split_on (sep : code_unit) (s : jsstring) : list jsstring :=
  match s with
  | [] => [[]]
  | c :: s' =>
      if c =? sep then [] :: split_on sep s'
      else match split_on sep s' with
           | [] => [[c]]
           | p :: ps => (c :: p) :: ps
           end
  end.

(** ASCII classes *)
Definition is_digit (c : code_unit) : bool := (48 <=? c) && (c <=? 57).
Definition is_upper (c : code_unit) : bool := (65 <=? c) && (c <=? 90).
Definition is_lower (c : code_unit) : bool := (97 <=? c) && (c <=? 122).
Definition is_alnum (c : code_unit) : bool := is_digit c || is_upper c || is_lower c.

Definition hex_value (c : code_unit) : option Z :=
  if is_digit c then Some (c - 48)
  else if (65 <=? c) && (c <=? 70) then Some (c - 55)
  else if (97 <=? c) && (c <=? 102) then Some (c - 87)
  else None.

(** Surrogate code units *)
Definition is_high (c : code_unit) : bool := (55296 <=? c) && (c <=? 56319).
Definition is_low (c : code_unit) : bool := (56320 <=? c) && (c <=? 57343).

End JS.
Import JS.

(* ================================================================== *)
(** * UTF-8 and the URI functions of the language *)
(* ================================================================== *)

Module URI.

(** One unit of a percent-encoded string: a literal code unit or an
    escape [%h1h2] of value [b]. *)
Inductive token :=
| Lit (c : code_unit)
| Oct (b : Z) (h1 h2 : code_unit).

(** First pass of ECMA-262 [Decode]: every [%] must be followed by two
    hexadecimal digits, otherwise a [URIError] is thrown. *)
Fixpoint percent_tokens (s : jsstring) : outcome (list token) :=
  match s with
  | [] => Ret []
  | c :: t =>
      if c =? 37 then
        match t with
        | h1 :: h2 :: t' =>
            match hex_value h1, hex_value h2 with
            | Some a, Some b =>
                bind (percent_tokens t') (fun r => Ret (Oct (16 * a + b) h1 h2 :: r))
            | _, _ => Throw URIError
            end
        | _ => Throw URIError
        end
      else bind (percent_tokens t) (fun r => Ret (Lit c :: r))
  end.

Definition is_cont (b : Z) : bool := Z.land b 192 =? 128.

(** The code units of a code point: itself below 0x10000, a surrogate
    pair above. *)
Definition units_of_code_point (v : Z) : jsstring :=
  if v <? 65536 then [v]
  else [Z.shiftr (v - 65536) 10 + 55296; Z.land (v - 65536) 1023 + 56320].

(** Second pass of [Decode]: bytes below 0x80 stand for themselves
    (kept escaped when in the reserved set); a lead byte announcing [n]
    bytes must be followed by [n - 1] escaped continuation bytes forming
    a valid UTF-8 sequence (no overlong form, no surrogate, at most
    0x10FFFF). *)
Fixpoint utf8_tokens (reserved : code_unit -> bool) (ts : list token)
  : outcome jsstring :=
  match ts with
  | [] => Ret []
  | Lit c :: r => bind (utf8_tokens reserved r) (fun s => Ret (c :: s))
  | Oct b h1 h2 :: r =>
      if b <? 128 then
        bind (utf8_tokens reserved r) (fun s =>
          Ret (if reserved b then 37 :: h1 :: h2 :: s else b :: s))
      else if b <? 192 then Throw URIError
      else if b <? 224 then
        match r with
        | Oct b1 _ _ :: r' =>
            let v := Z.land b 31 * 64 + Z.land b1 63 in
            if is_cont b1 && (128 <=? v) then
              bind (utf8_tokens reserved r') (fun s => Ret (v :: s))
            else Throw URIError
        | _ => Throw URIError
        end
      else if b <? 240 then
        match r with
        | Oct b1 _ _ :: Oct b2 _ _ :: r' =>
            let v := Z.land b 15 * 4096 + Z.land b1 63 * 64 + Z.land b2 63 in
            if is_cont b1 && is_cont b2 && (2048 <=? v)
               && negb ((55296 <=? v) && (v <=? 57343)) then
              bind (utf8_tokens reserved r') (fun s => Ret (v :: s))
            else Throw URIError
        | _ => Throw URIError
        end
      else if b <? 248 then
        match r with
        | Oct b1 _ _ :: Oct b2 _ _ :: Oct b3 _ _ :: r' =>
            let v := Z.land b 7 * 262144 + Z.land b1 63 * 4096
                     + Z.land b2 63 * 64 + Z.land b3 63 in
            if is_cont b1 && is_cont b2 && is_cont b3
               && (65536 <=? v) && (v <=? 1114111) then
              bind (utf8_tokens reserved r') (fun s =>
                Ret (units_of_code_point v ++ s))
            else Throw URIError
        | _ => Throw URIError
        end
      else Throw URIError
  end.

Definition Decode (reserved : code_unit -> bool) (s : jsstring) : outcome jsstring :=
  bind (percent_tokens s) (utf8_tokens reserved).

(** [decodeURIComponent]: the reserved set is empty. *)
Definition decodeURIComponent (s : jsstring) : outcome jsstring :=
  Decode (fun _ => false) s.

(** [decodeURI]: the escapes of [;/?:@&=+$,#] are left as they are. *)
Definition uri_reserved (c : code_unit) : bool :=
  existsb (Z.eqb c) (js ";/?:@&=+$,#").

Definition decodeURI (s : jsstring) : outcome jsstring :=
  Decode uri_reserved s.

(** UTF-8 bytes of a code point *)
Definition utf8_of_code_point (v : Z) : list Z :=
  if v <? 128 then [v]
  else if v <? 2048 then [192 + Z.shiftr v 6; 128 + Z.land v 63]
  else if v <? 65536 then
    [224 + Z.shiftr v 12; 128 + Z.land (Z.shiftr v 6) 63; 128 + Z.land v 63]
  else
    [240 + Z.shiftr v 18; 128 + Z.land (Z.shiftr v 12) 63;
     128 + Z.land (Z.shiftr v 6) 63; 128 + Z.land v 63].

Definition code_point_of_pair (h l : code_unit) : Z :=
  (h - 55296) * 1024 + (l - 56320) + 65536.

(** [new Buffer(s, 'utf8')]: a surrogate pair gives four bytes, a lone
    surrogate the three bytes of U+FFFD. *)
Fixpoint utf8_encode (s : jsstring) : list Z :=
  match s with
  | [] => []
  | c :: t =>
      if is_high c then
        match t with
        | l :: t' =>
            if is_low l then utf8_of_code_point (code_point_of_pair c l) ++ utf8_encode t'
            else [239; 191; 189] ++ utf8_encode t
        | [] => [239; 191; 189]
        end
      else if is_low c then [239; 191; 189] ++ utf8_encode t
      else utf8_of_code_point c ++ utf8_encode t
  end.

(** [Buffer.byteLength(s, 'utf8')] *)
Definition byteLength (s : jsstring) : nat := length (utf8_encode s).

Definition hex_digit (n : Z) : code_unit :=
  if n <? 10 then 48 + n else 55 + n.

Definition percent_escape (b : Z) : jsstring :=
  [37; hex_digit (Z.shiftr b 4); hex_digit (Z.land b 15)].

(** Characters [encodeURIComponent] leaves alone. *)
Definition uri_unreserved (c : code_unit) : bool :=
  is_alnum c || existsb (Z.eqb c) (js "-_.!~*'()").

(** ECMA-262 [Encode] with the unreserved set of
    [encodeURIComponent]; a lone surrogate raises [URIError]. *)
Fixpoint encodeURIComponent (s : jsstring) : outcome jsstring :=
  match s with
  | [] => Ret []
  | c :: t =>
      if uri_unreserved c then
        bind (encodeURIComponent t) (fun r => Ret (c :: r))
      else if is_low c then Throw URIError
      else if is_high c then
        match t with
        | l :: t' =>
            if is_low l then
              bind (encodeURIComponent t') (fun r =>
                Ret (concat (map percent_escape
                       (utf8_of_code_point (code_point_of_pair c l))) ++ r))
            else Throw URIError
        | [] => Throw URIError
        end
      else
        bind (encodeURIComponent t) (fun r =>
          Ret (concat (map percent_escape (utf8_of_code_point c)) ++ r))
  end.

End URI.

(* ================================================================== *)
(** * util.js *)
(* ================================================================== *)

Module Util.

(** [myDecodeURIComponent]: the [catch] branch logs the error and
    returns the argument. *)
Definition myDecodeURIComponent (uri : jsstring) : outcome jsstring :=
  try_catch (URI.decodeURIComponent uri) (fun _ => Ret uri).

(** [concatenateToAttribute] *)
Definition concatenateToAttribute (old add : jsstring) : jsstring :=
  match old with
  | [] => add
  | _ => old ++ js " " ++ add
  end.

(** [/[\uD800-\uDBFF][\uDC00-\uDFFF]/g.exec] on the suffix [s] of the
    subject that starts at index [pos]: the [lastIndex] after the first
    match at or after [pos], or [None] when there is none. *)
Fixpoint surrogatePairs_scan (s : jsstring) (pos : nat) : option nat :=
  match s with
  | [] => None
  | h :: t =>
      match t with
      | [] => None
      | l :: _ =>
          if is_high h && is_low l then Some (pos + 2)%nat
          else surrogatePairs_scan t (S pos)
      end
  end.

(** [surrogatePairs.exec(str)] with the regular expression's
    [lastIndex] as state. *)
Definition surrogatePairs_exec (str : jsstring) (lastIndex : nat) : option nat :=
  surrogatePairs_scan (drop lastIndex str) lastIndex.

(** The [while] loop of [charAt]: [idx] is advanced once for every
    surrogate pair that starts before it. *)
Fixpoint charAt_loop (fuel : nat) (str : jsstring) (lastIndex : nat) (idx : Z) : Z :=
  match fuel with
  | O => idx
  | S fuel' =>
      match surrogatePairs_exec str lastIndex with
      | None => idx
      | Some li =>
          if Z.of_nat li - 2 <? idx then charAt_loop fuel' str li (idx + 1)
          else idx
      end
  end.

(** [String.prototype.charAt] *)
Definition str_charAt (str : jsstring) (i : Z) : jsstring :=
  if i <? 0 then []
  else match str !! Z.to_nat i with
       | Some c => [c]
       | None => []
       end.

(** [charAt(str, idx)]; every round of the loop moves [lastIndex] at
    least two units forward, so [length str] rounds are enough (see
    [charAt_loop_fuel]). *)
Definition charAt (str : jsstring) (idx : Z) : jsstring :=
  let end_ := Z.of_nat (length str) in
  let idx := charAt_loop (length str) str 0 idx in
  if (end_ <=? idx) || (idx <? 0) then []
  else
    let ret := str_charAt str idx in
    if existsb is_high ret && existsb is_low (str_charAt str (idx + 1))
    then ret ++ str_charAt str (idx + 1)
    else ret.

(** The code points of a string, by the words of the specification: a
    high surrogate immediately followed by a low one is one code point,
    every other code unit is one by itself. *)
Fixpoint codepoints (s : jsstring) : list jsstring :=
  match s with
  | [] => []
  | h :: t =>
      match t with
      | [] => [[h]]
      | l :: t' =>
          if is_high h && is_low l then [h; l] :: codepoints t'
          else [h] :: codepoints t
      end
  end.

(** Selecting code point [k] *)
Definition codepoint_at (s : jsstring) (k : Z) : jsstring :=
  if k <? 0 then [] else default [] (codepoints s !! Z.to_nat k).

End Util.


(* ================================================================== *)
(** * More string primitives *)
(* ================================================================== *)

Module Str.

(** [s.indexOf(c)] for one code unit: [None] stands for [-1]. *)
Fixpoint index_of (c : code_unit) (s : jsstring) : option nat :=
  match s with
  | [] => None
  | x :: t => if x =? c then Some O else option_map S (index_of c t)
  end.

(** Index of the first code unit satisfying [p]. *)
Fixpoint index_where (p : code_unit -> bool) (s : jsstring) : option nat :=
  match s with
  | [] => None
  | x :: t => if p x then Some O else option_map S (index_where p t)
  end.

(** [s.lastIndexOf(c)] *)
Fixpoint last_index_of (c : code_unit) (s : jsstring) : option nat :=
  match s with
  | [] => None
  | x :: t =>
      match last_index_of c t with
      | Some i => Some (S i)
      | None => if x =? c then Some O else None
      end
  end.

(** White space removed by [String.prototype.trim]. *)
Definition is_space (c : code_unit) : bool :=
  existsb (Z.eqb c)
    [9; 10; 11; 12; 13; 32; 160; 5760; 8232; 8233; 8239; 8287; 12288; 65279]
  || ((8192 <=? c) && (c <=? 8202)).

Fixpoint trim_left (s : jsstring) : jsstring :=
  match s with
  | [] => []
  | c :: t => if is_space c then trim_left t else s
  end.

Definition trim (s : jsstring) : jsstring :=
  rev (trim_left (rev (trim_left s))).

(** [toLowerCase] and [toUpperCase] on the ASCII letters; code units
    outside ASCII are left as they are (the Unicode case tables are not
    modelled). *)
Definition lower_unit (c : code_unit) : code_unit := if is_upper c then c + 32 else c.
Definition upper_unit (c : code_unit) : code_unit := if is_lower c then c - 32 else c.
Definition toLowerCase (s : jsstring) : jsstring := map lower_unit s.
Definition toUpperCase (s : jsstring) : jsstring := map upper_unit s.

(** [s.split(c).join(r)] *)
Fixpoint replace_all (c : code_unit) (r : jsstring) (s : jsstring) : jsstring :=
  match s with
  | [] => []
  | x :: t => if x =? c then r ++ replace_all c r t else x :: replace_all c r t
  end.

(** [xs.join(sep)] *)
Fixpoint join (sep : jsstring) (xs : list jsstring) : jsstring :=
  match xs with
  | [] => []
  | [x] => x
  | x :: t => x ++ sep ++ join sep t
  end.

(** Longest prefix of code units satisfying [p], and the rest. *)
Fixpoint span (p : code_unit -> bool) (s : jsstring) : jsstring * jsstring :=
  match s with
  | [] => ([], [])
  | c :: t => if p c then let '(a, b) := span p t in (c :: a, b) else ([], s)
  end.

(** A string is truthy when it is not empty. *)
Definition truthy (s : jsstring) : bool :=
  match s with [] => false | _ => true end.

(** [a || b] on strings that may be [null] or [undefined] *)
Definition or_else (a : option jsstring) (b : jsstring) : jsstring :=
  match a with
  | Some (c :: s) => c :: s
  | _ => b
  end.

End Str.

(* ================================================================== *)
(** * The Node.js modules the sources call *)
(* ================================================================== *)

(** The fields of the object returned by [url.parse] that the sources
    read.  [query] holds the decoded [key=value] pairs, in order, when the
    query string was parsed. *)
Record urlObject := mkUrl {
  protocol : option jsstring;
  slashes : bool;
  auth : option jsstring;
  host : option jsstring;
  hash : option jsstring;
  search : option jsstring;
  query : list (jsstring * jsstring);
  pathname : option jsstring
}.

(** A property of a parsed query string: absent, a string, or an array
    when the key occurs several times. *)
Inductive qvalue :=
| QUndefined
| QString (s : jsstring)
| QArray (xs : list jsstring).

(** [query[key]] *)
Definition query_get (q : list (jsstring * jsstring)) (key : jsstring) : qvalue :=
  match map snd (filter (fun kv => str_eqb (fst kv) key = true) q) with
  | [] => QUndefined
  | [v] => QString v
  | vs => QArray vs
  end.

(** The library functions the sources depend on.  The program is
    embedded over any implementation of them; [Node.node] below is an
    executable model used to run the embedding on concrete inputs. *)
Record NodeLib := {
  (** [url.parse(url, parseQueryString, slashesDenoteHost)] *)
  url_parse : jsstring -> bool -> bool -> outcome urlObject;
  (** [url.format(urlObject)] *)
  url_format : urlObject -> jsstring;
  (** [path.extname(p)] *)
  path_extname : jsstring -> jsstring;
  (** [path.dirname(p)] *)
  path_dirname : jsstring -> jsstring;
  (** [unicodeCutter.truncateToBinarySize(s, max)] *)
  truncateToBinarySize : jsstring -> Z -> jsstring;
  (** [element.style.removeProperty(name)] of the DOM library, on the
      value of the [style] attribute: the new value, or [None] when the
      attribute is left as it is *)
  css_removeProperty : jsstring -> jsstring -> option jsstring
}.

Module Node.
Import Str.

(** [/^([a-z0-9.+-]+:)/i] *)
Definition is_proto_unit (c : code_unit) : bool :=
  is_alnum c || existsb (Z.eqb c) (js ".+-").

Definition protocol_split (rest : jsstring) : option (jsstring * jsstring) :=
  let '(p, r) := span is_proto_unit rest in
  match p, r with
  | _ :: _, 58 :: r' => Some (toLowerCase p ++ [58], r')
  | _, _ => None
  end.

Definition hostlessProtocol (p : jsstring) : bool :=
  str_eqb p (js "javascript:").

Definition slashedProtocol (p : jsstring) : bool :=
  existsb (str_eqb p)
    [js "http:"; js "https:"; js "ftp:"; js "gopher:"; js "file:"].

(** Characters that are escaped wherever they occur after the host. *)
Definition autoEscape : list (code_unit * jsstring) :=
  [(39, js "%27"); (123, js "%7B"); (125, js "%7D"); (124, js "%7C");
   (92, js "%5C"); (94, js "%5E"); (96, js "%60"); (60, js "%3C");
   (62, js "%3E"); (34, js "%22"); (32, js "%20"); (13, js "%0D");
   (10, js "%0A"); (9, js "%09")].

Definition is_nonHostChar (c : code_unit) : bool :=
  existsb (Z.eqb c) (js "%/?;#") || existsb (fun e => c =? fst e) autoEscape.

Definition is_hostEndingChar (c : code_unit) : bool :=
  existsb (Z.eqb c) (js "/?#").

(** [querystring.parse]: split on [&], then on the first [=]; [+] is a
    space; both sides are unescaped.  Where [decodeURIComponent] throws,
    Node falls back on a byte-wise unescape; the model keeps the piece as
    it is there. *)
Definition qs_unescape (s : jsstring) : jsstring :=
  let s := replace_all 43 (js "%20") s in
  match URI.decodeURIComponent s with
  | Ret d => d
  | Throw _ => s
  end.

Definition qs_pair (x : jsstring) : jsstring * jsstring :=
  match index_of 61 x with
  | Some i => (qs_unescape (take i x), qs_unescape (drop (S i) x))
  | None => (qs_unescape x, [])
  end.

Definition querystring_parse (qs : jsstring) : list (jsstring * jsstring) :=
  match qs with
  | [] => []
  | _ => map qs_pair (split_on 38 qs)
  end.

(** Back slashes before the query or the fragment become slashes. *)
Definition fix_backslashes (url : jsstring) : jsstring :=
  let cut := default (length url) (index_where (fun c => (c =? 63) || (c =? 35)) url) in
  replace_all 92 [47] (take cut url) ++ drop cut url.

(** The host part: everything up to the first character that cannot be
    in a host; an [auth@] prefix is split off and decoded. *)
Definition split_host (rest : jsstring)
  : outcome (option jsstring * jsstring * jsstring) :=
  let hostEnd := default (length rest) (index_where is_hostEndingChar rest) in
  let atSign := last_index_of 64 (take (S hostEnd) rest) in
  bind (match atSign with
        | Some i =>
            bind (URI.decodeURIComponent (take i rest)) (fun a =>
              Ret (Some a, drop (S i) rest))
        | None => Ret (None, rest)
        end) (fun '(au, rest) =>
    let hostEnd := default (length rest) (index_where is_nonHostChar rest) in
    Ret (au, toLowerCase (take hostEnd rest), drop hostEnd rest)).

(** [url.parse] after lib/url.js.  The validation of host name labels
    and the IDNA conversion of the host are left out, and so is the fast
    path for plain paths, which gives the same fields. *)
Definition parse (url : jsstring) (parseQueryString slashesDenoteHost : bool)
  : outcome urlObject :=
  let rest := trim (fix_backslashes url) in
  let '(proto, rest) :=
    match protocol_split rest with
    | Some (p, r) => (Some p, r)
    | None => (None, rest)
    end in
  let hostless := match proto with Some p => hostlessProtocol p | None => false end in
  let slashed := match proto with Some p => slashedProtocol p | None => false end in
  let has_at :=
    match rest with
    | 47 :: 47 :: r =>
        let '(a, r1) := span (fun c => negb ((c =? 64) || (c =? 47))) r in
        match a, r1 with
        | _ :: _, 64 :: r2 =>
            match r2 with
            | c :: _ => negb ((c =? 64) || (c =? 47))
            | [] => false
            end
        | _, _ => false
        end
    | _ => false
    end in
  let '(sl, rest) :=
    if slashesDenoteHost || (match proto with Some _ => true | None => false end) || has_at
    then match rest with
         | 47 :: 47 :: r => if hostless then (false, rest) else (true, r)
         | _ => (false, rest)
         end
    else (false, rest) in
  bind (if negb hostless
           && (sl || (match proto with Some _ => negb slashed | None => false end))
        then bind (split_host rest) (fun '(au, h, r) => Ret (au, Some h, r))
        else Ret (None, None, rest)) (fun '(au, h, rest) =>
  let rest := fold_left (fun r e => replace_all (fst e) (snd e) r) autoEscape rest in
  let '(hash_, rest) :=
    match index_of 35 rest with
    | Some i => (Some (drop i rest), take i rest)
    | None => (None, rest)
    end in
  let '(search_, query_, rest) :=
    match index_of 63 rest with
    | Some i =>
        (Some (drop i rest),
         if parseQueryString then querystring_parse (drop (S i) rest) else [],
         take i rest)
    | None => (if parseQueryString then Some [] else None, [], rest)
    end in
  let pathname_ :=
    match rest with
    | _ :: _ => Some rest
    | [] =>
        if slashed && (match h with Some (_ :: _) => true | _ => false end)
        then Some [47] else None
    end in
  Ret {| protocol := proto; slashes := sl; auth := au; host := h;
         hash := hash_; search := search_; query := query_;
         pathname := pathname_ |}).

(** [url.format] for an object carrying [host] (not [hostname]); the
    [query] object is not consulted since [search] is set when there is
    one. *)
Definition format (u : urlObject) : jsstring :=
  let auth_ :=
    match u.(auth) with
    | Some (c :: a) =>
        match URI.encodeURIComponent (c :: a) with
        | Ret e => e ++ [64]
        | Throw _ => [64]
        end
    | _ => []
    end in
  let protocol_ := or_else u.(protocol) [] in
  let protocol_ :=
    match last protocol_ with
    | Some 58 | None => protocol_
    | Some _ => protocol_ ++ [58]
    end in
  let pathname_ := or_else u.(pathname) [] in
  let '(host_, pathname_) :=
    match u.(host) with
    | Some (c :: h) =>
        if u.(slashes) || negb (truthy protocol_) || slashedProtocol protocol_
        then (js "//" ++ auth_ ++ c :: h,
              match pathname_ with
              | 47 :: _ | [] => pathname_
              | _ => 47 :: pathname_
              end)
        else (auth_ ++ c :: h, pathname_)
    | _ =>
        if u.(slashes) then
          (js "//", match pathname_ with
                    | 47 :: _ | [] => pathname_
                    | _ => 47 :: pathname_
                    end)
        else ([], pathname_)
    end in
  let hash_ := or_else u.(hash) [] in
  let hash_ := match hash_ with 35 :: _ | [] => hash_ | _ => 35 :: hash_ end in
  let search_ := or_else u.(search) [] in
  let search_ := match search_ with 63 :: _ | [] => search_ | _ => 63 :: search_ end in
  let pathname_ := replace_all 63 (js "%3F") (replace_all 35 (js "%23") pathname_) in
  protocol_ ++ host_ ++ pathname_ ++ search_ ++ hash_.

(** [path.basename]-like last component, trailing slashes dropped. *)
Fixpoint drop_trailing_slashes_rev (r : jsstring) : jsstring :=
  match r with
  | 47 :: t => drop_trailing_slashes_rev t
  | _ => r
  end.

Definition last_component (p : jsstring) : jsstring :=
  let r := drop_trailing_slashes_rev (rev p) in
  rev (fst (span (fun c => negb (c =? 47)) r)).

(** [path.extname] (POSIX): from the last dot of the last component to
    its end; empty when there is no dot or the only dot comes first. *)
Definition extname (p : jsstring) : jsstring :=
  let b := last_component p in
  match last_index_of 46 b with
  | Some (S i) => drop (S i) b
  | _ => []
  end.

(** [path.dirname] (POSIX) *)
Definition dirname (p : jsstring) : jsstring :=
  let r := drop_trailing_slashes_rev (rev p) in
  let d := snd (span (fun c => negb (c =? 47)) r) in
  match drop_trailing_slashes_rev d, d, p with
  | _ :: _ as d', _, _ => rev d'
  | [], _ :: _, _ => [47]
  | [], [], 47 :: _ => [47]
  | [], [], _ => [46]
  end.

(** Longest prefix of whole code points that fits in [max] bytes. *)
Fixpoint utf8_prefix (s : jsstring) (max : Z) : jsstring :=
  match s with
  | [] => []
  | c :: t =>
      match t with
      | l :: t' =>
          if is_high c && is_low l then
            if 4 <=? max then c :: l :: utf8_prefix t' (max - 4) else []
          else
            let n := Z.of_nat (URI.byteLength [c]) in
            if n <=? max then c :: utf8_prefix t (max - n) else []
      | [] =>
          let n := Z.of_nat (URI.byteLength [c]) in
          if n <=? max then [c] else []
      end
  end.

(** utf8-binary-cutter's [truncateToBinarySize]: a string that fits is
    returned as it is; a longer one is cut so that the result, the
    ellipsis ["..."] included, fits in [max] bytes. *)
Definition cutter_truncate (s : jsstring) (max : Z) : jsstring :=
  if Z.of_nat (URI.byteLength s) <=? max then s
  else utf8_prefix s (max - 3) ++ js "...".

(** A declaration of a [style] attribute: name and value. *)
Definition css_declaration (d : jsstring) : option (jsstring * jsstring) :=
  match index_of 58 d with
  | Some i => Some (toLowerCase (trim (take i d)), trim (drop (S i) d))
  | None => None
  end.

(** [style.removeProperty]: when the property is declared, the
    attribute is written again from the declarations that are left, as
    [name: value;] separated by spaces. *)
Definition removeProperty (cssText name : jsstring) : option jsstring :=
  let decls := omap css_declaration (split_on 59 cssText) in
  if existsb (fun d => str_eqb (fst d) name) decls then
    Some (join (js " ")
            (map (fun d => fst d ++ js ": " ++ snd d ++ js ";")
                 (List.filter (fun d => negb (str_eqb (fst d) name)) decls)))
  else None.

Definition node : NodeLib :=
  {| url_parse := parse;
     url_format := format;
     path_extname := extname;
     path_dirname := dirname;
     truncateToBinarySize := cutter_truncate;
     css_removeProperty := removeProperty |}.

End Node.

(* ================================================================== *)
(** * mwoffliner.js: configuration and link targets *)
(* ================================================================== *)

(** The module-level variables the embedded functions read. *)
Record Config := {
  webUrlPath : jsstring;
  webUrlHost : jsstring;
  nopic : bool;
  (** [articleList] is set (titles come from a file) *)
  articleList : bool;
  (** keys of [articleIds] *)
  articleIds : gset jsstring;
  (** [namespaces[name].isContent]; a truthy or falsy value that is
      returned as it is *)
  namespaces : gmap jsstring bool;
  (** [requestTimeout], in seconds *)
  requestTimeout : Z;
  htmlRootPath : jsstring;
  cacheDirectory : jsstring;
  skipCacheCleaning : bool
}.

(** Values returned by [extractTargetIdFromHref]. *)
Inductive target :=
| TUndefined
| TString (s : jsstring).


Section LinkTargets.
Variable lib : NodeLib.
Variable cfg : Config.

(** [extractTargetIdFromHref]: when neither prefix matches the function
    falls off its end and returns [undefined]; the [catch] branch returns
    the empty string. *)
Definition extractTargetIdFromHref (href : jsstring) : outcome target :=
  try_catch
    (bind (lib.(url_parse) href false true) (fun u =>
       let pathname := Str.or_else u.(pathname) [] in
       if starts_with (js "./") pathname then
         bind (Util.myDecodeURIComponent (substr_from 2 pathname))
              (fun s => Ret (TString s))
       else if starts_with cfg.(webUrlPath) pathname then
         bind (Util.myDecodeURIComponent
                 (substr_from (length cfg.(webUrlPath)) pathname))
              (fun s => Ret (TString s))
       else Ret TUndefined))
    (fun _ => Ret (TString [])).

(** [isMirrored] *)
Definition isMirrored (id : jsstring) : bool :=
  match (if negb cfg.(articleList) && Str.truthy id
         then Str.index_of 58 id else None) with
  | Some i =>
      match cfg.(namespaces) !! Str.replace_all 32 [95] (take i id) with
      | Some isContent => isContent
      | None => bool_decide (id ∈ cfg.(articleIds))
      end
  | None => bool_decide (id ∈ cfg.(articleIds))
  end.

End LinkTargets.

(** A configuration for running the embedding: an English Wikipedia
    crawl by name space, with pictures. *)
Definition example_cfg : Config :=
  {| webUrlPath := js "/wiki/";
     webUrlHost := js "en.wikipedia.org";
     nopic := false;
     articleList := false;
     articleIds := {[ js "Paris" ]};
     namespaces := {[ js "" := true ]};
     requestTimeout := 60;
     htmlRootPath := js "out/wikipedia_en_all/";
     cacheDirectory := js "cac/";
     skipCacheCleaning := false |}.

(** The same crawl without pictures. *)
Definition example_cfg_nopic : Config :=
  {| webUrlPath := js "/wiki/";
     webUrlHost := js "en.wikipedia.org";
     nopic := true;
     articleList := false;
     articleIds := {[ js "Paris" ]};
     namespaces := {[ js "" := true ]};
     requestTimeout := 60;
     htmlRootPath := js "out/wikipedia_en_all/";
     cacheDirectory := js "cac/";
     skipCacheCleaning := false |}.

(* ================================================================== *)
(** * Numbers *)
(* ================================================================== *)

Module Num.
Import Str.

(** JavaScript numbers.  The finite ones are kept as exact rationals in
    lowest terms: rounding to double precision and overflow are not
    modelled. *)
Inductive jsnum :=
| NaN
| Inf (negative : bool)
| Fin (q : Q).

Definition fin (n : Z) (d : positive) : jsnum := Fin (Qred (n # d)).

Definition is_nan (x : jsnum) : bool :=
  match x with NaN => true | _ => false end.

Definition q_negative (q : Q) : bool := Qnum q <? 0.
Definition q_zero (q : Q) : bool := Qnum q =? 0.

Definition add (x y : jsnum) : jsnum :=
  match x, y with
  | NaN, _ | _, NaN => NaN
  | Inf a, Inf b => if Bool.eqb a b then Inf a else NaN
  | Inf a, Fin _ | Fin _, Inf a => Inf a
  | Fin a, Fin b => Fin (Qred (a + b))
  end.

Definition mul (x y : jsnum) : jsnum :=
  match x, y with
  | NaN, _ | _, NaN => NaN
  | Inf a, Inf b => Inf (xorb a b)
  | Inf a, Fin q | Fin q, Inf a => if q_zero q then NaN else Inf (xorb a (q_negative q))
  | Fin a, Fin b => Fin (Qred (a * b))
  end.

Definition div (x y : jsnum) : jsnum :=
  match x, y with
  | NaN, _ | _, NaN => NaN
  | Inf _, Inf _ => NaN
  | Inf a, Fin q => Inf (xorb a (q_negative q))
  | Fin _, Inf _ => Fin 0
  | Fin a, Fin b =>
      if q_zero b then (if q_zero a then NaN else Inf (q_negative a))
      else Fin (Qred (a / b))
  end.

(** A number is falsy when it is [0] or [NaN]. *)
Definition num_truthy (x : jsnum) : bool :=
  match x with
  | NaN => false
  | Inf _ => true
  | Fin q => negb (q_zero q)
  end.

Definition digits_value (ds : jsstring) : Z :=
  fold_left (fun acc d => acc * 10 + (d - 48)) ds 0.

Definition pow10 (n : nat) : positive := Pos.pow 10 (Pos.of_nat n).

Definition ten_to (n : nat) : positive :=
  match n with O => 1%positive | _ => pow10 n end.

(** Longest prefix of [s] that is a [StrDecimalLiteral], with its value
    and what follows it. *)
Definition scan_decimal (s : jsstring) : option (jsnum * jsstring) :=
  let '(neg, s) :=
    match s with
    | 45 :: t => (true, t)
    | 43 :: t => (false, t)
    | _ => (false, s)
    end in
  if starts_with (js "Infinity") s then Some (Inf neg, drop 8 s)
  else
    let '(ip, r) := span is_digit s in
    let '(fp, r, dot) :=
      match r with
      | 46 :: r' =>
          let '(fp, r'') := span is_digit r' in
          match ip, fp with
          | [], [] => ([], r, false)
          | _, _ => (fp, r'', true)
          end
      | _ => ([], r, false)
      end in
    match ip, fp, dot with
    | [], [], _ => None
    | _, _, _ =>
        let '(e, r) :=
          match r with
          | c :: r' =>
              if (c =? 101) || (c =? 69) then
                let '(eneg, r'') :=
                  match r' with
                  | 45 :: t => (true, t)
                  | 43 :: t => (false, t)
                  | _ => (false, r')
                  end in
                let '(ed, r3) := span is_digit r'' in
                match ed with
                | [] => (0, r)
                | _ => ((if eneg then -1 else 1) * digits_value ed, r3)
                end
              else (0, r)
          | [] => (0, r)
          end in
        let m := digits_value (ip ++ fp) in
        let m := if neg then - m else m in
        let sh := e - Z.of_nat (length fp) in
        Some (if 0 <=? sh then fin (m * Z.pos (ten_to (Z.to_nat sh))) 1
              else fin m (ten_to (Z.to_nat (- sh))), r)
    end.

Definition radix_digits (radix : Z) (s : jsstring) : option Z :=
  match s with
  | [] => None
  | _ =>
      fold_left (fun acc c =>
        match acc, hex_value c with
        | Some a, Some d => if d <? radix then Some (a * radix + d) else None
        | _, _ => None
        end) s (Some 0)
  end.

(** [ToNumber] applied to a string *)
Definition ToNumber (s : jsstring) : jsnum :=
  match trim s with
  | [] => fin 0 1
  | 48 :: x :: t as s' =>
      let radix :=
        if (x =? 120) || (x =? 88) then Some 16
        else if (x =? 111) || (x =? 79) then Some 8
        else if (x =? 98) || (x =? 66) then Some 2
        else None in
      match radix with
      | Some r => match radix_digits r t with
                  | Some v => fin v 1
                  | None => NaN
                  end
      | None => match scan_decimal s' with
                | Some (v, []) => v
                | _ => NaN
                end
      end
  | s' => match scan_decimal s' with
          | Some (v, []) => v
          | _ => NaN
          end
  end.

(** [parseFloat] applied to a string *)
Definition parseFloat (s : jsstring) : jsnum :=
  match scan_decimal (trim_left s) with
  | Some (v, _) => v
  | None => NaN
  end.

Fixpoint nat_digits (fuel : nat) (n : Z) (acc : jsstring) : jsstring :=
  match fuel with
  | O => acc
  | S f =>
      let acc := (48 + n mod 10) :: acc in
      if n <? 10 then acc else nat_digits f (n / 10) acc
  end.

(** Decimal digits of a natural number *)
Definition Z_toString (n : Z) : jsstring :=
  nat_digits (S (Z.to_nat (Z.log2 n))) n [].

Fixpoint frac_digits (fuel : nat) (r d : Z) : jsstring :=
  match fuel with
  | O => []
  | S f =>
      if r =? 0 then []
      else (48 + (r * 10) / d) :: frac_digits f ((r * 10) mod d) d
  end.

(** [ToString] applied to a number, for values printed without an
    exponent.  A finite decimal expansion is printed in full; an infinite
    one is cut after 17 digits, where the engine prints the shortest
    digits that read back as the same double. *)
Definition Number_toString (x : jsnum) : jsstring :=
  match x with
  | NaN => js "NaN"
  | Inf neg => (if neg then js "-" else []) ++ js "Infinity"
  | Fin q =>
      let n := Z.abs (Qnum q) in
      let d := Z.pos (Qden q) in
      let fr := frac_digits 17 (n mod d) d in
      (if q_negative q then js "-" else [])
      ++ Z_toString (n / d)
      ++ match fr with [] => [] | _ => 46 :: fr end
  end.

End Num.

(* ================================================================== *)
(** * mwoffliner.js: [rewriteUrl] *)
(* ================================================================== *)

Module Geo.
Import Str Num.

(** The values [lat] and [lon] take in [rewriteUrl]. *)
Inductive coord :=
| CUndefined
| CStr (s : jsstring)
| CNum (n : jsnum).

(** [isNaN(x)] *)
Definition isNaN (x : coord) : bool :=
  match x with
  | CUndefined => true
  | CStr s => is_nan (ToNumber s)
  | CNum n => is_nan n
  end.

(** ['' + x] *)
Definition coord_toString (x : coord) : jsstring :=
  match x with
  | CUndefined => js "undefined"
  | CStr s => s
  | CNum n => Number_toString n
  end.

(** [String(x)] for a property of the parsed query *)
Definition qvalue_toString (q : qvalue) : jsstring :=
  match q with
  | QUndefined => js "undefined"
  | QString s => s
  | QArray xs => join (js ",") xs
  end.

(** An object literal with string keys and number values *)
Definition hash := list (jsstring * jsnum).

Definition hash_get (h : hash) (k : jsstring) : option jsnum :=
  snd <$> find (fun kv => str_eqb (fst kv) k) h.

Definition factors : list jsnum := [fin 1 1; fin 60 1; fin 3600 1].

(** [v / factors[i]]: past the end of [factors] the divisor is
    [undefined] and the quotient [NaN]. *)
Definition over_factor (v : jsstring) (i : nat) : jsnum :=
  match factors !! i with
  | Some f => div (ToNumber v) f
  | None => NaN
  end.

(** The [for] loop of [deg], from index [i] with [remaining] rounds
    below the bound [4]: the result is [out] and the value of [offs].  The
    [hemiSign] read from [hemiHash] is local to the loop body; it is only
    tested. *)
Fixpoint deg_loop (hemiHash : hash) (pieces : list jsstring) (offs : nat)
  (i remaining : nat) (out : jsnum) : jsnum * nat :=
  match remaining with
  | O => (out, offs)
  | S remaining' =>
      match pieces !! (i + offs)%nat with
      | None => (out, offs)
      | Some v =>
          let hemiSign := hash_get hemiHash v in
          if match hemiSign with Some s => num_truthy s | None => false end
          then (out, (i + 1)%nat)
          else deg_loop hemiHash pieces offs (S i) remaining'
                        (add out (over_factor v i))
      end
  end.

(** [deg(hemiHash)], with the variable [offs] it shares with its
    caller: the [hemiSign] of the [return] statement is the one declared
    before the loop, which is [1]. *)
Definition deg (hemiHash : hash) (pieces : list jsstring) (offs : nat)
  : jsnum * nat :=
  let hemiSign := fin 1 1 in
  let '(out, offs') := deg_loop hemiHash pieces offs 0 4 (fin 0 1) in
  (mul out hemiSign, offs').

Definition lat_hash : hash := [(js "N", fin 1 1); (js "S", fin (-1) 1)].
Definition lon_hash : hash := [(js "E", fin 1 1); (js "W", fin (-1) 1); (js "O", fin 1 1)].

(** The element of an array-valued [params] the [while] loop stops at:
    the first one that is empty or starts with a character that is not
    [NaN] as a number. *)
Fixpoint pick_params (xs : list jsstring) : option jsstring :=
  match xs with
  | [] => None
  | x :: t =>
      match x with
      | c :: _ => if is_nan (ToNumber [c]) then pick_params t else Some x
      | [] => Some x
      end
  end.

Section RewriteUrl.
Variable lib : NodeLib.

(** [urlParser.parse(href, true).query] *)
Definition href_query (href : jsstring) : outcome (list (jsstring * jsstring)) :=
  bind (lib.(url_parse) href true false) (fun u => Ret u.(query)).

(** The coordinates [rewriteUrl] reads from a geohack [params] value. *)
Definition geohack_coords (params : qvalue) : coord * coord :=
  let params :=
    match params with
    | QArray xs => pick_params xs
    | QString s => Some s
    | QUndefined => None
    end in
  match params with
  | Some (c :: p) =>
      let pieces := split_on 95 (toUpperCase (c :: p)) in
      let semiPieces := split_on 59 (default [] (head pieces)) in
      match semiPieces with
      | [a; b] => (CStr a, CStr b)
      | _ =>
          let offs := O in
          let '(lat, offs) := deg lat_hash pieces offs in
          let '(lon, offs) := deg lon_hash pieces offs in
          (CNum lat, CNum lon)
      end
  | _ => (CUndefined, CUndefined)
  end.

(** [rewriteUrl] on the value of the [href] attribute: the new value
    of the attribute, or [None] when the link is left as it is. *)
Definition rewriteUrl (href : option jsstring) : outcome (option jsstring) :=
  match href with
  | None | Some [] => Ret None
  | Some href =>
      bind (if contains (js "poimap2.php") (toLowerCase href) then
              bind (href_query href) (fun q =>
                Ret (CNum (parseFloat (qvalue_toString (query_get q (js "lat")))),
                     CNum (parseFloat (qvalue_toString (query_get q (js "lon"))))))
            else if contains (js "geohack.php") (toLowerCase href) then
              bind (href_query href) (fun q =>
                Ret (geohack_coords (query_get q (js "params"))))
            else Ret (CUndefined, CUndefined)) (fun '(lat, lon) =>
        if negb (isNaN lat) && negb (isNaN lon)
        then Ret (Some (js "geo:" ++ coord_toString lat ++ js "," ++ coord_toString lon))
        else Ret None)
  end.

End RewriteUrl.

End Geo.

(* ================================================================== *)
(** * Digests: [crypto.createHash(...).update(s).digest('hex')] *)
(* ================================================================== *)

Module Crypto.

Definition w32 (x : Z) : Z := x mod 4294967296.

Definition rotl (x : Z) (n : Z) : Z :=
  w32 (Z.lor (Z.shiftl x n) (Z.shiftr x (32 - n))).

Definition not32 (x : Z) : Z := Z.lxor x 4294967295.

(** Padding shared by MD5 and SHA-1: a [0x80] byte, zeros up to 56
    modulo 64; the eight bytes of the bit length follow. *)
Definition pad_zeros (len : nat) : list Z :=
  repeat 0 ((119 - len mod 64) mod 64)%nat.

Definition le_bytes (n : nat) (x : Z) : list Z :=
  map (fun i => Z.shiftr x (8 * Z.of_nat i) mod 256) (seq 0 n).

Definition be_bytes (n : nat) (x : Z) : list Z := rev (le_bytes n x).

Fixpoint chunks (fuel : nat) (n : nat) (l : list Z) : list (list Z) :=
  match fuel, l with
  | _, [] => []
  | O, _ => []
  | S f, _ => take n l :: chunks f n (drop n l)
  end.

Definition le_word (b : list Z) : Z :=
  fold_right (fun x acc => x + 256 * acc) 0 b.

Definition be_word (b : list Z) : Z :=
  fold_left (fun acc x => 256 * acc + x) b 0.

Definition hex_of_bytes (bs : list Z) : jsstring :=
  concat (map (fun b =>
    let h n := if n <? 10 then 48 + n else 87 + n in
    [h (Z.shiftr b 4); h (Z.land b 15)]) bs).

(** ** MD5 (RFC 1321) *)

Definition md5_K : list Z :=
  [3614090360; 3905402710; 606105819; 3250441966; 4118548399; 1200080426;
   2821735955; 4249261313; 1770035416; 2336552879; 4294925233; 2304563134;
   1804603682; 4254626195; 2792965006; 1236535329; 4129170786; 3225465664;
   643717713; 3921069994; 3593408605; 38016083; 3634488961; 3889429448;
   568446438; 3275163606; 4107603335; 1163531501; 2850285829; 4243563512;
   1735328473; 2368359562; 4294588738; 2272392833; 1839030562; 4259657740;
   2763975236; 1272893353; 4139469664; 3200236656; 681279174; 3936430074;
   3572445317; 76029189; 3654602809; 3873151461; 530742520; 3299628645;
   4096336452; 1126891415; 2878612391; 4237533241; 1700485571; 2399980690;
   4293915773; 2240044497; 1873313359; 4264355552; 2734768916; 1309151649;
   4149444226; 3174756917; 718787259; 3951481745].

Definition md5_s : list Z :=
  [7; 12; 17; 22; 7; 12; 17; 22; 7; 12; 17; 22; 7; 12; 17; 22;
   5; 9; 14; 20; 5; 9; 14; 20; 5; 9; 14; 20; 5; 9; 14; 20;
   4; 11; 16; 23; 4; 11; 16; 23; 4; 11; 16; 23; 4; 11; 16; 23;
   6; 10; 15; 21; 6; 10; 15; 21; 6; 10; 15; 21; 6; 10; 15; 21].

Definition md5_round (M : list Z) (st : Z * Z * Z * Z) (i : nat) : Z * Z * Z * Z :=
  let '(A, B, C, D) := st in
  let '(F, g) :=
    if (i <? 16)%nat then
      (Z.lor (Z.land B C) (Z.land (not32 B) D), i)
    else if (i <? 32)%nat then
      (Z.lor (Z.land D B) (Z.land (not32 D) C), ((5 * i + 1) mod 16)%nat)
    else if (i <? 48)%nat then
      (Z.lxor (Z.lxor B C) D, ((3 * i + 5) mod 16)%nat)
    else
      (Z.lxor C (Z.lor B (not32 D)), ((7 * i) mod 16)%nat) in
  let F := w32 (F + A + nth i md5_K 0 + nth g M 0) in
  (D, w32 (B + rotl F (nth i md5_s 0)), B, C).

Definition md5_chunk (h : Z * Z * Z * Z) (chunk : list Z) : Z * Z * Z * Z :=
  let M := map le_word (chunks 16 4 chunk) in
  let '(a0, b0, c0, d0) := h in
  let '(A, B, C, D) := fold_left (md5_round M) (seq 0 64) h in
  (w32 (a0 + A), w32 (b0 + B), w32 (c0 + C), w32 (d0 + D)).

Definition md5 (msg : list Z) : list Z :=
  let len := length msg in
  let padded := msg ++ [128] ++ pad_zeros len ++ le_bytes 8 (8 * Z.of_nat len) in
  let '(a, b, c, d) :=
    fold_left md5_chunk (chunks (length padded) 64 padded)
              (1732584193, 4023233417, 2562383102, 271733878) in
  le_bytes 4 a ++ le_bytes 4 b ++ le_bytes 4 c ++ le_bytes 4 d.

(** [crypto.createHash('md5').update(s).digest('hex')]; the string is
    hashed as its UTF-8 bytes. *)
Definition md5_hex (s : jsstring) : jsstring := hex_of_bytes (md5 (URI.utf8_encode s)).

(** ** SHA-1 (FIPS 180) *)

Fixpoint sha1_schedule (n : nat) (w : list Z) : list Z :=
  match n with
  | O => w
  | S n' =>
      let i := length w in
      let x k := nth (i - k) w 0 in
      sha1_schedule n' (w ++ [rotl (Z.lxor (Z.lxor (x 3%nat) (x 8%nat))
                                           (Z.lxor (x 14%nat) (x 16%nat))) 1])
  end.

Definition sha1_round (st : Z * Z * Z * Z * Z) (iw : nat * Z) : Z * Z * Z * Z * Z :=
  let '(a, b, c, d, e) := st in
  let '(i, w) := iw in
  let '(f, k) :=
    if (i <? 20)%nat then (Z.lor (Z.land b c) (Z.land (not32 b) d), 1518500249)
    else if (i <? 40)%nat then (Z.lxor (Z.lxor b c) d, 1859775393)
    else if (i <? 60)%nat then
      (Z.lor (Z.lor (Z.land b c) (Z.land b d)) (Z.land c d), 2400959708)
    else (Z.lxor (Z.lxor b c) d, 3395469782) in
  (w32 (rotl a 5 + f + e + k + w), a, rotl b 30, c, d).

Definition sha1_chunk (h : Z * Z * Z * Z * Z) (chunk : list Z) : Z * Z * Z * Z * Z :=
  let w := sha1_schedule 64 (map be_word (chunks 16 4 chunk)) in
  let '(h0, h1, h2, h3, h4) := h in
  let '(a, b, c, d, e) := fold_left sha1_round (combine (seq 0 80) w) h in
  (w32 (h0 + a), w32 (h1 + b), w32 (h2 + c), w32 (h3 + d), w32 (h4 + e)).

Definition sha1 (msg : list Z) : list Z :=
  let len := length msg in
  let padded := msg ++ [128] ++ pad_zeros len ++ be_bytes 8 (8 * Z.of_nat len) in
  let '(a, b, c, d, e) :=
    fold_left sha1_chunk (chunks (length padded) 64 padded)
              (1732584193, 4023233417, 2562383102, 271733878, 3285377520) in
  be_bytes 4 a ++ be_bytes 4 b ++ be_bytes 4 c ++ be_bytes 4 d ++ be_bytes 4 e.

Definition sha1_hex (s : jsstring) : jsstring := hex_of_bytes (sha1 (URI.utf8_encode s)).

End Crypto.

(* ================================================================== *)
(** * Regular expressions: the backtracking matcher of the language *)
(* ================================================================== *)

Module Regex.

Inductive re :=
| RChar (p : code_unit -> bool)
| REps
| RSeq (a b : re)
| RAlt (a b : re)
| RStar (greedy : bool) (a : re)
| RGroup (n : nat) (a : re)
| REnd.

(** Captures, most recent first *)
Definition captures := list (nat * jsstring).

Definition or_try (a b : option captures) : option captures :=
  match a with
  | Some r => Some r
  | None => b
  end.

(** [m r s caps k]: match [r] at the head of the rest [s] of the
    subject, then continue with [k]; alternatives are tried in order, a
    greedy star tries one more round first, a lazy one tries the
    continuation first.  A round of a star must consume input. *)
Fixpoint m (r : re) (s : jsstring) (caps : captures)
  (k : jsstring -> captures -> option captures) {struct r} : option captures :=
  match r with
  | RChar p =>
      match s with
      | c :: t => if p c then k t caps else None
      | [] => None
      end
  | REps => k s caps
  | RSeq a b => m a s caps (fun s' caps' => m b s' caps' k)
  | RAlt a b => or_try (m a s caps k) (m b s caps k)
  | RStar greedy a =>
      (fix star (fuel : nat) (s : jsstring) (caps : captures) {struct fuel}
         : option captures :=
         match fuel with
         | O => k s caps
         | S fuel' =>
             let more := fun _ : unit =>
               m a s caps (fun s' caps' =>
                 if (length s' <? length s)%nat then star fuel' s' caps' else None) in
             if greedy then or_try (more tt) (k s caps)
             else or_try (k s caps) (more tt)
         end) (length s) s caps
  | RGroup n a =>
      m a s caps (fun s' caps' =>
        k s' ((n, take (length s - length s') s) :: caps'))
  | REnd =>
      match s with
      | [] => k s caps
      | _ => None
      end
  end.

(** [r.exec(s)] for a pattern anchored at the start *)
Definition exec (r : re) (s : jsstring) : option captures :=
  m r s [] (fun _ caps => Some caps).

(** [parts[n]] *)
Definition group (caps : captures) (n : nat) : jsstring :=
  default [] (snd <$> find (fun c => Nat.eqb (fst c) n) caps).

Definition plus (greedy : bool) (a : re) : re := RSeq a (RStar greedy a).
Definition opt (a : re) : re := RAlt a REps.
Definition lit (c : code_unit) : re := RChar (Z.eqb c).

(** [.] matches anything but a line terminator. *)
Definition dot : re :=
  RChar (fun c => negb (existsb (Z.eqb c) [10; 13; 8232; 8233])).

End Regex.

(* ================================================================== *)
(** * mwoffliner.js: media file names *)
(* ================================================================== *)

Module Media.
Import Regex.

Definition mediaDirectory : jsstring := js "m".
Definition INFINITY_WIDTH : Z := 9999999.

(** [\.[A-Za-z0-9]{2,6}|] *)
Definition ext_re : re :=
  let c := RChar is_alnum in
  RAlt (RSeq (lit 46) (RSeq c (RSeq c (opt (RSeq c (opt (RSeq c (opt (RSeq c (opt c))))))))))
       REps.

(** [/^(.*\/)([^\/]+)(\/)(\d+px-|)(.+?)(\.[A-Za-z0-9]{2,6}|)(\.[A-Za-z0-9]{2,6}|)$/] *)
Definition mediaRegex : re :=
  RSeq (RGroup 1 (RSeq (RStar true dot) (lit 47)))
  (RSeq (RGroup 2 (plus true (RChar (fun c => negb (c =? 47)))))
  (RSeq (RGroup 3 (lit 47))
  (RSeq (RGroup 4 (RAlt (RSeq (plus true (RChar is_digit))
                              (RSeq (lit 112) (RSeq (lit 120) (lit 45))))
                        REps))
  (RSeq (RGroup 5 (plus false dot))
  (RSeq (RGroup 6 ext_re)
  (RSeq (RGroup 7 ext_re) REnd)))))).

(** The two candidate names read from the groups. *)
Definition firstVariant (parts : captures) : jsstring := group parts 2.

Definition secondVariant (parts : captures) : jsstring :=
  group parts 5 ++ Str.or_else (Some (group parts 6)) (js ".svg")
  ++ Str.or_else (Some (group parts 7)) [].

(** [parts[2].length > parts[5].length ? parts[2] : parts[5] + ...] *)
Definition filenameBase (parts : captures) : jsstring :=
  if (length (group parts 5) <? length (group parts 2))%nat
  then firstVariant parts else secondVariant parts.

(** [parseInt(s)]: the leading decimal digits after optional white
    space and sign; [None] stands for [NaN]. *)
Definition parseInt (s : jsstring) : option Z :=
  let s := Str.trim_left s in
  let '(neg, s) :=
    match s with
    | 45 :: t => (true, t)
    | 43 :: t => (false, t)
    | _ => (false, s)
    end in
  match fst (Str.span is_digit s) with
  | [] => None
  | ds => Some ((if neg then -1 else 1) * Num.digits_value ds)
  end.

(** [parseInt(parts[4].replace(/px\-/g, '')) || INFINITY_WIDTH] *)
Definition width_of (parts : captures) : Z :=
  let p4 := group parts 4 in
  let digits := if Nat.eqb (length p4) 0 then [] else take (length p4 - 3) p4 in
  match parseInt digits with
  | Some 0 | None => INFINITY_WIDTH
  | Some w => w
  end.

Section MediaNames.
Variable lib : NodeLib.

(** The value of [filename] in [getMediaBase] before it is shortened:
    [None] when the URL does not parse. *)
Definition derivedFilename (url : jsstring) : outcome (option jsstring) :=
  bind (URI.decodeURI url) (fun decoded =>
    match exec mediaRegex decoded with
    | None => Ret None
    | Some parts =>
        if negb (Str.truthy (filenameBase parts)) then Ret None
        else
          let filenameFirstVariant := firstVariant parts in
          let filenameSecondVariant := secondVariant parts in
          bind (Util.myDecodeURIComponent
                  (if (length filenameSecondVariant <? length filenameFirstVariant)%nat
                   then filenameFirstVariant else filenameSecondVariant))
               (fun filename => Ret (Some filename))
    end).

(** [pathParser.extname(filename).split('.')[1] || ''] *)
Definition filename_ext (filename : jsstring) : jsstring :=
  default [] (split_on 46 (lib.(path_extname) filename) !! 1%nat).

(** [filename.substring(0, filename.length - ext.length - 1) || ''] *)
Definition filename_basename (filename : jsstring) : jsstring :=
  take (length filename - length (filename_ext filename) - 1) filename.

(** The block of [getMediaBase] that shortens the file name. *)
Definition shortenFilename (filename : jsstring) : jsstring :=
  if (249 <? URI.byteLength filename)%nat then
    let ext := filename_ext filename in
    let basename := filename_basename filename in
    lib.(truncateToBinarySize) basename (239 - Z.of_nat (length ext))
    ++ take 2 (Crypto.md5_hex basename) ++ js "." ++ ext
  else filename.

(** [getMediaBase(url, escape)]: [None] stands for [undefined]. *)
Definition getMediaBase (url : jsstring) (escape : bool) : outcome (option jsstring) :=
  bind (derivedFilename url) (fun o =>
    match o with
    | None => Ret None
    | Some filename =>
        bind (if escape then URI.encodeURIComponent (shortenFilename filename)
              else Ret (shortenFilename filename))
             (fun e => Ret (Some (mediaDirectory ++ js "/" ++ e)))
    end).

Definition getMediaUrl (url : jsstring) : outcome (option jsstring) :=
  getMediaBase url true.

End MediaNames.

End Media.

(** A file name of 256 bytes, and a media URL that carries it. *)
Definition example_long_name : jsstring := repeat 65 252 ++ js ".png".

Definition example_long_url : jsstring :=
  js "http://upload.wikimedia.org/wikipedia/commons/a/ab/" ++ example_long_name.

(* ================================================================== *)
(** * mwoffliner.js: [downloadContent] *)
(* ================================================================== *)

Module Fetch.

Definition bytes := list Z.
Definition headers := list (jsstring * jsstring).

(** The [data] handed to the callbacks: [undefined], a string (after
    [decoded.toString()]) or a [Buffer]. *)
Inductive data :=
| DUndefined
| DString (s : bytes)
| DBuffer (b : bytes).

(** What the HTTP layer delivers to the handlers of one request.  A
    socket event says whether the handlers on the socket were installed by
    this request ([socket.custom] was not set yet) or by an earlier one on
    a reused socket. *)
Inductive net_event :=
| EvResponse (statusCode : Z) (hdrs : headers)
| EvData (chunk : bytes)
| EvEnd
| EvResponseError
| EvRequestError
| EvSocketError (own : bool)
| EvSocketTimeout (own : bool).

(** What an invocation does, in order. *)
Inductive trace_event :=
| TRequest (attempt : nat) (timeout_ms : Z)
| TPrintErr
| TAbort
| TSocketDestroy
| TSocketEnd
| TSetTimeout (delay_ms : Z)
| TCallback (d : data) (h : headers).

(** The variables of one attempt, with [responseHeaders], which the
    attempts share. *)
Record attempt_state := mkAttempt {
  calledFinished : bool;
  request_defined : bool;
  listening : option headers;
  chunks : list bytes;
  responseHeaders : headers;
  finished_args : option (Z * bool * data);
  trace : list trace_event
}.

(** [callFinished(timeout, message, data)]; [message] is given by its
    truthiness. *)
Definition callFinished (st : attempt_state) (timeout : Z) (message : bool) (d : data)
  : attempt_state :=
  if st.(calledFinished) then st
  else
    {| calledFinished := true;
       request_defined := false;
       listening := st.(listening);
       chunks := st.(chunks);
       responseHeaders := st.(responseHeaders);
       finished_args := Some (timeout, message, d);
       trace := st.(trace) ++ (if message then [TPrintErr; TAbort] else [])
                ++ [TSetTimeout timeout] |}.

Definition log (st : attempt_state) (evs : list trace_event) : attempt_state :=
  {| calledFinished := st.(calledFinished);
     request_defined := st.(request_defined);
     listening := st.(listening);
     chunks := st.(chunks);
     responseHeaders := st.(responseHeaders);
     finished_args := st.(finished_args);
     trace := st.(trace) ++ evs |}.

Definition header_get (h : headers) (k : jsstring) : option jsstring :=
  snd <$> find (fun kv => str_eqb (fst kv) k) h.

Section Attempts.
(** [zlib.gunzip] and [zlib.inflate]: [None] when they report an
    error. *)
Variable gunzip : bytes -> option bytes.
Variable inflate : bytes -> option bytes.
Variable cfg : Config.

(** [callFinished(0, error, decoded && decoded.toString())] *)
Definition finish_decoded (st : attempt_state) (r : option bytes) : attempt_state :=
  match r with
  | Some decoded => callFinished st 0 false (DString decoded)
  | None => callFinished st 0 true DUndefined
  end.

(** The handlers of attempt number [retryCount]. *)
Definition handle (retryCount : nat) (st : attempt_state) (ev : net_event)
  : attempt_state :=
  match ev with
  | EvResponse statusCode hdrs =>
      if statusCode =? 200 then
        {| calledFinished := st.(calledFinished);
           request_defined := st.(request_defined);
           listening := Some hdrs;
           chunks := [];
           responseHeaders := st.(responseHeaders);
           finished_args := st.(finished_args);
           trace := st.(trace) |}
      else callFinished (log st [TSocketDestroy]) 0 true DUndefined
  | EvData chunk =>
      match st.(listening) with
      | Some _ =>
          {| calledFinished := st.(calledFinished);
             request_defined := st.(request_defined);
             listening := st.(listening);
             chunks := st.(chunks) ++ [chunk];
             responseHeaders := st.(responseHeaders);
             finished_args := st.(finished_args);
             trace := st.(trace) |}
      | None => st
      end
  | EvEnd =>
      match st.(listening) with
      | Some hdrs =>
          let st :=
            {| calledFinished := st.(calledFinished);
               request_defined := st.(request_defined);
               listening := st.(listening);
               chunks := st.(chunks);
               responseHeaders := hdrs;
               finished_args := st.(finished_args);
               trace := st.(trace) |} in
          let body := concat st.(chunks) in
          match header_get hdrs (js "content-encoding") with
          | Some enc =>
              if str_eqb enc (js "gzip") then finish_decoded st (gunzip body)
              else if str_eqb enc (js "deflate") then finish_decoded st (inflate body)
              else callFinished st 0 false (DBuffer body)
          | None => callFinished st 0 false (DBuffer body)
          end
      | None => st
      end
  | EvResponseError =>
      match st.(listening) with
      | Some _ => callFinished (log st [TSocketDestroy]) 0 true DUndefined
      | None => st
      end
  | EvRequestError =>
      callFinished st (10000 * Z.of_nat retryCount) true DUndefined
  | EvSocketError own =>
      let st := log st [TPrintErr; TSocketDestroy] in
      if own && st.(request_defined)
      then callFinished st (10000 * Z.of_nat retryCount) true DUndefined
      else st
  | EvSocketTimeout own =>
      let st := log st [TPrintErr; TSocketEnd] in
      if own && st.(request_defined)
      then callFinished st (10000 * Z.of_nat retryCount) true DUndefined
      else st
  end.

(** One attempt: the request is issued with its timeout, then the
    events of the attempt are handled in order. *)
Definition run_attempt (retryCount : nat) (hdrs : headers) (tr : list trace_event)
  (events : list net_event) : attempt_state :=
  fold_left (handle retryCount)
    events
    {| calledFinished := false;
       request_defined := true;
       listening := None;
       chunks := [];
       responseHeaders := hdrs;
       finished_args := None;
       trace := tr ++ [TRequest retryCount
                         (cfg.(requestTimeout) * 1000 * Z.of_nat retryCount)] |}.

(** [data || new Buffer(0)] *)
Definition data_or_empty (d : data) : data :=
  match d with
  | DUndefined | DString [] => DBuffer []
  | _ => d
  end.

(** [async.retry(times, task, callback)] with the task and the final
    callback of [downloadContent]: an attempt that reports an error is
    followed by the next one while attempts are left; an attempt that
    never calls [finished] leaves the invocation pending.  [script] holds
    the events of the successive attempts. *)
Fixpoint retry (times : nat) (retryCount : nat) (script : list (list net_event))
  (hdrs : headers) (tr : list trace_event) : list trace_event :=
  match times with
  | O => tr
  | S times' =>
      let st := run_attempt retryCount hdrs tr (default [] (head script)) in
      match st.(finished_args) with
      | None => st.(trace)
      | Some (_, message, d) =>
          if message && negb (Nat.eqb times' 0)
          then retry times' (S retryCount) (tail script) st.(responseHeaders) st.(trace)
          else st.(trace) ++ (if message then [TPrintErr] else [])
               ++ [TCallback (data_or_empty d) st.(responseHeaders)]
      end
  end.

(** [downloadContent(url, callback)].  The first statement evaluates
    [decodeURI(url)] for the log and raises where it does; the later uses
    of [decodeURI(url)] in messages cannot fail once the first has
    succeeded, and the choice between the [http] and [https] modules is
    left out. *)
Definition downloadContent (url : jsstring) (script : list (list net_event))
  : outcome (list trace_event) :=
  bind (URI.decodeURI url) (fun _ => Ret (retry 3 1 script [] [])).

End Attempts.

Definition is_callback (e : trace_event) : bool :=
  match e with TCallback _ _ => true | _ => false end.

Definition is_request (e : trace_event) : bool :=
  match e with TRequest _ _ => true | _ => false end.

(** The result [finished] is called with at the end of an attempt, if
    it is called. *)
Definition attempt_outcome (gunzip inflate : bytes -> option bytes) (cfg : Config)
  (retryCount : nat) (events : list net_event) : option (Z * bool * data) :=
  finished_args (run_attempt gunzip inflate cfg retryCount [] [] events).

End Fetch.

(** Decoders that report an error on every input, for running the
    fetcher on scripts without compressed bodies. *)
Definition no_decoder (b : Fetch.bytes) : option Fetch.bytes := None.

(** Three attempts answered with an HTTP error status. *)
Definition example_script_errors : list (list Fetch.net_event) :=
  [[Fetch.EvResponse 503 []]; [Fetch.EvResponse 503 []]; [Fetch.EvResponse 404 []]].

(** A timeout on the socket, then a status 500, then the page in two
    chunks. *)
Definition example_script_recovers : list (list Fetch.net_event) :=
  [[Fetch.EvSocketTimeout true; Fetch.EvRequestError];
   [Fetch.EvResponse 500 []; Fetch.EvRequestError];
   [Fetch.EvResponse 200 [(js "content-type", js "text/html")];
    Fetch.EvData [60; 112; 62]; Fetch.EvData [104; 105]; Fetch.EvEnd;
    Fetch.EvResponseError]].

(* ================================================================== *)
(** * mwoffliner.js: [downloadFileAndCache] *)
(* ================================================================== *)

Module MediaCache.
Import Media.

(** The content of a [.h] file of the cache, as [JSON.parse] reads it:
    unparsable, or an object with or without a [width]. *)
Inductive header_file :=
| HUnparsable
| HWidth (w : option Z).

(** What a request does to the outside. *)
Inductive effect :=
| EHttpGet (url : jsstring)
| ECacheWrite (path : jsstring)
| EHeaderWrite (path : jsstring) (width : Z)
| ESymlink (target path : jsstring)
| ETouch (path : jsstring)
| EOptimize (path : jsstring)
| ECallback.

(** The key-value store, the cache directory and the media directory.
    The store holds widths as decimal strings and the comparison with a
    width turns them back into numbers; they are kept as numbers.  The
    store is taken to answer every request. *)
Record world := mkWorld {
  mediaIds : gmap jsstring Z;
  mediaToCheck : gmap jsstring Z;
  cacheBody : gmap jsstring Fetch.bytes;
  cacheHeader : gmap jsstring header_file;
  links : gmap jsstring jsstring;
  effects : list effect
}.

Definition emit (w : world) (es : list effect) : world :=
  {| mediaIds := w.(mediaIds); mediaToCheck := w.(mediaToCheck);
     cacheBody := w.(cacheBody); cacheHeader := w.(cacheHeader);
     links := w.(links); effects := w.(effects) ++ es |}.

(** [fs.symlink(target, path, 'file', cb)]: the flag tells whether the
    link existed already ([EEXIST]). *)
Definition symlink (w : world) (target path : jsstring) : world * bool :=
  match w.(links) !! path with
  | Some _ => (w, true)
  | None =>
      ({| mediaIds := w.(mediaIds); mediaToCheck := w.(mediaToCheck);
          cacheBody := w.(cacheBody); cacheHeader := w.(cacheHeader);
          links := <[path := target]> w.(links);
          effects := w.(effects) ++ [ESymlink target path] |}, false)
  end.

Section Download.
Variable lib : NodeLib.
Variable cfg : Config.
(** The body [downloadContent] hands to its callback for a URL (empty
    when its attempts failed). *)
Variable fetch : jsstring -> Fetch.bytes.

(** The base name and the width read from a media URL; the groups of a
    URL that does not match cannot be read. *)
Definition media_ref (url : jsstring) : outcome (jsstring * Z) :=
  bind (URI.decodeURI url) (fun decoded =>
    match Regex.exec mediaRegex decoded with
    | Some parts => Ret (filenameBase parts, width_of parts)
    | None => Throw TypeError
    end).

(** [getMediaPath(url)], with [escape] left out *)
Definition getMediaPath (url : jsstring) : outcome (option jsstring) :=
  bind (getMediaBase lib url false) (fun mediaBase =>
    Ret ((fun b => cfg.(htmlRootPath) ++ b) <$> mediaBase)).

Definition cache_path (url filenameBase : jsstring) : outcome jsstring :=
  bind (lib.(url_parse) url false true) (fun u =>
    Ret (cfg.(cacheDirectory) ++ js "m/" ++ take 20 (Crypto.sha1_hex filenameBase)
         ++ lib.(path_extname) (Str.or_else u.(pathname) []))).

(** [downloadFile(url, path, true, callback)]: the content is fetched,
    written and queued for optimisation. *)
Definition downloadFile (w : world) (url path : jsstring) : world :=
  {| mediaIds := w.(mediaIds); mediaToCheck := w.(mediaToCheck);
     cacheBody := <[path := fetch url]> w.(cacheBody);
     cacheHeader := w.(cacheHeader);
     links := w.(links);
     effects := w.(effects) ++ [EHttpGet url; ECacheWrite path; EOptimize path] |}.

Definition write_header (w : world) (path : jsstring) (width : Z) : world :=
  {| mediaIds := w.(mediaIds); mediaToCheck := w.(mediaToCheck);
     cacheBody := w.(cacheBody);
     cacheHeader := <[path := HWidth (Some width)]> w.(cacheHeader);
     links := w.(links);
     effects := w.(effects) ++ [EHeaderWrite path width] |}.

(** [downloadFileAndCache(url, callback)], run to its callback. *)
Definition downloadFileAndCache (url : jsstring) (w : world) : outcome world :=
  bind (media_ref url) (fun '(filenameBase, width) =>
    let r_width := w.(mediaIds) !! filenameBase in
    if match r_width with
       | None => true
       | Some r => r <? width
       end
    then
      let w := {| mediaIds := <[filenameBase := width]> w.(mediaIds);
                  mediaToCheck := w.(mediaToCheck);
                  cacheBody := w.(cacheBody); cacheHeader := w.(cacheHeader);
                  links := w.(links); effects := w.(effects) |} in
      bind (getMediaPath url) (fun mediaPath =>
      bind (cache_path url filenameBase) (fun cachePath =>
        match mediaPath with
        | None => Throw TypeError
        | Some mediaPath =>
            let cached :=
              match w.(cacheHeader) !! cachePath, w.(cacheBody) !! cachePath with
              | Some (HWidth hw), Some _ =>
                  if match hw with Some c => c <? width | None => false end
                  then None else Some hw
              | _, _ => None
              end in
            match cached with
            | Some hw =>
                let '(w, eexist) := symlink w cachePath mediaPath in
                let w := if eexist && negb cfg.(skipCacheCleaning)
                         then emit w [ETouch cachePath] else w in
                let w := if negb cfg.(skipCacheCleaning)
                         then emit w [ETouch (cachePath ++ js ".h")] else w in
                let toCheck :=
                  if match hw with Some c => c =? width | None => false end
                  then delete filenameBase w.(mediaToCheck)
                  else <[filenameBase := width]> w.(mediaToCheck) in
                Ret (emit {| mediaIds := w.(mediaIds); mediaToCheck := toCheck;
                             cacheBody := w.(cacheBody);
                             cacheHeader := w.(cacheHeader);
                             links := w.(links); effects := w.(effects) |}
                          [ECallback])
            | None =>
                let w := downloadFile w url cachePath in
                let '(w, _) := symlink w cachePath mediaPath in
                let w := write_header w cachePath width in
                Ret (emit w [ECallback])
            end
        end))
    else Ret (emit w [ECallback])).

(** The requests of the download queue, one after the other. *)
Fixpoint process (urls : list jsstring) (w : world) : outcome world :=
  match urls with
  | [] => Ret w
  | url :: rest => bind (downloadFileAndCache url w) (process rest)
  end.

End Download.

Definition empty_world : world :=
  {| mediaIds := ∅; mediaToCheck := ∅; cacheBody := ∅; cacheHeader := ∅;
     links := ∅; effects := [] |}.

(** The URLs fetched, in order. *)
Definition http_gets (es : list effect) : list jsstring :=
  omap (fun e => match e with EHttpGet u => Some u | _ => None end) es.

Definition cache_writes (es : list effect) : list jsstring :=
  omap (fun e => match e with ECacheWrite p => Some p | _ => None end) es.

End MediaCache.

(** The same picture at two widths. *)
Definition example_url_120 : jsstring :=
  js "https://upload.wikimedia.org/wikipedia/commons/thumb/a/ab/Tour_Eiffel.jpg/120px-Tour_Eiffel.jpg".

Definition example_url_300 : jsstring :=
  js "https://upload.wikimedia.org/wikipedia/commons/thumb/a/ab/Tour_Eiffel.jpg/300px-Tour_Eiffel.jpg".

Definition example_fetch (url : jsstring) : Fetch.bytes := [255; 216; 255].

(* ================================================================== *)
(** * The section DOM *)
(* ================================================================== *)

Module Dom.

Definition attrs := list (jsstring * jsstring).

(** The children of a node, as a list linked by next-sibling: a text
    node, or an element with its identity, tag (in lower case),
    attributes and own children.  A document is the forest of the
    children of its [body]. *)
Inductive forest :=
| FNil
| FText (text : jsstring) (sibs : forest)
| FElem (id : nat) (tag : jsstring) (a : attrs) (kids : forest) (sibs : forest).

(** An element detached from its siblings *)
Record element := mkElement {
  el_id : nat;
  el_tag : jsstring;
  el_attrs : attrs;
  el_kids : forest
}.

(** The elements in document order *)
Fixpoint elements (f : forest) : list element :=
  match f with
  | FNil => []
  | FText _ sibs => elements sibs
  | FElem id tag a kids sibs =>
      mkElement id tag a kids :: elements kids ++ elements sibs
  end.

Definition ids (f : forest) : list nat := map el_id (elements f).

(** The node a reference designates *)
Definition lookup_element (id : nat) (f : forest) : option element :=
  find (fun e => Nat.eqb (el_id e) id) (elements f).

Definition attr_get (a : attrs) (name : jsstring) : option jsstring :=
  snd <$> find (fun kv => str_eqb (fst kv) name) a.

Fixpoint attr_set (a : attrs) (name value : jsstring) : attrs :=
  match a with
  | [] => [(name, value)]
  | (k, v) :: t =>
      if str_eqb k name then (k, value) :: t else (k, v) :: attr_set t name value
  end.

Definition attr_remove (a : attrs) (name : jsstring) : attrs :=
  List.filter (fun kv => negb (str_eqb (fst kv) name)) a.

(** [node.getAttribute(name)] *)
Definition getAttribute (id : nat) (name : jsstring) (f : forest) : option jsstring :=
  match lookup_element id f with
  | Some e => attr_get (el_attrs e) name
  | None => None
  end.

(** Apply [g] to the attributes of the node [id]. *)
Fixpoint update_attrs (id : nat) (g : attrs -> attrs) (f : forest) : forest :=
  match f with
  | FNil => FNil
  | FText t sibs => FText t (update_attrs id g sibs)
  | FElem i tag a kids sibs =>
      FElem i tag (if Nat.eqb i id then g a else a)
            (update_attrs id g kids) (update_attrs id g sibs)
  end.

Definition setAttribute (id : nat) (name value : jsstring) (f : forest) : forest :=
  update_attrs id (fun a => attr_set a name value) f.

Definition removeAttribute (id : nat) (name : jsstring) (f : forest) : forest :=
  update_attrs id (fun a => attr_remove a name) f.

(** [node.parentNode.removeChild(node)]: the node leaves the document
    with its subtree. *)
Fixpoint removeNode (id : nat) (f : forest) : forest :=
  match f with
  | FNil => FNil
  | FText t sibs => FText t (removeNode id sibs)
  | FElem i tag a kids sibs =>
      if Nat.eqb i id then removeNode id sibs
      else FElem i tag a (removeNode id kids) (removeNode id sibs)
  end.

(** Put the element [e] in the place of the node [old]. *)
Fixpoint replace_element (old : nat) (e : element) (f : forest) : forest :=
  match f with
  | FNil => FNil
  | FText t sibs => FText t (replace_element old e sibs)
  | FElem i tag a kids sibs =>
      if Nat.eqb i old
      then FElem (el_id e) (el_tag e) (el_attrs e) (el_kids e)
                 (replace_element old e sibs)
      else FElem i tag a (replace_element old e kids) (replace_element old e sibs)
  end.

(** [parent.replaceChild(new, old)] for a node [new] of the document:
    it is taken from where it is and put in the place of [old]. *)
Definition replaceChild (new old : nat) (f : forest) : forest :=
  match lookup_element new f with
  | Some e => replace_element old e (removeNode new f)
  | None => f
  end.

(** The parent of a node: the [body], or an element. *)
Inductive parent :=
| PBody
| PElement (id : nat).

Fixpoint is_child (id : nat) (f : forest) : bool :=
  match f with
  | FNil => false
  | FText _ sibs => is_child id sibs
  | FElem i _ _ _ sibs => Nat.eqb i id || is_child id sibs
  end.

Fixpoint parent_in (id : nat) (f : forest) : option nat :=
  match f with
  | FNil => None
  | FText _ sibs => parent_in id sibs
  | FElem i _ _ kids sibs =>
      if is_child id kids then Some i
      else match parent_in id kids with
           | Some p => Some p
           | None => parent_in id sibs
           end
  end.

(** [node.parentNode]; [None] for a node that is not in the
    document. *)
Definition parentNode (id : nat) (f : forest) : option parent :=
  if is_child id f then Some PBody
  else PElement <$> parent_in id f.

(** [getElementsByTagName(tag)]: the collection is live, so it is read
    from the document every time it is used. *)
Definition getElementsByTagName (tag : jsstring) (f : forest) : list nat :=
  map el_id (List.filter (fun e => str_eqb (el_tag e) tag) (elements f)).

Definition is_html_space (c : code_unit) : bool :=
  existsb (Z.eqb c) [9; 10; 12; 13; 32].

Fixpoint class_tokens (cur : jsstring) (s : jsstring) : list jsstring :=
  match s with
  | [] => match cur with [] => [] | _ => [rev cur] end
  | c :: t =>
      if is_html_space c
      then match cur with
           | [] => class_tokens [] t
           | _ => rev cur :: class_tokens [] t
           end
      else class_tokens (c :: cur) t
  end.

Definition has_class (cls : jsstring) (e : element) : bool :=
  match attr_get (el_attrs e) (js "class") with
  | Some v => existsb (str_eqb cls) (class_tokens [] v)
  | None => false
  end.

(** [getElementsByClassName(cls)], live as well *)
Definition getElementsByClassName (cls : jsstring) (f : forest) : list nat :=
  map el_id (List.filter (has_class cls) (elements f)).

(** [getElementById(id)] *)
Definition getElementById (idv : jsstring) (f : forest) : option nat :=
  el_id <$> find (fun e => match attr_get (el_attrs e) (js "id") with
                           | Some v => str_eqb v idv
                           | None => false
                           end) (elements f).

(** [node.getElementsByTagName(tag).length] *)
Definition descendants_by_tag (id : nat) (tag : jsstring) (f : forest) : nat :=
  match lookup_element id f with
  | Some e => length (getElementsByTagName tag (el_kids e))
  | None => O
  end.

(** ** Serialisation: [body.innerHTML] *)

Fixpoint escape_text (in_attr : bool) (s : jsstring) : jsstring :=
  match s with
  | [] => []
  | c :: t =>
      (if c =? 38 then js "&amp;"
       else if c =? 160 then js "&nbsp;"
       else if in_attr && (c =? 34) then js "&quot;"
       else if negb in_attr && (c =? 60) then js "&lt;"
       else if negb in_attr && (c =? 62) then js "&gt;"
       else [c]) ++ escape_text in_attr t
  end.

Definition void_elements : list jsstring :=
  map js ["area"; "base"; "br"; "col"; "embed"; "hr"; "img"; "input"; "link";
          "meta"; "param"; "source"; "track"; "wbr"]%string.

Definition serialize_attrs (a : attrs) : jsstring :=
  concat (map (fun kv => js " " ++ fst kv ++ js "=" ++ [34]
                         ++ escape_text true (snd kv) ++ [34]) a).

Fixpoint innerHTML (f : forest) : jsstring :=
  match f with
  | FNil => []
  | FText t sibs => escape_text false t ++ innerHTML sibs
  | FElem _ tag a kids sibs =>
      js "<" ++ tag ++ serialize_attrs a ++ js ">"
      ++ (if existsb (str_eqb tag) void_elements then []
          else innerHTML kids ++ js "</" ++ tag ++ js ">")
      ++ innerHTML sibs
  end.

End Dom.

(* ================================================================== *)
(** * mwoffliner.js: the rewriting of a section *)
(* ================================================================== *)

Module Rewriter.
Import Dom.

(** Result of a pass: [OutOfFuel] means that a loop over a live
    collection was cut before its exit condition held. *)
Inductive run (A : Type) :=
| Done (a : A)
| Raised (e : jsexn)
| OutOfFuel.
Arguments Done {A} a.
Arguments Raised {A} e.
Arguments OutOfFuel {A}.

Definition run_bind {A B} (m : run A) (k : A -> run B) : run B :=
  match m with
  | Done a => k a
  | Raised e => Raised e
  | OutOfFuel => OutOfFuel
  end.

Definition lift {A} (o : outcome A) : run A :=
  match o with
  | Ret a => Done a
  | Throw e => Raised e
  end.

(** The document under rewriting, the URLs already queued for this
    section ([imgSrcCache]) and the pushes on [downloadFileQueue]. *)
Record state := mkState {
  dom : forest;
  imgSrcCache : gset jsstring;
  downloadFileQueue : list jsstring
}.

Definition with_dom (st : state) (f : forest) : state :=
  {| dom := f; imgSrcCache := st.(imgSrcCache);
     downloadFileQueue := st.(downloadFileQueue) |}.

(** [util.deleteNode(node)] *)
Definition deleteNode (id : nat) (f : forest) : forest := removeNode id f.

(** [for (let i = 0; i < nodes.length; i++) body(nodes[i])] over a live
    collection [select]. *)
Fixpoint live_loop {St : Type} (fuel : nat) (select : St -> list nat)
  (body : nat -> St -> outcome St) (i : nat) (st : St) : run St :=
  match fuel with
  | O => OutOfFuel
  | S fuel' =>
      match select st !! i with
      | None => Done st
      | Some node =>
          match body node st with
          | Ret st' => live_loop fuel' select body (S i) st'
          | Throw e => Raised e
          end
      end
  end.

(** Enough rounds for a collection that does not grow. *)
Definition loop_fuel (f : forest) : nat := S (length (elements f)).

Section Section_.
Variable lib : NodeLib.
Variable cfg : Config.

(** [getFullUrl(url)], without a base URL *)
Definition getFullUrl (url : jsstring) : outcome jsstring :=
  bind (lib.(url_parse) url false true) (fun u =>
    match u.(protocol) with
    | Some (_ :: _) => Ret url
    | _ =>
        Ret (lib.(url_format)
               {| protocol := Some (js "http:");
                  slashes := u.(slashes);
                  auth := u.(auth);
                  host := Some (Str.or_else u.(host) cfg.(webUrlHost));
                  hash := u.(hash);
                  search := u.(search);
                  query := u.(query);
                  pathname := u.(pathname) |})
    end).

(** The test that selects the images to keep. *)
Definition is_math_image (id : nat) (f : forest) : bool :=
  contains (js "mwe-math-fallback-image-inline")
           (Str.or_else (getAttribute id (js "class") f) [])
  || match getAttribute id (js "typeof") f with
     | Some t => str_eqb t (js "mw:Extension/math")
     | None => false
     end.

Definition has_usable_src (id : nat) (f : forest) : bool :=
  match getAttribute id (js "src") f with
  | Some (c :: s) => negb (starts_with (js "./Special:FilePath/") (c :: s))
  | _ => false
  end.

(** The part "Remove image link" of the loop body. *)
Definition remove_image_link (img : nat) (f : forest) : outcome forest :=
  match parentNode img f with
  | Some (PElement linkNode) =>
      if match lookup_element linkNode f with
         | Some e => str_eqb (el_tag e) (js "a")
         | None => false
         end
      then
        let href := Str.or_else (getAttribute linkNode (js "href") f) [] in
        bind (extractTargetIdFromHref lib cfg href) (fun targetId =>
          let keepLink :=
            match targetId with
            | TString (c :: t) => isMirrored cfg (c :: t)
            | _ => false
            end in
          if negb keepLink then
            match parentNode linkNode f with
            | Some _ => Ret (replaceChild img linkNode f)
            | None => Ret (deleteNode img f)
            end
          else Ret f)
      else Ret f
  | _ => Ret f
  end.

(** The body of the loop of [treatMediaElementsForSection] for the
    image [img]. *)
Definition treat_image (img : nat) (st : state) : outcome state :=
  if (negb cfg.(nopic) || is_math_image img st.(dom))
     && has_usable_src img st.(dom)
  then
    let src0 := Str.or_else (getAttribute img (js "src") st.(dom)) [] in
    bind (remove_image_link img st.(dom)) (fun f =>
    bind (getFullUrl src0) (fun src =>
    bind (Media.getMediaUrl lib src) (fun newSrc =>
      match newSrc with
      | Some (c :: n) =>
          let queued := bool_decide (src ∈ st.(imgSrcCache)) in
          Ret {| dom := removeAttribute img (js "srcset")
                          (removeAttribute img (js "resource")
                             (setAttribute img (js "src") (c :: n) f));
                 imgSrcCache := {[ src ]} ∪ st.(imgSrcCache);
                 downloadFileQueue :=
                   if queued then st.(downloadFileQueue)
                   else st.(downloadFileQueue) ++ [src] |}
      | _ => Ret (with_dom st (deleteNode img f))
      end)))
  else Ret (with_dom st (deleteNode img st.(dom))).

(** [treatMediaElementsForSection(dom)] *)
Definition treatMediaElementsForSection (f : forest) : run state :=
  live_loop (loop_fuel f)
    (fun st => getElementsByTagName (js "img") st.(dom))
    treat_image 0
    {| dom := f; imgSrcCache := ∅; downloadFileQueue := [] |}.

(** [rewriteUrl(linkNode)] *)
Definition rewriteUrl_node (linkNode : nat) (f : forest) : outcome forest :=
  bind (Geo.rewriteUrl lib (getAttribute linkNode (js "href") f)) (fun href =>
    match href with
    | Some h => Ret (setAttribute linkNode (js "href") h f)
    | None => Ret f
    end).

(** [rewriteUrls(dom)]: the links are copied into an array first. *)
Definition rewriteUrls (f : forest) : outcome forest :=
  let linkNodes := getElementsByTagName (js "a") f ++ getElementsByTagName (js "area") f in
  fold_left (fun acc linkNode => bind acc (rewriteUrl_node linkNode))
            linkNodes (Ret f).

Definition idBlackList : list jsstring := [js "purgelink"].

Definition cssClassBlackList : list jsstring :=
  map js ["noprint"; "metadata"; "ambox"; "stub"; "topicon"; "magnify"; "navbar";
          "mwe-math-mathml-inline"]%string.

Definition cssClassBlackListIfNoLink : list jsstring :=
  map js ["mainarticle"; "seealso"; "dablink"; "rellink"; "hatnote"]%string.

Definition cssClassDisplayList : list jsstring := [js "thumb"].

(** A loop over a live collection whose body cannot throw. *)
Definition dom_loop (select : forest -> list nat) (body : nat -> forest -> forest)
  (f : forest) : run forest :=
  live_loop (loop_fuel f) select (fun n g => Ret (body n g)) 0 f.

(** [list.map(step)] with the document threaded through *)
Definition for_each {A} (xs : list A) (step : A -> forest -> run forest) (f : forest)
  : run forest :=
  fold_left (fun acc x => run_bind acc (step x)) xs (Done f).

(** [nodes[i].style.removeProperty('display')] *)
Definition show_node (id : nat) (f : forest) : forest :=
  match getAttribute id (js "style") f with
  | Some cssText =>
      match lib.(css_removeProperty) cssText (js "display") with
      | Some cssText' => setAttribute id (js "style") cssText' f
      | None => f
      end
  | None => f
  end.

(** [applyOtherTreatments(dom)] *)
Definition applyOtherTreatments (f : forest) : run forest :=
  run_bind (if cfg.(nopic)
            then dom_loop (getElementsByTagName (js "map")) deleteNode f
            else Done f) (fun f =>
  run_bind (for_each idBlackList (fun idv f =>
              match getElementById idv f with
              | Some node => Done (deleteNode node f)
              | None => Done f
              end) f) (fun f =>
  run_bind (for_each cssClassBlackList (fun classname =>
              dom_loop (getElementsByClassName classname) deleteNode) f) (fun f =>
  run_bind (for_each cssClassBlackListIfNoLink (fun classname =>
              dom_loop (getElementsByClassName classname)
                (fun node g =>
                   if Nat.eqb (descendants_by_tag node (js "a") g) 0
                   then deleteNode node g else g)) f) (fun f =>
  for_each cssClassDisplayList (fun classname =>
    dom_loop (getElementsByClassName classname) show_node) f)))).

(** [transformSection(dom)]: the document after the three passes, with
    the URLs pushed on the download queue. *)
Definition transformSection_dom (f : forest) : run (forest * list jsstring) :=
  run_bind (treatMediaElementsForSection f) (fun st =>
  run_bind (lift (rewriteUrls st.(dom))) (fun f =>
  run_bind (applyOtherTreatments f) (fun f =>
  Done (f, st.(downloadFileQueue))))).

(** The string [transformSection] returns: [dom.body.innerHTML]. *)
Definition transformSection (f : forest) : run jsstring :=
  run_bind (transformSection_dom f) (fun r => Done (innerHTML (fst r))).


End Section_.

End Rewriter.

(** An HTML text, written with apostrophes in the place of its double
    quotes. *)
Definition html (s : string) : jsstring :=
  map (fun c => if c =? 39 then 34 else c) (js s).

(** Example documents *)
Definition div (id : nat) (cls : string) (kids sibs : Dom.forest) : Dom.forest :=
  Dom.FElem id (js "div") [(js "class", js cls)] kids sibs.

(** [<div class="noprint">A</div><div class="noprint">B</div><p>text</p>] *)
Definition example_two_noprint : Dom.forest :=
  div 1 "noprint" (Dom.FText (js "A") Dom.FNil)
    (div 2 "noprint" (Dom.FText (js "B") Dom.FNil)
       (Dom.FElem 3 (js "p") [] (Dom.FText (js "text") Dom.FNil) Dom.FNil)).

(** [<map name="a"></map><map name="b"></map>] *)
Definition example_two_maps : Dom.forest :=
  Dom.FElem 1 (js "map") [(js "name", js "a")] Dom.FNil
    (Dom.FElem 2 (js "map") [(js "name", js "b")] Dom.FNil Dom.FNil).


(** A formula image inside a link to a page that is not mirrored, then
    two photographs. *)
Definition example_images : Dom.forest :=
  Dom.FElem 1 (js "a") [(js "href", js "./File:Formula.svg")]
    (Dom.FElem 2 (js "img")
       [(js "class", js "mwe-math-fallback-image-inline");
        (js "src", js "//upload.wikimedia.org/math/a/b/abcdef.png");
        (js "srcset", js "x 2x")]
       Dom.FNil Dom.FNil)
    (Dom.FElem 3 (js "img")
       [(js "src", js "//upload.wikimedia.org/wikipedia/commons/thumb/a/ab/Seine.jpg/120px-Seine.jpg")]
       Dom.FNil
       (Dom.FElem 4 (js "img")
          [(js "src", js "//upload.wikimedia.org/wikipedia/commons/thumb/c/cd/Louvre.jpg/120px-Louvre.jpg")]
          Dom.FNil Dom.FNil)).


(* ================================================================== *)
(** * Notions used in the statements and in the proofs *)
(* ================================================================== *)

Module Notions.
Import Util Num Geo Fetch Dom.

(** Code-unit offset, inside [s], of code point number [r]: every
    surrogate pair met on the way counts for two units. *)
Fixpoint unit_offset (s : jsstring) (r : Z) : Z :=
  match s with
  | [] => r
  | h :: t =>
      if r <=? 0 then r
      else match t with
           | [] => 1 + unit_offset t (r - 1)
           | l :: t' =>
               if is_high h && is_low l then 2 + unit_offset t' (r - 1)
               else 1 + unit_offset t (r - 1)
           end
  end.

(** What [charAt] returns once the loop has settled on index [i]. *)
Definition pick (s : jsstring) (i : Z) : jsstring :=
  if (Z.of_nat (length s) <=? i) || (i <? 0) then []
  else
    let ret := str_charAt s i in
    if existsb is_high ret && existsb is_low (str_charAt s (i + 1))
    then ret ++ str_charAt s (i + 1)
    else ret.


(** Whether [hemiHash[v]] is truthy. *)
Definition hemi_hit (h : hash) (v : jsstring) : bool :=
  match hash_get h v with
  | Some s => num_truthy s
  | None => false
  end.

(** The string starts with a low surrogate. *)
Definition starts_low (s : jsstring) : bool :=
  match s with
  | c :: _ => is_low c
  | [] => false
  end.

(** Code units below 128 take one byte each. *)
Definition is_ascii (c : code_unit) : bool := (0 <=? c) && (c <? 128).

(** A piece of trace with no request and no callback in it. *)
Definition quiet (l : list trace_event) : Prop :=
  List.filter is_request l = [] /\ List.filter is_callback l = [].

(** The part of the state of an attempt that decides how it ends. *)
Definition core (st : attempt_state) :=
  (calledFinished st, request_defined st, listening st, chunks st, finished_args st).




End Notions.
(* ================================================================== *)
(** * mwoffliner.js: article file names *)
(* ================================================================== *)

Module Article.

(** The [while] loop of [getArticleBase]: the last code unit of the
    name is dropped as long as the name takes more than 250 bytes.  A
    round shortens the name and the empty name has no bytes, so
    [length filename] rounds are enough. *)
Fixpoint cut_loop (fuel : nat) (filename : jsstring) : jsstring :=
  match fuel with
  | O => filename
  | S fuel' =>
      if (250 <? URI.byteLength filename)%nat
      then cut_loop fuel' (take (length filename - 1) filename)
      else filename
  end.

(** [getArticleBase(articleId, escape)] *)
Definition getArticleBase (articleId : jsstring) (escape : bool) : outcome jsstring :=
  let filename := Str.replace_all 47 [95] articleId in
  let filename := cut_loop (length filename) filename in
  bind (if escape then URI.encodeURIComponent filename else Ret filename)
       (fun e => Ret (e ++ js ".html")).

(** [getArticleUrl(articleId)] *)
Definition getArticleUrl (articleId : jsstring) : outcome jsstring :=
  getArticleBase articleId true.

(** [getArticlePath(articleId, escape)] *)
Definition getArticlePath (cfg : Config) (articleId : jsstring) (escape : bool)
  : outcome jsstring :=
  bind (getArticleBase articleId escape) (fun b => Ret (cfg.(htmlRootPath) ++ b)).

End Article.

(** A title of 247 letters followed by one character outside the Basic
    Multilingual Plane (U+1F600): 251 bytes. *)
Definition example_astral_title : jsstring := repeat 97 247 ++ [55357; 56832].

(* ================================================================== *)
(** * Notions used in the statements about names and URLs *)
(* ================================================================== *)

Module Shape.

(** The code units of a string are 16-bit values. *)
Definition code_units (s : jsstring) : Prop := Forall (fun c => 0 <= c < 65536) s.

(** No code unit of the string is a surrogate. *)
Definition no_surrogate (s : jsstring) : Prop :=
  Forall (fun c => is_high c = false /\ is_low c = false) s.

(** What an escaped name is made of: the characters
    [encodeURIComponent] leaves alone, and its escapes. *)
Definition is_hex_upper (c : code_unit) : bool :=
  is_digit c || ((65 <=? c) && (c <=? 70)).

Definition url_safe (c : code_unit) : bool := URI.uri_unreserved c || (c =? 37).

(** The token read from the escape of the byte [b]. *)
Definition oct (b : Z) : URI.token :=
  URI.Oct b (URI.hex_digit (Z.shiftr b 4)) (URI.hex_digit (Z.land b 15)).

End Shape.

(* ================================================================== *)
(** * The ways a media request ends *)
(* ================================================================== *)

Module MediaEndings.
Import Media MediaCache.

Section Endings.
Variable lib : NodeLib.
Variable cfg : Config.
Variable fetch : jsstring -> Fetch.bytes.

(** A request for [url], of base name [base] and width [width], that
    takes the world from [w] to [w']: the width was covered by the store;
    or the file was taken from the cache; or it was downloaded. *)
Inductive ending (url base : jsstring) (width : Z) (w w' : world) : Prop :=
| Covered r :
    mediaIds w !! base = Some r -> width <= r ->
    w' = emit w [ECallback] ->
    ending url base width w w'
| FromCache mediaPath cachePath hw :
    (forall r, mediaIds w !! base = Some r -> r < width) ->
    getMediaPath lib cfg url = Ret (Some mediaPath) ->
    cache_path lib cfg url base = Ret cachePath ->
    cacheHeader w !! cachePath = Some (HWidth hw) ->
    cacheBody w !! cachePath <> None ->
    (forall c, hw = Some c -> width <= c) ->
    mediaIds w' = <[base := width]> (mediaIds w) ->
    cacheBody w' = cacheBody w -> cacheHeader w' = cacheHeader w ->
    http_gets (effects w') = http_gets (effects w) ->
    cache_writes (effects w') = cache_writes (effects w) ->
    links w' !! mediaPath <> None ->
    ending url base width w w'
| Downloaded mediaPath cachePath :
    (forall r, mediaIds w !! base = Some r -> r < width) ->
    getMediaPath lib cfg url = Ret (Some mediaPath) ->
    cache_path lib cfg url base = Ret cachePath ->
    mediaIds w' = <[base := width]> (mediaIds w) ->
    cacheBody w' = <[cachePath := fetch url]> (cacheBody w) ->
    cacheHeader w' = <[cachePath := HWidth (Some width)]> (cacheHeader w) ->
    http_gets (effects w') = http_gets (effects w) ++ [url] ->
    cache_writes (effects w') = cache_writes (effects w) ++ [cachePath] ->
    links w' !! mediaPath <> None ->
    ending url base width w w'.

End Endings.

End MediaEndings.

(** A later run on the cache a run has left: the store is flushed and
    the HTML directory is new. *)
Definition next_run (w : MediaCache.world) : MediaCache.world :=
  {| MediaCache.mediaIds := ∅; MediaCache.mediaToCheck := ∅;
     MediaCache.cacheBody := MediaCache.cacheBody w;
     MediaCache.cacheHeader := MediaCache.cacheHeader w;
     MediaCache.links := ∅; MediaCache.effects := [] |}.

(** A world in which the store knows the picture of the examples at the
    width [r]. *)
Definition next_store (r : Z) : MediaCache.world :=
  {| MediaCache.mediaIds := {[ js "Tour_Eiffel.jpg" := r ]};
     MediaCache.mediaToCheck := ∅;
     MediaCache.cacheBody := ∅; MediaCache.cacheHeader := ∅;
     MediaCache.links := ∅; MediaCache.effects := [] |}.

(** The thumbnail of a picture whose name holds an accented letter. *)
Definition example_url_cafe : jsstring :=
  js "https://upload.wikimedia.org/wikipedia/commons/thumb/a/ab/Caf%C3%A9_de_Flore.jpg/220px-Caf%C3%A9_de_Flore.jpg".

(* ================================================================== *)
(** * Notions about documents *)
(* ================================================================== *)

Module DomShape.
Import Dom.

(** The document without its [href] attributes. *)
Fixpoint strip_href (f : forest) : forest :=
  match f with
  | FNil => FNil
  | FText t sibs => FText t (strip_href sibs)
  | FElem i tag a kids sibs =>
      FElem i tag (attr_remove a (js "href")) (strip_href kids) (strip_href sibs)
  end.

End DomShape.

(** A paragraph with a link to a map service and a link to an article,
    before and after [rewriteUrls]. *)
Definition example_geo_link : Dom.forest :=
  Dom.FElem 1 (js "p") []
    (Dom.FElem 2 (js "a")
       [(js "href", js "http://tools.wmflabs.org/geohack/geohack.php?params=48.85825_N_2.2945_E_type:landmark");
        (js "class", js "external")]
       (Dom.FText (js "map") Dom.FNil)
       (Dom.FElem 3 (js "a") [(js "href", js "./Paris")]
          (Dom.FText (js "Paris") Dom.FNil) Dom.FNil))
    Dom.FNil.

Definition example_geo_link_rewritten : Dom.forest :=
  Dom.FElem 1 (js "p") []
    (Dom.FElem 2 (js "a")
       [(js "href", js "geo:48.85825,2.2945"); (js "class", js "external")]
       (Dom.FText (js "map") Dom.FNil)
       (Dom.FElem 3 (js "a") [(js "href", js "./Paris")]
          (Dom.FText (js "Paris") Dom.FNil) Dom.FNil))
    Dom.FNil.

(* ================================================================== *)
(** * mwoffliner.js: [downloadContentAndCache] *)
(* ================================================================== *)

Module ContentCache.
Import Fetch.

(** A header file of the cache as [JSON.parse] reads it: headers go
    through [JSON.stringify] and [JSON.parse] unchanged. *)
Inductive header_json :=
| JUnparsable
| JHeaders (h : headers).

(** What a call does to the outside. *)
Inductive action :=
| EDownload (url : jsstring)
| EWrite (path : jsstring)
| ETouch (path : jsstring)
| ECallback (content : data) (responseHeaders : headers).

(** The files of the cache directory: the bodies as they were written,
    and the header files.  A body path is the directory followed by twenty
    hexadecimal digits and a header path ends with [.h], so the two kinds
    of path never meet.  Writes are taken to succeed. *)
Record disk := mkDisk {
  bodies : gmap jsstring data;
  heads : gmap jsstring header_json;
  effects : list action
}.

(** [data.toString()] on what is read from a body file: the text of the
    bytes that were written, whether they came from a buffer or from a
    string. *)
Definition toString (d : data) : data :=
  match d with
  | DBuffer b => DString b
  | _ => d
  end.

(** The arguments [downloadContent] hands to its callback, read from
    the trace of the invocation: [None] when the callback is not
    invoked. *)
Definition callback_args (tr : list trace_event) : option (data * headers) :=
  match last tr with
  | Some (TCallback d h) => Some (d, h)
  | _ => None
  end.

Section Cache.
Variable gunzip : bytes -> option bytes.
Variable inflate : bytes -> option bytes.
Variable cfg : Config.
(** What the network answers to the successive attempts for a URL *)
Variable net : jsstring -> list (list net_event).

Definition cachePath (url : jsstring) : jsstring :=
  cfg.(cacheDirectory) ++ take 20 (Crypto.sha1_hex url).

Definition cacheHeadersPath (url : jsstring) : jsstring := cachePath url ++ js ".h".

(** [downloadContentAndCache(url, callback)].  The two reads run in
    series: a body file that cannot be read, then a header file that
    cannot be read or parsed, send the call to the network.  [touch] has
    one parameter, so that [touch(cachePath, cacheHeadersPath)] touches
    the body file only. *)
Definition downloadContentAndCache (url : jsstring) (w : disk) : outcome disk :=
  let results :=
    match w.(bodies) !! cachePath url with
    | None => None
    | Some d =>
        match w.(heads) !! cacheHeadersPath url with
        | Some (JHeaders h) => Some (toString d, h)
        | _ => None
        end
    end in
  match results with
  | Some (content, responseHeaders) =>
      Ret {| bodies := w.(bodies); heads := w.(heads);
             effects := w.(effects)
                        ++ [ETouch (cachePath url); ECallback content responseHeaders] |}
  | None =>
      bind (downloadContent gunzip inflate cfg url (net url)) (fun tr =>
        match callback_args tr with
        | Some (content, responseHeaders) =>
            Ret {| bodies := <[cachePath url := content]> w.(bodies);
                   heads := <[cacheHeadersPath url := JHeaders responseHeaders]> w.(heads);
                   effects := w.(effects)
                              ++ [EDownload url; EWrite (cacheHeadersPath url);
                                  EWrite (cachePath url);
                                  ECallback content responseHeaders] |}
        | None =>
            Ret {| bodies := w.(bodies); heads := w.(heads);
                   effects := w.(effects) ++ [EDownload url] |}
        end)
  end.

End Cache.

Definition empty_disk : disk := {| bodies := ∅; heads := ∅; effects := [] |}.

End ContentCache.

(** A network on which every attempt is answered with the status 503,
    and one that answers with a page. *)
Definition example_net_down (url : jsstring) : list (list Fetch.net_event) :=
  example_script_errors.

Definition example_net_up (url : jsstring) : list (list Fetch.net_event) :=
  [[Fetch.EvResponse 200 [(js "content-type", js "application/json")];
    Fetch.EvData [123; 125]; Fetch.EvEnd]].

(* ================================================================== *)
(** * mwoffliner.js: the names of a dump, and [checkResume] *)
(* ================================================================== *)

(** More functions of Node.js and of the language the sources call. *)
Record SysLib := {
  (** [path.basename(p, ext)] *)
  path_basename : jsstring -> jsstring -> jsstring;
  (** [path.resolve(process.cwd(), p)] *)
  path_resolve_cwd : jsstring -> jsstring;
  (** [String.prototype.toLowerCase], with the case mappings of
      Unicode *)
  string_toLowerCase : jsstring -> jsstring
}.

Module Naming.

(** The module-level variables the naming functions read. *)
Record Names := mkNames {
  filenamePrefix : jsstring;
  creator : jsstring;
  (** [urlParser.parse(webUrl).hostname.split('.')] *)
  hostParts : list jsstring;
  langIso2 : jsstring;
  langIso3 : jsstring;
  (** [articleList]: the path of the list of titles, when given *)
  articleList_path : option jsstring;
  nopic_ : bool;
  nozim_ : bool;
  contentDate : jsstring;
  outputDirectory : jsstring;
  tmpDirectory : jsstring;
  publisher : jsstring;
  cacheDirectory_ : jsstring
}.

(** The assignments to [nopic] and [nozim] *)
Definition with_format (v : Names) (nopic nozim : bool) : Names :=
  {| filenamePrefix := v.(filenamePrefix); creator := v.(creator);
     hostParts := v.(hostParts); langIso2 := v.(langIso2); langIso3 := v.(langIso3);
     articleList_path := v.(articleList_path);
     nopic_ := nopic; nozim_ := nozim;
     contentDate := v.(contentDate); outputDirectory := v.(outputDirectory);
     tmpDirectory := v.(tmpDirectory); publisher := v.(publisher);
     cacheDirectory_ := v.(cacheDirectory_) |}.

Section Names.
Variable lib : NodeLib.
Variable sys : SysLib.

(** [computeFilenameRadical(withoutSelection, withoutPictureStatus,
    withoutDate)] *)
Definition computeFilenameRadical (v : Names)
  (withoutSelection withoutPictureStatus withoutDate : bool) : jsstring :=
  let radical :=
    if Str.truthy v.(filenamePrefix) then v.(filenamePrefix)
    else
      let langSuffix :=
        if existsb (fun part => str_eqb part v.(langIso3)) v.(hostParts)
        then v.(langIso3) else v.(langIso2) in
      sys.(string_toLowerCase) (take 1 v.(creator)) ++ drop 1 v.(creator)
      ++ js "_" ++ langSuffix in
  let radical :=
    if withoutSelection then radical
    else
      match v.(articleList_path) with
      | Some (c :: p) =>
          radical ++ js "_"
          ++ Str.replace_all 32 [95]
               (sys.(string_toLowerCase)
                  (sys.(path_basename) (c :: p) (lib.(path_extname) (c :: p))))
      | _ => radical ++ js "_all"
      end in
  let radical :=
    if withoutPictureStatus then radical
    else radical ++ (if v.(nopic_) then js "_nopic" else []) in
  if withoutDate then radical else radical ++ js "_" ++ v.(contentDate).

(** [dir[0] === '/' ? dir : pathParser.resolve(process.cwd(), other) + '/'] *)
Definition absolute_or (dir other : jsstring) : jsstring :=
  match dir with
  | 47 :: _ => dir
  | _ => sys.(path_resolve_cwd) other ++ js "/"
  end.

(** [computeHtmlRootPath()]: a relative output directory is resolved
    from [tmpDirectory] in both branches. *)
Definition computeHtmlRootPath (v : Names) : jsstring :=
  (if v.(nozim_) then absolute_or v.(outputDirectory) v.(tmpDirectory)
   else absolute_or v.(tmpDirectory) v.(tmpDirectory))
  ++ computeFilenameRadical v false false false ++ js "/".

(** [computeZimRootPath()] *)
Definition computeZimRootPath (v : Names) : jsstring :=
  absolute_or v.(outputDirectory) v.(outputDirectory)
  ++ computeFilenameRadical v false false false ++ js ".zim".

(** [computeZimName()] *)
Definition computeZimName (v : Names) : jsstring :=
  (if Str.truthy v.(publisher)
   then sys.(string_toLowerCase) v.(publisher) ++ js "." else [])
  ++ computeFilenameRadical v false true true.

(** [computeRedirectsCacheFilePath()] *)
Definition computeRedirectsCacheFilePath (v : Names) : jsstring :=
  v.(cacheDirectory_) ++ computeFilenameRadical v false true true ++ js ".redirects".

(** The variables [checkResume] leaves: the dumps still to make, the
    format flags and [htmlRootPath] as last assigned, and the argument of
    [finished]. *)
Record resumed := mkResumed {
  dumps : list jsstring;
  names : Names;
  htmlRootPath_ : jsstring;
  finished_error : bool
}.

Section Resume.
Variable resume : bool.
(** [fs.existsSync] *)
Variable existsSync : jsstring -> bool.

(** The [for] loop of [checkResume].  After [dumps.splice(i, 1)] the
    statement [i--] and the increment of the loop leave [i] as it
    is. *)
Fixpoint checkResume_loop (fuel : nat) (i : nat) (dumps : list jsstring)
  (v : Names) (htmlRootPath : jsstring) : option resumed :=
  match fuel with
  | O => None
  | S fuel' =>
      match dumps !! i with
      | None =>
          Some {| dumps := dumps; names := v; htmlRootPath_ := htmlRootPath;
                  finished_error := (length dumps <=? 0)%nat |}
      | Some dump =>
          let v := with_format v (contains (js "nopic") dump) (contains (js "nozim") dump) in
          let htmlRootPath := computeHtmlRootPath v in
          if resume && negb v.(nozim_) && existsSync (computeZimRootPath v)
          then checkResume_loop fuel' i (delete i dumps) v htmlRootPath
          else checkResume_loop fuel' (S i) dumps v htmlRootPath
      end
  end.

(** [checkResume(finished)]: every dump is looked at once. *)
Definition checkResume (dumps : list jsstring) (v : Names) (htmlRootPath : jsstring)
  : option resumed :=
  checkResume_loop (S (length dumps)) 0 dumps v htmlRootPath.

(** The ZIM file of a dump is there already and may be kept. *)
Definition already_built (v : Names) (dump : jsstring) : bool :=
  let v := with_format v (contains (js "nopic") dump) (contains (js "nozim") dump) in
  resume && negb v.(nozim_) && existsSync (computeZimRootPath v).

End Resume.

End Names.

End Naming.

(** The path functions of Node.js for paths without [.] and [..]
    components, from a working directory [/srv], and the case mapping on
    the ASCII letters. *)
Definition example_sys : SysLib :=
  {| path_basename := fun p ext =>
       let b := Node.last_component p in
       if (Str.truthy ext && (length ext <? length b)%nat
           && str_eqb (drop (length b - length ext) b) ext)%bool
       then take (length b - length ext) b else b;
     path_resolve_cwd := fun p =>
       match p with
       | 47 :: _ => rev (Node.drop_trailing_slashes_rev (rev p))
       | [] => js "/srv"
       | _ => js "/srv/" ++ rev (Node.drop_trailing_slashes_rev (rev p))
       end;
     string_toLowerCase := Str.toLowerCase |}.

(** The English Wikipedia, dumped from a list of titles. *)
Definition example_names : Naming.Names :=
  {| Naming.filenamePrefix := [];
     Naming.creator := js "Wikipedia";
     Naming.hostParts := [js "en"; js "wikipedia"; js "org"];
     Naming.langIso2 := js "en";
     Naming.langIso3 := js "eng";
     Naming.articleList_path := Some (js "lists/Top 100.txt");
     Naming.nopic_ := false;
     Naming.nozim_ := false;
     Naming.contentDate := js "2016-05";
     Naming.outputDirectory := js "out/";
     Naming.tmpDirectory := js "tmp/";
     Naming.publisher := js "Kiwix";
     Naming.cacheDirectory_ := js "cac/" |}.

(** The ZIM file of the dump without pictures is there. *)
Definition example_existsSync (p : jsstring) : bool :=
  str_eqb p (js "/srv/out/wikipedia_en_top_100_nopic_2016-05.zim").

(* ================================================================== *)
(** * mwoffliner.js: redirects *)
(* ================================================================== *)

Module Redirects.

(** [s.indexOf(p)]: [None] stands for [-1]. *)
Fixpoint indexOf (p s : jsstring) : option nat :=
  if starts_with p s then Some O
  else match s with
       | [] => None
       | _ :: t => S <$> indexOf p t
       end.

(** ECMA-262 [GetSubstitution] for a search by string, where there are
    no captures: [$$] is a dollar sign, [$&] the matched text, [$`] the
    text before it and [$'] the text after it; any other dollar sign
    stands for itself. *)
Fixpoint GetSubstitution (matched before after replacement : jsstring) : jsstring :=
  match replacement with
  | [] => []
  | c :: rest =>
      if c =? 36 then
        match rest with
        | d :: t =>
            if d =? 36 then 36 :: GetSubstitution matched before after t
            else if d =? 38 then matched ++ GetSubstitution matched before after t
            else if d =? 96 then before ++ GetSubstitution matched before after t
            else if d =? 39 then after ++ GetSubstitution matched before after t
            else 36 :: GetSubstitution matched before after rest
        | [] => [36]
        end
      else c :: GetSubstitution matched before after rest
  end.

(** [s.replace(searchString, replaceValue)] with two strings: the first
    occurrence is replaced. *)
Definition replace (s searchString replaceValue : jsstring) : jsstring :=
  match indexOf searchString s with
  | None => s
  | Some pos =>
      let before := take pos s in
      let after := drop (pos + length searchString) s in
      before ++ GetSubstitution searchString before after replaceValue ++ after
  end.

Definition redirectTemplateCode : jsstring :=
  html ("<html><head><meta charset='UTF-8' /><title>{{ title }}</title>"
        ++ "<meta http-equiv='refresh' content='0; URL={{ target }}'></head>"
        ++ "<body></body></html>").

(** [redirectTemplateCode.replace("{{ title }}", title)
      .replace("{{ target }}", target)] *)
Definition redirect_page (title target : jsstring) : jsstring :=
  replace (replace redirectTemplateCode (js "{{ title }}") title) (js "{{ target }}") target.

(** The [data] [saveHtmlRedirect] writes for a redirect *)
Definition saveHtmlRedirect_data (redirectId target : jsstring) : outcome jsstring :=
  bind (Article.getArticleUrl target) (fun url =>
    Ret (redirect_page (Str.replace_all 95 [32] redirectId) url)).

(** The [html] [createMainPageRedirect] writes *)
Definition createMainPageRedirect_html (mainPageId : jsstring) : outcome jsstring :=
  bind (Article.getArticleBase mainPageId true) (fun url =>
    Ret (redirect_page (Str.replace_all 95 [32] mainPageId) url)).

(** The line [cacheRedirect] appends to the file of redirects *)
Definition cacheRedirect_line (redirectId target : jsstring) : outcome jsstring :=
  bind (Article.getArticleBase redirectId false) (fun from =>
  bind (Article.getArticleBase target false) (fun to =>
    Ret (js "A" ++ [9] ++ from ++ [9] ++ Str.replace_all 95 [32] redirectId
         ++ [9] ++ to ++ [10]))).

End Redirects.

(* ================================================================== *)
(** * mwoffliner.js: the command that optimizes a media file *)
(* ================================================================== *)

Module Optimize.

(** The three replacements applied to [path] and to [tmpPath]: a
    backslash is put before every double quote, then before every
    dollar sign, then before every backquote. *)
Definition escape (s : jsstring) : jsstring :=
  Str.replace_all 96 [92; 96]
    (Str.replace_all 36 [92; 36] (Str.replace_all 34 [92; 34] s)).

Definition is_one_of (s : jsstring) (l : list jsstring) : bool :=
  existsb (str_eqb s) l.

Section Command.
Variable lib : NodeLib.

(** [getOptimizationCommand(path, forcedType)]; [random] is the value
    of [util.randomString(5)], [None] as [forcedType] stands for
    [undefined], and [None] as the result for the [undefined] returned
    when no branch applies. *)
Definition getOptimizationCommand (random path : jsstring) (forcedType : option jsstring)
  : option jsstring :=
  let ext := Media.filename_ext lib path in
  let basename := Media.filename_basename lib path in
  let tmpExt := js "." ++ random ++ js "." ++ ext in
  let tmpPath := basename ++ tmpExt in
  let type := match forcedType with
              | Some (c :: t) => c :: t
              | _ => ext
              end in
  let path := escape path in
  let tmpPath := escape tmpPath in
  if is_one_of type [js "jpg"; js "jpeg"; js "JPG"; js "JPEG"] then
    Some (html "jpegoptim -s -f --all-normal -m40 '" ++ path ++ html "'")
  else if is_one_of type [js "png"; js "PNG"] then
    Some (html "pngquant --verbose --nofs --force --ext='" ++ tmpExt ++ html "' '" ++ path
          ++ html "' && advdef -q -z -4 -i 5 '" ++ tmpPath
          ++ html "' && if [ $(stat -c%s '" ++ tmpPath ++ html "') -lt $(stat -c%s '" ++ path
          ++ html "') ]; then mv '" ++ tmpPath ++ html "' '" ++ path
          ++ html "'; else rm '" ++ tmpPath ++ html "'; fi")
  else if is_one_of type [js "gif"; js "GIF"] then
    Some (html "gifsicle --verbose --colors 64 -O3 '" ++ path ++ html "' -o '" ++ tmpPath
          ++ html "' && if [ $(stat -c%s '" ++ tmpPath ++ html "') -lt $(stat -c%s '" ++ path
          ++ html "') ]; then mv '" ++ tmpPath ++ html "' '" ++ path
          ++ html "'; else rm '" ++ tmpPath ++ html "'; fi")
  else None.

End Command.
End Optimize.

(* ================================================================== *)
(** * The words of a pattern *)
(* ================================================================== *)

Module RegexMeaning.
Import Regex.

(** The loop of a star in [Regex.m], by its name *)
Definition star_loop (greedy : bool) (a : re)
  (k : jsstring -> captures -> option captures)
  : nat -> jsstring -> captures -> option captures :=
  fix star (fuel : nat) (s : jsstring) (caps : captures) {struct fuel}
    : option captures :=
    match fuel with
    | O => k s caps
    | S fuel' =>
        let more := fun _ : unit =>
          m a s caps (fun s' caps' =>
            if (length s' <? length s)%nat then star fuel' s' caps' else None) in
        if greedy then or_try (more tt) (k s caps)
        else or_try (k s caps) (more tt)
    end.

(** The words a pattern can consume, the end of the subject left
    aside. *)
Fixpoint lang (r : re) (w : jsstring) : Prop :=
  match r with
  | RChar p => exists c, w = [c] /\ p c = true
  | REps => w = []
  | RSeq a b => exists u v, w = u ++ v /\ lang a u /\ lang b v
  | RAlt a b => lang a w \/ lang b w
  | RStar _ a => exists ws, w = concat ws /\ List.Forall (lang a) ws
  | RGroup _ a => lang a w
  | REnd => w = []
  end.

(** The pattern does not test for the end of the subject. *)
Fixpoint no_end (r : re) : bool :=
  match r with
  | RChar _ | REps => true
  | RSeq a b | RAlt a b => no_end a && no_end b
  | RStar _ a | RGroup _ a => no_end a
  | REnd => false
  end.

(** Every unit the pattern can consume is one of [P]. *)
Fixpoint covers (P : code_unit -> bool) (r : re) : Prop :=
  match r with
  | RChar p => forall c, p c = true -> P c = true
  | REps | REnd => True
  | RSeq a b | RAlt a b => covers P a /\ covers P b
  | RStar _ a | RGroup _ a => covers P a
  end.

End RegexMeaning.

(* ================================================================== *)
(** * util.js: validateEmail, and the user agent *)
(* ================================================================== *)

Module Email.
Import Regex.

(** The class of the local part: any unit but [<>()[]\.,;:@], the
    double quote and white space ([\s]) *)
Definition atom_unit (c : code_unit) : bool :=
  negb (existsb (Z.eqb c) (js "<>()[]\.,;:@") || (c =? 34) || Str.is_space c).

(** [[a-zA-Z\-0-9]] *)
Definition label_unit (c : code_unit) : bool :=
  is_lower c || is_upper c || (c =? 45) || is_digit c.

(** [[a-zA-Z]] *)
Definition letter (c : code_unit) : bool := is_lower c || is_upper c.

(** [[0-9]{1,3}] *)
Definition octet : re :=
  let d := RChar is_digit in RSeq d (opt (RSeq d (opt d))).

(** The local part: units of the class above in groups separated by
    single dots, or any text without a line terminator between double
    quotes *)
Definition local_re : re :=
  RAlt (RGroup 2 (RSeq (plus true (RChar atom_unit))
                       (RStar true (RGroup 3 (RSeq (lit 46) (plus true (RChar atom_unit)))))))
       (RGroup 4 (RSeq (lit 34) (RSeq (plus true dot) (lit 34)))).

(** [(\[[0-9]{1,3}\.[0-9]{1,3}\.[0-9]{1,3}\.[0-9]{1,3}\])|(([a-zA-Z\-0-9]+\.)+[a-zA-Z]{2,})] *)
Definition domain_re : re :=
  RAlt (RGroup 6 (RSeq (lit 91) (RSeq octet (RSeq (lit 46) (RSeq octet (RSeq (lit 46)
                    (RSeq octet (RSeq (lit 46) (RSeq octet (lit 93))))))))))
       (RGroup 7 (RSeq (plus true (RGroup 8 (RSeq (plus true (RChar label_unit)) (lit 46))))
                       (RSeq (RChar letter) (RSeq (RChar letter) (RStar true (RChar letter)))))).

(** [emailRegex], from [^] to [$] *)
Definition emailRegex : re :=
  RSeq (RGroup 1 local_re) (RSeq (lit 64) (RSeq (RGroup 5 domain_re) REnd)).

(** [validateEmail(email)] *)
Definition validateEmail (email : jsstring) : bool :=
  match exec emailRegex email with
  | Some _ => true
  | None => false
  end.

(** [userAgentString] as the start of the program leaves it; [None]
    when the program exits there. *)
Definition userAgentString (adminEmail : jsstring) : option jsstring :=
  if validateEmail adminEmail
  then Some (js "MWOffliner/HEAD" ++ js " (" ++ adminEmail ++ js ")")
  else None.

End Email.
Lemma str_eqb_eq a b : str_eqb a b = true <-> a = b.
Proof.
  revert b; induction a as [|x a IH]; intros [|y b]; simpl; split;
    try congruence; try discriminate.
  - rewrite andb_true_iff, Z.eqb_eq, IH. intros [-> ->]; reflexivity.
  - intros [= -> ->]. rewrite Z.eqb_refl. simpl. apply IH. reflexivity.
Qed.

Lemma starts_with_app p s : starts_with p s = true -> s = p ++ drop (length p) s.
Proof.
  revert s; induction p as [|x p IH]; intros [|y s]; simpl; try discriminate;
    try reflexivity.
  rewrite andb_true_iff, Z.eqb_eq. intros [-> H]. f_equal. apply IH, H.
Qed.

Example decodeURIComponent_euro :
URI.decodeURIComponent (js "a%E2%82%ACb") = Ret [97; 8364; 98].
Proof. reflexivity. Qed.

Example decodeURIComponent_astral :
URI.decodeURIComponent (js "%F0%9F%98%80") = Ret [55357; 56832].
Proof. reflexivity. Qed.

Example decodeURIComponent_malformed :
URI.decodeURIComponent (js "100%") = Throw URIError
/\ URI.decodeURIComponent (js "%C0%80") = Throw URIError
/\ URI.decodeURIComponent (js "%ED%A0%80") = Throw URIError.
Proof. repeat split; reflexivity. Qed.

Example decodeURI_keeps_reserved :
URI.decodeURI (js "a%2Fb%20c") = Ret (js "a%2Fb c").
Proof. reflexivity. Qed.

Example encodeURIComponent_space :
URI.encodeURIComponent (js "Foo bar/") = Ret (js "Foo%20bar%2F").
Proof. reflexivity. Qed.

Example charAt_pair_examples :
Util.charAt [97; 55357; 56832; 98] 0 = [97]
/\ Util.charAt [97; 55357; 56832; 98] 1 = [55357; 56832]
/\ Util.charAt [97; 55357; 56832; 98] 2 = [98]
/\ Util.charAt [97; 55357; 56832; 98] 3 = []
/\ Util.charAt [97; 55357; 56832; 98] (-1) = [].
Proof. repeat split; reflexivity. Qed.

(* ================================================================== *)
(** * util.js: [charAt] and [myDecodeURIComponent] *)
(* ================================================================== *)

Module UtilFacts.
Import Util Notions.

Lemma scan_lastIndex s pos li :
  surrogatePairs_scan s pos = Some li -> (pos + 2 <= li)%nat.
Proof.
  revert pos; induction s as [|h t IH]; intros pos; simpl; [discriminate|].
  destruct t as [|l t']; [discriminate|].
  destruct (is_high h && is_low l).
  - intros [= <-]. lia.
  - intros H. apply IH in H. lia.
Qed.

Lemma drop_cons_next (str : jsstring) pos h t :
  drop pos str = h :: t -> drop (S pos) str = t.
Proof.
  intros H. replace (S pos) with (pos + 1)%nat by lia.
  rewrite <- drop_drop, H. reflexivity.
Qed.

Lemma charAt_loop_skip str pos f idx h l t' :
  drop pos str = h :: l :: t' ->
  is_high h && is_low l = false ->
  charAt_loop (S f) str pos idx = charAt_loop (S f) str (S pos) idx.
Proof.
  intros Hd Hp. cbn [charAt_loop]. unfold surrogatePairs_exec.
  rewrite (drop_cons_next _ _ _ _ Hd), Hd. cbn [surrogatePairs_scan].
  rewrite Hp. reflexivity.
Qed.

Lemma charAt_loop_settles n :
  forall str pos fuel idx,
    length (drop pos str) = n -> (n <= fuel)%nat ->
    charAt_loop fuel str pos idx
    = Z.of_nat pos + unit_offset (drop pos str) (idx - Z.of_nat pos).
Proof.
  induction n as [n IH] using lt_wf_ind. intros str pos fuel idx Hn Hf.
  destruct (drop pos str) as [|h t] eqn:Hd.
  - destruct fuel; simpl; unfold surrogatePairs_exec; rewrite ?Hd; simpl; lia.
  - simpl in Hn. destruct fuel as [|f]; [lia|].
    pose proof (drop_cons_next _ _ _ _ Hd) as Hd1.
    destruct (Z.leb_spec (idx - Z.of_nat pos) 0) as [Hr|Hr].
    + cbn [charAt_loop unit_offset]. unfold surrogatePairs_exec. rewrite Hd.
      destruct (Z.leb_spec (idx - Z.of_nat pos) 0); [|lia].
      destruct (surrogatePairs_scan (h :: t) pos) as [li|] eqn:Hs; [|lia].
      apply scan_lastIndex in Hs.
      destruct (Z.ltb_spec (Z.of_nat li - 2) idx); lia.
    + destruct t as [|l t'].
      * cbn [charAt_loop unit_offset]. unfold surrogatePairs_exec. rewrite Hd.
        destruct (Z.leb_spec (idx - Z.of_nat pos) 0); simpl; lia.
      * destruct (is_high h && is_low l) eqn:Hp.
        -- cbn [charAt_loop unit_offset]. unfold surrogatePairs_exec. rewrite Hd.
           destruct (Z.leb_spec (idx - Z.of_nat pos) 0); [lia|].
           cbn [surrogatePairs_scan]. rewrite Hp.
           destruct (Z.ltb_spec (Z.of_nat (pos + 2) - 2) idx); [|lia].
           pose proof (drop_cons_next _ _ _ _ Hd1) as Hd2.
           replace (S (S pos)) with (pos + 2)%nat in Hd2 by lia.
           simpl in Hn.
           rewrite (IH (length t')) with (str := str); rewrite ?Hd2; try lia.
           replace (idx + 1 - Z.of_nat (pos + 2)) with (idx - Z.of_nat pos - 1) by lia.
           lia.
        -- rewrite <- Hd.
           rewrite (charAt_loop_skip str pos f idx h l t' Hd Hp).
           rewrite (IH (length (l :: t'))) with (str := str);
             rewrite ?Hd1; simpl in *; try lia.
           rewrite Hd. cbn [unit_offset].
           destruct (Z.leb_spec (idx - Z.of_nat pos) 0); [lia|].
           rewrite Hp.
           replace (idx - Z.of_nat (S pos)) with (idx - Z.of_nat pos - 1) by lia.
           lia.
Qed.

(** The loop does not depend on the fuel once there is enough of it. *)
Lemma charAt_loop_fuel str fuel idx :
  (length str <= fuel)%nat ->
  charAt_loop fuel str 0 idx = charAt_loop (length str) str 0 idx.
Proof.
  intros H.
  rewrite (charAt_loop_settles (length str)) by (rewrite ?drop_0; auto).
  rewrite (charAt_loop_settles (length str) str 0 (length str))
    by (rewrite ?drop_0; auto).
  reflexivity.
Qed.

Lemma charAt_pick str idx : charAt str idx = pick str (unit_offset str idx).
Proof.
  unfold charAt, pick.
  rewrite (charAt_loop_settles (length str)) by (rewrite ?drop_0; auto).
  rewrite drop_0. replace (idx - Z.of_nat 0) with idx by lia.
  replace (Z.of_nat 0 + unit_offset str idx) with (unit_offset str idx) by lia.
  reflexivity.
Qed.

Lemma unit_offset_nonneg s : forall r, 0 <= r -> 0 <= unit_offset s r.
Proof.
  induction s as [s IH] using (induction_ltof1 _ (@length _)); unfold ltof in IH.
  intros r Hr. destruct s as [|h t]; simpl; [lia|].
  destruct (Z.leb_spec r 0); [lia|].
  destruct t as [|l t'].
  - simpl. lia.
  - destruct (is_high h && is_low l).
    + specialize (IH t' ltac:(simpl; lia) (r - 1)). lia.
    + specialize (IH (l :: t') ltac:(simpl; lia) (r - 1)). lia.
Qed.

Lemma str_charAt_cons a s j : 0 <= j -> str_charAt (a :: s) (1 + j) = str_charAt s j.
Proof.
  intros Hj. unfold str_charAt.
  destruct (Z.ltb_spec (1 + j) 0); [lia|]. destruct (Z.ltb_spec j 0); [lia|].
  replace (Z.to_nat (1 + j)) with (S (Z.to_nat j)) by lia. reflexivity.
Qed.

Lemma pick_cons a s j : 0 <= j -> pick (a :: s) (1 + j) = pick s j.
Proof.
  intros Hj. unfold pick.
  replace (1 + j + 1) with (1 + (j + 1)) by lia.
  rewrite !str_charAt_cons by lia.
  replace (Z.of_nat (length (a :: s)) <=? 1 + j) with (Z.of_nat (length s) <=? j).
  2:{ simpl length. destruct (Z.leb_spec (Z.of_nat (length s)) j);
      destruct (Z.leb_spec (Z.of_nat (S (length s))) (1 + j)); lia. }
  replace (1 + j <? 0) with (j <? 0); [reflexivity|].
  destruct (Z.ltb_spec j 0); destruct (Z.ltb_spec (1 + j) 0); lia.
Qed.

Lemma pick_unit_offset s : forall r, pick s (unit_offset s r) = codepoint_at s r.
Proof.
  induction s as [s IH] using (induction_ltof1 _ (@length _)); unfold ltof in IH.
  intros r. destruct s as [|h t].
  - unfold pick, codepoint_at. simpl. change (Z.of_nat 0) with 0.
    destruct (Z.leb_spec 0 r); destruct (Z.ltb_spec r 0); simpl; try reflexivity; lia.
  - cbn [unit_offset]. destruct (Z.leb_spec r 0) as [Hr|Hr].
    + unfold codepoint_at. destruct (Z.ltb_spec r 0) as [Hn|Hn].
      * unfold pick. destruct (Z.ltb_spec r 0); [|lia]. rewrite orb_true_r. reflexivity.
      * assert (r = 0) as -> by lia. unfold pick, str_charAt. simpl.
        destruct t as [|l t']; simpl.
        -- rewrite andb_false_r. reflexivity.
        -- rewrite !orb_false_r. destruct (is_high h && is_low l); reflexivity.
    + assert (codepoint_at (h :: t) r
              = match t with
                | [] => codepoint_at t (r - 1)
                | l :: t' => if is_high h && is_low l then codepoint_at t' (r - 1)
                             else codepoint_at t (r - 1)
                end) as ->.
      { unfold codepoint_at. destruct (Z.ltb_spec r 0); [lia|].
        destruct (Z.ltb_spec (r - 1) 0); [lia|].
        replace (Z.to_nat r) with (S (Z.to_nat (r - 1))) by lia.
        destruct t as [|l t']; simpl; [reflexivity|].
        destruct (is_high h && is_low l); reflexivity. }
      destruct t as [|l t'].
      * rewrite pick_cons by (apply unit_offset_nonneg; lia). apply IH. simpl; lia.
      * destruct (is_high h && is_low l).
        -- replace (2 + unit_offset t' (r - 1)) with (1 + (1 + unit_offset t' (r - 1))) by lia.
           pose proof (unit_offset_nonneg t' (r - 1) ltac:(lia)).
           rewrite !pick_cons by lia. apply IH. simpl; lia.
        -- rewrite pick_cons by (apply unit_offset_nonneg; lia). apply IH. simpl; lia.
Qed.

Lemma codepoints_cons2 h l t :
  codepoints (h :: l :: t)
  = if is_high h && is_low l then [h; l] :: codepoints t
    else [h] :: codepoints (l :: t).
Proof. reflexivity. Qed.

(** The code points partition the string. *)
Lemma codepoints_concat s : concat (codepoints s) = s.
Proof.
  induction s as [s IH] using (induction_ltof1 _ (@length _)); unfold ltof in IH.
  destruct s as [|h [|l t']]; try reflexivity.
  rewrite codepoints_cons2. destruct (is_high h && is_low l).
  - change (concat ([h; l] :: codepoints t')) with (h :: l :: concat (codepoints t')).
    rewrite IH by (simpl; lia). reflexivity.
  - change (concat ([h] :: codepoints (l :: t')))
      with (h :: concat (codepoints (l :: t'))).
    rewrite IH by (simpl; lia). reflexivity.
Qed.

(** C8: for every string and every code point index [k], [charAt]
    returns code point number [k] of the string as a whole -- both halves
    of a surrogate pair together, never one half alone -- and the empty
    string when [k] is out of range. *)
Theorem charAt_whole_codepoint (str : jsstring) (k : Z) :
  charAt str k = codepoint_at str k.
Proof.
  rewrite charAt_pick. apply pick_unit_offset.
Qed.

(** A unit returned alone is not half of a pair: when [charAt] returns
    one code unit [c], no pair [c; l] or [h; c] of the string was cut. *)
Lemma codepoints_shape s cp :
  cp ∈ codepoints s ->
  (exists c, cp = [c]) \/ (exists h l, cp = [h; l] /\ is_high h = true /\ is_low l = true).
Proof.
  induction s as [s IH] using (induction_ltof1 _ (@length _)); unfold ltof in IH.
  destruct s as [|h [|l t']]; [| |rewrite codepoints_cons2]; cbn [codepoints].
  - intros H. inversion H.
  - intros H. apply list_elem_of_singleton in H. left. eauto.
  - destruct (is_high h && is_low l) eqn:Hp; intros H; apply elem_of_cons in H as [->|H].
    + right. apply andb_true_iff in Hp. exists h, l. tauto.
    + apply (IH t'); [simpl; lia|exact H].
    + left. eauto.
    + apply (IH (l :: t')); [simpl; lia|exact H].
Qed.

(** C10: [myDecodeURIComponent] never throws: it returns the decoded
    string when [decodeURIComponent] succeeds and its argument, unchanged,
    when [decodeURIComponent] raises. *)
Theorem myDecodeURIComponent_total (uri : jsstring) :
  (exists decoded, URI.decodeURIComponent uri = Ret decoded
                   /\ myDecodeURIComponent uri = Ret decoded)
  \/ (exists e, URI.decodeURIComponent uri = Throw e
                /\ myDecodeURIComponent uri = Ret uri).
Proof.
  unfold myDecodeURIComponent.
  destruct (URI.decodeURIComponent uri) as [d|e]; simpl; eauto.
Qed.

End UtilFacts.

(* ================================================================== *)
(** * Link targets *)
(* ================================================================== *)

Module LinkTargetFacts.
Import Notions.

Example parse_relative :
  (Node.parse (js "./Tour_Eiffel?x=1#top") false true) =
  Ret {| protocol := None; slashes := false; auth := None; host := None;
         hash := Some (js "#top"); search := Some (js "?x=1"); query := [];
         pathname := Some (js "./Tour_Eiffel") |}.
Proof. reflexivity. Qed.

Example parse_absolute :
  bind (Node.parse (js "https://EN.wikipedia.org/wiki/Caf%C3%A9") false true)
       (fun u => Ret (u.(protocol), u.(host), u.(pathname)))
  = Ret (Some (js "https:"), Some (js "en.wikipedia.org"), Some (js "/wiki/Caf%C3%A9")).
Proof. reflexivity. Qed.

Example parse_bad_auth :
  Node.parse (js "http://%E0@host/") false true = Throw URIError.
Proof. reflexivity. Qed.

Example extractTarget_examples :
  extractTargetIdFromHref Node.node example_cfg (js "./Tour_Eiffel") = Ret (TString (js "Tour_Eiffel"))
  /\ extractTargetIdFromHref Node.node example_cfg (js "/wiki/Caf%C3%A9") = Ret (TString [67; 97; 102; 233])
  /\ extractTargetIdFromHref Node.node example_cfg (js "./100%") = Ret (TString (js "100%"))
  /\ extractTargetIdFromHref Node.node example_cfg (js "http://example.org/x") = Ret TUndefined
  /\ extractTargetIdFromHref Node.node example_cfg (js "http://%E0@host/") = Ret (TString []).
Proof. repeat split; reflexivity. Qed.





End LinkTargetFacts.

(* ================================================================== *)
(** * Geo links *)
(* ================================================================== *)

Module GeoFacts.
Import Num Geo Notions.

Example ToNumber_examples :
  ToNumber (js "48.85825") = fin 4885825 100000
  /\ ToNumber (js " 12 ") = fin 12 1
  /\ ToNumber (js "") = fin 0 1
  /\ ToNumber (js "1E2") = fin 100 1
  /\ ToNumber (js "0X1F") = fin 31 1
  /\ ToNumber (js "N") = NaN
  /\ ToNumber (js "TYPE:LANDMARK") = NaN
  /\ ToNumber (js "1.") = fin 1 1
  /\ ToNumber (js ".") = NaN
  /\ parseFloat (js "44.5044943&x") = fin 445044943 10000000.
Proof. repeat split; reflexivity. Qed.

Example Number_toString_examples :
  Number_toString (fin 4885825 100000) = js "48.85825"
  /\ Number_toString (fin (-5) 2) = js "-2.5"
  /\ Number_toString (fin 0 1) = js "0"
  /\ Number_toString (fin 1200 1) = js "1200".
Proof. repeat split; vm_compute; reflexivity. Qed.

(** [deg] reads from [hemiHash] only whether a piece is one of its
    truthy keys: the sign stored under the key has no influence. *)
Lemma deg_loop_sign_blind (h1 h2 : hash) :
  (forall v, hemi_hit h1 v = hemi_hit h2 v) ->
  forall remaining pieces offs i out,
    deg_loop h1 pieces offs i remaining out = deg_loop h2 pieces offs i remaining out.
Proof.
  intros Hk. induction remaining as [|r IH]; intros pieces offs i out; simpl.
  - reflexivity.
  - destruct (pieces !! (i + offs)%nat) as [v|]; [|reflexivity].
    specialize (Hk v). unfold hemi_hit in Hk. rewrite Hk.
    destruct (match hash_get h2 v with Some s => num_truthy s | None => false end).
    + reflexivity.
    + apply IH.
Qed.

Lemma deg_sign_blind (h1 h2 : hash) pieces offs :
  (forall v, hemi_hit h1 v = hemi_hit h2 v) ->
  deg h1 pieces offs = deg h2 pieces offs.
Proof.
  intros Hk. unfold deg. rewrite (deg_loop_sign_blind h1 h2 Hk). reflexivity.
Qed.

(** In particular the table of the latitude could as well map [S] to
    [1]. *)
Lemma deg_lat_hash_south_as_north pieces offs :
  deg lat_hash pieces offs = deg [(js "N", fin 1 1); (js "S", fin 1 1)] pieces offs.
Proof.
  apply deg_sign_blind. intros v. unfold hemi_hit, hash_get, lat_hash.
  cbn [find fst].
  destruct (str_eqb (js "N") v); [reflexivity|].
  destruct (str_eqb (js "S") v); reflexivity.
Qed.

Example geohack_semicolon :
  rewriteUrl Node.node
    (Some (js "http://tools.wmflabs.org/geohack/geohack.php?params=48.858;2.2945_type:landmark"))
  = Ret (Some (js "geo:48.858,2.2945")).
Proof. vm_compute. reflexivity. Qed.

Example geohack_dms :
  rewriteUrl Node.node
    (Some (js "http://tools.wmflabs.org/geohack/geohack.php?params=48_30_0_N_2_15_0_E"))
  = Ret (Some (js "geo:48.5,2.25")).
Proof. vm_compute. reflexivity. Qed.

Example poimap2_link :
  rewriteUrl Node.node
    (Some (js "http://maps.wikivoyage-ev.org/w/poimap2.php?lat=44.5044943&lon=34.1969633&zoom=15"))
  = Ret (Some (js "geo:44.5044943,34.1969633")).
Proof. vm_compute. reflexivity. Qed.

Example other_link_untouched :
  rewriteUrl Node.node (Some (js "./Paris")) = Ret None.
Proof. vm_compute. reflexivity. Qed.

(** C1: the link of the specification's scenario, on the northern and
    eastern hemispheres, is rewritten to [geo:48.85825,2.2945]; the same
    coordinates on the southern and western hemispheres are rewritten to
    the same positive pair, where the signs of the letters (S and W
    negative) give [geo:-48.85825,-2.2945]: the sign of the hemisphere
    letter is lost. *)
Theorem rewriteUrl_geohack_hemisphere_sign_lost :
  rewriteUrl Node.node
    (Some (js "http://tools.wmflabs.org/geohack/geohack.php?params=48.85825_N_2.2945_E_type:landmark"))
  = Ret (Some (js "geo:48.85825,2.2945"))
  /\ rewriteUrl Node.node
    (Some (js "http://tools.wmflabs.org/geohack/geohack.php?params=48.85825_S_2.2945_W_type:landmark"))
  = Ret (Some (js "geo:48.85825,2.2945")).
Proof. split; vm_compute; reflexivity. Qed.

End GeoFacts.

(* ================================================================== *)
(** * Digests *)
(* ================================================================== *)

Module CryptoFacts.
Import Crypto.

Example md5_test_vectors :
  md5_hex (js "") = js "d41d8cd98f00b204e9800998ecf8427e"
  /\ md5_hex (js "abc") = js "900150983cd24fb0d6963f7d28e17f72"
  /\ md5_hex (repeat 97 100) = js "36a92cc94a9e0fa21f625f8bfb007adf".
Proof. repeat split; vm_compute; reflexivity. Qed.

Example sha1_test_vectors :
  sha1_hex (js "") = js "da39a3ee5e6b4b0d3255bfef95601890afd80709"
  /\ sha1_hex (js "abc") = js "a9993e364706816aba3e25717850c26c9cd0d89d"
  /\ sha1_hex (js "Foo.png") = js "f738d5b1d3e681626dca1162da521aeb3963a600"
  /\ sha1_hex (repeat 97 100) = js "7f9000257a4918d7072655ea468540cdcbd42e0c".
Proof. repeat split; vm_compute; reflexivity. Qed.

End CryptoFacts.

(* ================================================================== *)
(** * Media file names *)
(* ================================================================== *)

Module MediaFacts.
Import Regex Media Notions.

Example mediaRegex_thumb :
  (fun parts => (group parts 1, group parts 2, group parts 4, group parts 5,
                 group parts 6, group parts 7))
    <$> exec mediaRegex
          (js "http://upload.wikimedia.org/wikipedia/commons/thumb/a/ab/Foo.tar.gz/120px-Foo.tar.gz")
  = Some (js "http://upload.wikimedia.org/wikipedia/commons/thumb/a/ab/",
          js "Foo.tar.gz", js "120px-", js "Foo", js ".tar", js ".gz").
Proof. vm_compute. reflexivity. Qed.

Example mediaRegex_no_match :
  exec mediaRegex (js "Foo.png") = None.
Proof. vm_compute. reflexivity. Qed.

Example getMediaBase_examples :
  getMediaBase Node.node
    (js "http://upload.wikimedia.org/wikipedia/commons/thumb/a/ab/Foo_bar%C3%A9.png/120px-Foo_bar%C3%A9.png") true
  = Ret (Some (js "m/Foo_bar%C3%A9.png"))
  /\ getMediaBase Node.node (js "http://en.wikipedia.org/m/Foo.svg") false
     = Ret (Some (js "m/Foo.svg"))
  /\ getMediaBase Node.node (js "http://example.org/x/120px-Foo") false
     = Ret (Some (js "m/Foo.svg"))
  /\ getMediaBase Node.node (js "nothing") false = Ret None.
Proof. repeat split; vm_compute; reflexivity. Qed.

Example width_of_examples :
  width_of <$> exec mediaRegex (js "http://h/a/Foo.png/120px-Foo.png") = Some 120
  /\ width_of <$> exec mediaRegex (js "http://h/a/Foo.png") = Some INFINITY_WIDTH.
Proof. split; vm_compute; reflexivity. Qed.


(** ** Byte lengths *)

Lemma utf8_encode_cons c t :
  URI.utf8_encode (c :: t)
  = if is_high c then
      match t with
      | l :: t' =>
          if is_low l
          then URI.utf8_of_code_point (URI.code_point_of_pair c l) ++ URI.utf8_encode t'
          else [239; 191; 189] ++ URI.utf8_encode t
      | [] => [239; 191; 189]
      end
    else if is_low c then [239; 191; 189] ++ URI.utf8_encode t
    else URI.utf8_of_code_point c ++ URI.utf8_encode t.
Proof. reflexivity. Qed.

Lemma utf8_encode_app a : forall b,
  starts_low b = false ->
  URI.utf8_encode (a ++ b) = URI.utf8_encode a ++ URI.utf8_encode b.
Proof.
  induction a as [a IH] using (induction_ltof1 _ (@length _)); unfold ltof in IH.
  intros b Hb. destruct a as [|c t]; [reflexivity|].
  destruct t as [|l t'].
  - change (([c] ++ b)) with (c :: b).
    rewrite (utf8_encode_cons c b), (utf8_encode_cons c []).
    change (URI.utf8_encode []) with (@nil Z).
    destruct (is_high c) eqn:Hc.
    + destruct b as [|l b']; [reflexivity|].
      simpl in Hb. rewrite Hb. reflexivity.
    + destruct (is_low c); rewrite app_nil_r; reflexivity.
  - change ((c :: l :: t') ++ b) with (c :: l :: (t' ++ b)).
    rewrite (utf8_encode_cons c (l :: t' ++ b)), (utf8_encode_cons c (l :: t')).
    cbv beta iota.
    change (l :: t' ++ b) with ((l :: t') ++ b).
    destruct (is_high c) eqn:Hc.
    + destruct (is_low l) eqn:Hl.
      * rewrite IH by (simpl; auto; lia). rewrite app_assoc. reflexivity.
      * rewrite IH by (simpl; auto; lia). reflexivity.
    + rewrite IH by (simpl; auto; lia).
      destruct (is_low c); rewrite app_assoc; reflexivity.
Qed.

Lemma byteLength_app a b :
  starts_low b = false ->
  URI.byteLength (a ++ b) = (URI.byteLength a + URI.byteLength b)%nat.
Proof.
  intros H. unfold URI.byteLength. rewrite utf8_encode_app by exact H.
  apply length_app.
Qed.

Lemma ascii_not_surrogate c : is_ascii c = true -> is_high c = false /\ is_low c = false.
Proof.
  unfold is_ascii, is_high, is_low. intros H. apply andb_true_iff in H as [H1 H2].
  apply Z.leb_le in H1. apply Z.ltb_lt in H2.
  split; apply andb_false_iff; left; apply Z.leb_gt; lia.
Qed.

Lemma byteLength_ascii s :
  forallb is_ascii s = true -> URI.byteLength s = length s.
Proof.
  induction s as [|c t IH]; [reflexivity|].
  cbn [forallb]. intros H. apply andb_true_iff in H as [Hc Ht].
  change (c :: t) with ([c] ++ t).
  assert (starts_low t = false) as Hl.
  { destruct t as [|x t']; [reflexivity|]. simpl in Ht.
    apply andb_true_iff in Ht as [Hx _]. apply ascii_not_surrogate in Hx. apply Hx. }
  rewrite byteLength_app by exact Hl. rewrite IH by exact Ht.
  destruct (ascii_not_surrogate c Hc) as [Hh Hlo].
  unfold URI.byteLength at 1. cbn [URI.utf8_encode]. rewrite Hh, Hlo.
  unfold URI.utf8_of_code_point, is_ascii in *.
  apply andb_true_iff in Hc as [_ Hc]. rewrite Hc. reflexivity.
Qed.

Lemma byteLength_unit_bounds c :
  (1 <= URI.byteLength [c] <= 4)%nat.
Proof.
  unfold URI.byteLength. cbn [URI.utf8_encode].
  destruct (is_high c); [simpl; lia|].
  destruct (is_low c); [simpl; lia|].
  unfold URI.utf8_of_code_point.
  destruct (c <? 128); [simpl; lia|].
  destruct (c <? 2048); [simpl; lia|].
  destruct (c <? 65536); simpl; lia.
Qed.

Lemma byteLength_pair h l :
  is_high h && is_low l = true -> (URI.byteLength [h; l] <= 4)%nat.
Proof.
  intros H. apply andb_true_iff in H as [Hh Hl].
  unfold URI.byteLength. cbn [URI.utf8_encode]. rewrite Hh, Hl.
  unfold URI.utf8_of_code_point.
  destruct (_ <? 128); [simpl; lia|].
  destruct (_ <? 2048); [simpl; lia|].
  destruct (_ <? 65536); simpl; lia.
Qed.

(** ** The model of the cutter honours its bound *)

Lemma utf8_prefix_bound s : forall max,
  0 <= max -> Z.of_nat (URI.byteLength (Node.utf8_prefix s max)) <= max.
Proof.
  induction s as [s IH] using (induction_ltof1 _ (@length _)); unfold ltof in IH.
  intros max Hmax. destruct s as [|c t]; [unfold URI.byteLength; simpl; lia|].
  cbn [Node.utf8_prefix]. destruct t as [|l t'].
  - destruct (Z.leb_spec (Z.of_nat (URI.byteLength [c])) max); [lia|unfold URI.byteLength; simpl; lia].
  - destruct (is_high c && is_low l) eqn:Hp.
    + destruct (Z.leb_spec 4 max); [|unfold URI.byteLength; simpl; lia].
      change (c :: l :: Node.utf8_prefix t' (max - 4))
        with ([c; l] ++ Node.utf8_prefix t' (max - 4)).
      assert (URI.utf8_encode ([c; l] ++ Node.utf8_prefix t' (max - 4))
              = URI.utf8_encode [c; l] ++ URI.utf8_encode (Node.utf8_prefix t' (max - 4))) as E.
      { apply andb_true_iff in Hp as [Hh Hl].
        change ([c; l] ++ Node.utf8_prefix t' (max - 4))
          with (c :: l :: Node.utf8_prefix t' (max - 4)).
        rewrite (utf8_encode_cons c (l :: _)), (utf8_encode_cons c [l]).
        cbv beta iota. rewrite Hh, Hl.
        change (URI.utf8_encode []) with (@nil Z). rewrite app_nil_r. reflexivity. }
      unfold URI.byteLength at 1. rewrite E, length_app.
      pose proof (byteLength_pair c l Hp) as Hb. unfold URI.byteLength in Hb.
      specialize (IH t' ltac:(simpl; lia) (max - 4) ltac:(lia)).
      unfold URI.byteLength in IH. lia.
    + destruct (Z.leb_spec (Z.of_nat (URI.byteLength [c])) max) as [Hc|Hc]; [|unfold URI.byteLength; simpl; lia].
      change (c :: Node.utf8_prefix (l :: t') (max - Z.of_nat (URI.byteLength [c])))
        with ([c] ++ Node.utf8_prefix (l :: t') (max - Z.of_nat (URI.byteLength [c]))).
      assert (forall r, URI.utf8_encode ([c] ++ r) = URI.utf8_encode [c] ++ URI.utf8_encode r
                        \/ (is_high c = true /\ starts_low r = true)) as E.
      { intros r. destruct (starts_low r) eqn:Hr.
        - destruct (is_high c) eqn:Hh; [right; auto|]. left.
          change ([c] ++ r) with (c :: r).
          rewrite (utf8_encode_cons c r), (utf8_encode_cons c []), Hh.
          change (URI.utf8_encode []) with (@nil Z).
          destruct (is_low c); rewrite app_nil_r; reflexivity.
        - left. apply utf8_encode_app. exact Hr. }
      destruct (E (Node.utf8_prefix (l :: t') (max - Z.of_nat (URI.byteLength [c]))))
        as [E1|[Hh Hr]].
      * unfold URI.byteLength at 1. rewrite E1, length_app.
        specialize (IH (l :: t') ltac:(simpl; lia)
                       (max - Z.of_nat (URI.byteLength [c])) ltac:(lia)).
        unfold URI.byteLength in *. lia.
      * (* a high surrogate followed by a low one inside the result: the
           two are counted together, for fewer bytes *)
        remember (Node.utf8_prefix (l :: t') (max - Z.of_nat (URI.byteLength [c]))) as r eqn:Er.
        specialize (IH (l :: t') ltac:(simpl; lia)
                       (max - Z.of_nat (URI.byteLength [c])) ltac:(lia)).
        rewrite <- Er in IH.
        destruct r as [|x r']; [discriminate|]. simpl in Hr.
        assert (URI.byteLength ([c] ++ x :: r') <= URI.byteLength [c] + URI.byteLength (x :: r'))%nat.
        { assert (is_high x = false) as Hx.
          { unfold is_high, is_low in *. apply andb_true_iff in Hr as [H1 H2].
            apply Z.leb_le in H1. apply Z.leb_le in H2.
            apply andb_false_iff. right. apply Z.leb_gt. lia. }
          unfold URI.byteLength. change ([c] ++ x :: r') with (c :: x :: r').
          rewrite (utf8_encode_cons c (x :: r')), (utf8_encode_cons c []),
            (utf8_encode_cons x r').
          cbv beta iota. rewrite Hh, Hr, Hx. rewrite !length_app.
          assert (length (URI.utf8_of_code_point (URI.code_point_of_pair c x)) <= 4)%nat.
          { unfold URI.utf8_of_code_point.
            destruct (_ <? 128); [simpl; lia|].
            destruct (_ <? 2048); [simpl; lia|].
            destruct (_ <? 65536); simpl; lia. }
          simpl length. lia. }
        lia.
Qed.

Lemma cutter_truncate_bound s n :
  3 <= n -> Z.of_nat (URI.byteLength (Node.cutter_truncate s n)) <= n.
Proof.
  intros Hn. unfold Node.cutter_truncate.
  destruct (Z.leb_spec (Z.of_nat (URI.byteLength s)) n); [lia|].
  rewrite byteLength_app by reflexivity.
  pose proof (utf8_prefix_bound s (n - 3) ltac:(lia)).
  change (URI.byteLength (js "...")) with 3%nat. lia.
Qed.

(** ** The shortened name *)

Lemma hex_digit_ascii n :
  0 <= n < 16 -> is_ascii (if n <? 10 then 48 + n else 87 + n) = true.
Proof.
  intros H. unfold is_ascii. destruct (Z.ltb_spec n 10);
    apply andb_true_iff; split; try apply Z.leb_le; try apply Z.ltb_lt; lia.
Qed.

Lemma md5_hex_take2 s :
  exists c1 c2, take 2 (Crypto.md5_hex s) = [c1; c2]
                /\ is_ascii c1 = true /\ is_ascii c2 = true.
Proof.
  unfold Crypto.md5_hex, Crypto.md5.
  destruct (fold_left _ _ _) as [[[a b] c] d].
  set (b0 := Z.shiftr a (8 * Z.of_nat 0) mod 256).
  assert (0 <= b0 < 256) as Hb by (apply Z.mod_pos_bound; lia).
  exists (if Z.shiftr b0 4 <? 10 then 48 + Z.shiftr b0 4 else 87 + Z.shiftr b0 4),
         (if Z.land b0 15 <? 10 then 48 + Z.land b0 15 else 87 + Z.land b0 15).
  split; [reflexivity|]. split; apply hex_digit_ascii.
  - rewrite Z.shiftr_div_pow2 by lia. change (2 ^ 4) with 16.
    split; [apply Z.div_pos; lia | apply Z.div_lt_upper_bound; lia].
  - change 15 with (Z.ones 4). rewrite Z.land_ones by lia.
    change (2 ^ 4) with 16. apply Z.mod_pos_bound. lia.
Qed.

Example getMediaBase_long_name :
  derivedFilename example_long_url = Ret (Some example_long_name)
  /\ getMediaBase Node.node example_long_url false
      = Ret (Some (js "m/" ++ repeat 65 233 ++ js "...75.png")).
Proof. split; vm_compute; reflexivity. Qed.

(** C4, counterexample: a file name of 256 bytes is shortened to 242
    bytes, not to 250. *)
Lemma shortenFilename_not_250_bytes :
  (249 < URI.byteLength example_long_name)%nat
  /\ shortenFilename Node.node example_long_name
      = repeat 65 233 ++ js "...75.png"
  /\ URI.byteLength (shortenFilename Node.node example_long_name) = 242%nat
  /\ URI.byteLength (shortenFilename Node.node example_long_name) <> 250%nat.
Proof.
  split; [vm_compute; lia|].
  split; [vm_compute; reflexivity|].
  split; [vm_compute; reflexivity|].
  vm_compute. discriminate.
Qed.

(** C4, amended: for every media URL whose derived file name is longer
    than 249 bytes, [getMediaBase] returns the base name cut by
    [truncateToBinarySize] to at most [239 - ext.length] bytes, followed
    by the first two hexadecimal characters of the MD5 of the base name, a
    dot and the extension; with an ASCII extension of at most 236
    characters the name has at most 242 bytes.  The cutter is any function
    that respects its byte bound. *)
Theorem shortened_media_filename_at_most_242
  (lib : NodeLib) (url filename : jsstring) :
  (forall s n, 3 <= n -> Z.of_nat (URI.byteLength (lib.(truncateToBinarySize) s n)) <= n) ->
  derivedFilename url = Ret (Some filename) ->
  (249 < URI.byteLength filename)%nat ->
  forallb is_ascii (filename_ext lib filename) = true ->
  (length (filename_ext lib filename) <= 236)%nat ->
  getMediaBase lib url false = Ret (Some (js "m/" ++ shortenFilename lib filename))
  /\ shortenFilename lib filename
      = lib.(truncateToBinarySize) (filename_basename lib filename)
          (239 - Z.of_nat (length (filename_ext lib filename)))
        ++ take 2 (Crypto.md5_hex (filename_basename lib filename))
        ++ js "." ++ filename_ext lib filename
  /\ (URI.byteLength (shortenFilename lib filename) <= 242)%nat.
Proof.
  intros Hcut Hd Hlong Hascii Hlen.
  assert (shortenFilename lib filename
          = lib.(truncateToBinarySize) (filename_basename lib filename)
              (239 - Z.of_nat (length (filename_ext lib filename)))
            ++ take 2 (Crypto.md5_hex (filename_basename lib filename))
            ++ js "." ++ filename_ext lib filename) as Hs.
  { unfold shortenFilename. apply Nat.ltb_lt in Hlong. rewrite Hlong. reflexivity. }
  split; [|split].
  - unfold getMediaBase. rewrite Hd. reflexivity.
  - exact Hs.
  - rewrite Hs.
    destruct (md5_hex_take2 (filename_basename lib filename)) as (c1 & c2 & -> & H1 & H2).
    set (ext := filename_ext lib filename) in *.
    assert (forallb is_ascii ([c1; c2] ++ js "." ++ ext) = true) as Htail.
    { cbn [app forallb]. rewrite H1, H2. exact Hascii. }
    rewrite byteLength_app.
    2:{ cbn [app starts_low]. apply ascii_not_surrogate in H1. apply H1. }
    rewrite (byteLength_ascii _ Htail).
    specialize (Hcut (filename_basename lib filename) (239 - Z.of_nat (length ext))
                     ltac:(lia)).
    rewrite !length_app. simpl length. lia.
Qed.

(** The theorem applies to the long URL with the model of the
    libraries. *)
Lemma shortened_media_filename_witness :
  getMediaBase Node.node example_long_url false
  = Ret (Some (js "m/" ++ shortenFilename Node.node example_long_name))
  /\ (URI.byteLength (shortenFilename Node.node example_long_name) <= 242)%nat.
Proof.
  destruct (shortened_media_filename_at_most_242 Node.node example_long_url
              example_long_name) as (H1 & _ & H3).
  - exact cutter_truncate_bound.
  - vm_compute. reflexivity.
  - vm_compute. lia.
  - vm_compute. reflexivity.
  - vm_compute. lia.
  - split; assumption.
Defined.

End MediaFacts.

(* ================================================================== *)
(** * The HTTP fetcher *)
(* ================================================================== *)

Module FetchFacts.
Import Fetch Notions.

Section Facts.
Variable gunzip : bytes -> option bytes.
Variable inflate : bytes -> option bytes.
Variable cfg : Config.

Local Abbreviation handle := (handle gunzip inflate).
Local Abbreviation run_attempt := (run_attempt gunzip inflate cfg).
Local Abbreviation retry := (retry gunzip inflate cfg).
Local Abbreviation attempt_outcome := (attempt_outcome gunzip inflate cfg).

Lemma quiet_nil : quiet [].
Proof. split; reflexivity. Qed.

Lemma quiet_app l1 l2 : quiet l1 -> quiet l2 -> quiet (l1 ++ l2).
Proof.
  intros [H1 H2] [H3 H4]. split; rewrite List.filter_app.
  - rewrite H1, H3. reflexivity.
  - rewrite H2, H4. reflexivity.
Qed.

Lemma callFinished_trace st t m d :
  exists l, trace (callFinished st t m d) = trace st ++ l /\ quiet l.
Proof.
  unfold callFinished. destruct (calledFinished st).
  - exists []. rewrite app_nil_r. split; [reflexivity|apply quiet_nil].
  - simpl. eexists. split; [reflexivity|]. destruct m; split; reflexivity.
Qed.

Lemma callFinished_core st1 st2 t m d :
  core st1 = core st2 -> core (callFinished st1 t m d) = core (callFinished st2 t m d).
Proof.
  unfold core, callFinished. intros [= H1 H2 H3 H4 H5].
  rewrite H1. destruct (calledFinished st2) eqn:E; simpl; congruence.
Qed.

Lemma finish_decoded_core st1 st2 r :
  core st1 = core st2 -> core (finish_decoded st1 r) = core (finish_decoded st2 r).
Proof.
  intros H. unfold finish_decoded. destruct r; apply callFinished_core; exact H.
Qed.

Lemma log_core st evs : core (log st evs) = core st.
Proof. reflexivity. Qed.

Lemma handle_trace n st ev :
  exists l, trace (handle n st ev) = trace st ++ l /\ quiet l.
Proof.
  assert (forall st0 l0, quiet l0 -> trace st0 = trace st ++ l0 ->
            forall t m d, exists l, trace (callFinished st0 t m d) = trace st ++ l /\ quiet l)
    as Hcf.
  { intros st0 l0 Hq E t m d. destruct (callFinished_trace st0 t m d) as (l & -> & Hl).
    exists (l0 ++ l). rewrite E, app_assoc. split; [reflexivity|]. apply quiet_app; assumption. }
  assert (exists l, trace st = trace st ++ l /\ quiet l) as Hid.
  { exists []. rewrite app_nil_r. split; [reflexivity|apply quiet_nil]. }
  destruct ev as [code hdrs|chunk| | | |own|own]; cbn [Fetch.handle].
  - destruct (code =? 200); [exact Hid|].
    apply (Hcf _ [TSocketDestroy]); [split; reflexivity|reflexivity].
  - destruct (listening st); exact Hid.
  - destruct (listening st) as [hdrs|]; [|exact Hid].
    assert (forall r, exists l,
              trace (finish_decoded
                       {| calledFinished := calledFinished st;
                          request_defined := request_defined st;
                          listening := Some hdrs; chunks := chunks st;
                          responseHeaders := hdrs;
                          finished_args := finished_args st;
                          trace := trace st |} r) = trace st ++ l /\ quiet l) as Hfd.
    { intros [b|]; unfold finish_decoded;
        apply (Hcf _ []); try apply quiet_nil; simpl; rewrite app_nil_r; reflexivity. }
    cbn [Fetch.chunks].
    destruct (header_get hdrs (js "content-encoding")) as [enc|].
    + destruct (str_eqb enc (js "gzip")); [apply Hfd|].
      destruct (str_eqb enc (js "deflate")); [apply Hfd|].
      apply (Hcf _ []); try apply quiet_nil; simpl; rewrite app_nil_r; reflexivity.
    + apply (Hcf _ []); try apply quiet_nil; simpl; rewrite app_nil_r; reflexivity.
  - destruct (listening st); [|exact Hid].
    apply (Hcf _ [TSocketDestroy]); [split; reflexivity|reflexivity].
  - apply (Hcf _ []); [apply quiet_nil|rewrite app_nil_r; reflexivity].
  - destruct (own && request_defined (log st [TPrintErr; TSocketDestroy])).
    + apply (Hcf _ [TPrintErr; TSocketDestroy]); [split; reflexivity|reflexivity].
    + eexists. split; [reflexivity|split; reflexivity].
  - destruct (own && request_defined (log st [TPrintErr; TSocketEnd])).
    + apply (Hcf _ [TPrintErr; TSocketEnd]); [split; reflexivity|reflexivity].
    + eexists. split; [reflexivity|split; reflexivity].
Qed.

Lemma handle_core n st1 st2 ev :
  core st1 = core st2 -> core (handle n st1 ev) = core (handle n st2 ev).
Proof.
  intros H. pose proof H as [= H1 H2 H3 H4 H5].
  destruct ev as [code hdrs|chunk| | | |own|own]; cbn [Fetch.handle].
  - destruct (code =? 200).
    + unfold core; simpl; congruence.
    + apply callFinished_core. rewrite !log_core. exact H.
  - rewrite H3. destruct (listening st2); [|exact H].
    unfold core; simpl; congruence.
  - rewrite H3. destruct (listening st2) as [hdrs|]; [|exact H].
    cbn [Fetch.chunks]. rewrite H4.
    assert (core {| calledFinished := calledFinished st1;
                    request_defined := request_defined st1;
                    listening := Some hdrs; chunks := chunks st1;
                    responseHeaders := hdrs;
                    finished_args := finished_args st1; trace := trace st1 |}
            = core {| calledFinished := calledFinished st2;
                      request_defined := request_defined st2;
                      listening := Some hdrs; chunks := chunks st2;
                      responseHeaders := hdrs;
                      finished_args := finished_args st2; trace := trace st2 |}) as Hc.
    { unfold core; simpl; congruence. }
    clear Hc.
    destruct (header_get hdrs (js "content-encoding")) as [enc|].
    + destruct (str_eqb enc (js "gzip"));
        [apply finish_decoded_core; unfold core; simpl; congruence|].
      destruct (str_eqb enc (js "deflate"));
        [apply finish_decoded_core; unfold core; simpl; congruence|].
      apply callFinished_core; unfold core; simpl; congruence.
    + apply callFinished_core; unfold core; simpl; congruence.
  - rewrite H3. destruct (listening st2); [|exact H].
    apply callFinished_core. rewrite !log_core. exact H.
  - apply callFinished_core. exact H.
  - cbn [log request_defined]. rewrite H2.
    destruct (own && request_defined st2).
    + apply callFinished_core. rewrite !log_core. exact H.
    + rewrite !log_core. exact H.
  - cbn [log request_defined]. rewrite H2.
    destruct (own && request_defined st2).
    + apply callFinished_core. rewrite !log_core. exact H.
    + rewrite !log_core. exact H.
Qed.

Lemma fold_handle_core n evs : forall st1 st2,
  core st1 = core st2 ->
  core (fold_left (handle n) evs st1) = core (fold_left (handle n) evs st2).
Proof.
  induction evs as [|ev evs IH]; intros st1 st2 H; simpl; [exact H|].
  apply IH, handle_core, H.
Qed.

Lemma fold_handle_trace n evs : forall st,
  exists l, trace (fold_left (handle n) evs st) = trace st ++ l /\ quiet l.
Proof.
  induction evs as [|ev evs IH]; intros st; simpl.
  - exists []. rewrite app_nil_r. split; [reflexivity|apply quiet_nil].
  - destruct (IH (handle n st ev)) as (l2 & E2 & Q2).
    destruct (handle_trace n st ev) as (l1 & E1 & Q1).
    exists (l1 ++ l2). rewrite E2, E1, app_assoc.
    split; [reflexivity|apply quiet_app; assumption].
Qed.

(** How an attempt ends does not depend on the trace so far nor on the
    headers of earlier responses. *)
Lemma run_attempt_outcome n hdrs tr evs :
  finished_args (run_attempt n hdrs tr evs) = attempt_outcome n evs.
Proof.
  unfold Fetch.attempt_outcome, Fetch.run_attempt.
  assert (forall st1 st2, core st1 = core st2 -> finished_args st1 = finished_args st2) as Hf.
  { intros st1 st2 [= _ _ _ _ H]. exact H. }
  apply Hf, fold_handle_core. reflexivity.
Qed.

Lemma run_attempt_trace n hdrs tr evs :
  exists l, trace (run_attempt n hdrs tr evs)
            = tr ++ TRequest n (requestTimeout cfg * 1000 * Z.of_nat n) :: l
            /\ quiet l.
Proof.
  unfold Fetch.run_attempt.
  destruct (fold_handle_trace n evs
              {| calledFinished := false; request_defined := true; listening := None;
                 chunks := []; responseHeaders := hdrs; finished_args := None;
                 trace := tr ++ [TRequest n (requestTimeout cfg * 1000 * Z.of_nat n)] |})
    as (l & E & Q).
  exists l. rewrite E. simpl. rewrite <- app_assoc. split; [reflexivity|exact Q].
Qed.

Lemma quiet_no_request l k ms : quiet l -> ~ In (TRequest k ms) l.
Proof.
  intros [Hq _] Hin.
  assert (In (TRequest k ms) (List.filter is_request l)) as H.
  { apply filter_In. split; [exact Hin|reflexivity]. }
  rewrite Hq in H. destruct H.
Qed.

(** A failed attempt hands no data over. *)
Lemma callFinished_failure_data st t m d :
  (forall t' d', finished_args st = Some (t', true, d') -> d' = DUndefined) ->
  (m = true -> d = DUndefined) ->
  forall t' d', finished_args (callFinished st t m d) = Some (t', true, d') ->
                d' = DUndefined.
Proof.
  intros Hst Hm t' d'. unfold callFinished. destruct (calledFinished st).
  - apply Hst.
  - simpl. intros [= _ Hm' <-]. apply Hm, Hm'.
Qed.

Lemma handle_failure_data n st ev :
  (forall t d, finished_args st = Some (t, true, d) -> d = DUndefined) ->
  forall t d, finished_args (handle n st ev) = Some (t, true, d) -> d = DUndefined.
Proof.
  intros Hst.
  destruct ev as [code hdrs|chunk| | | |own|own]; cbn [Fetch.handle].
  - destruct (code =? 200); [exact Hst|].
    apply callFinished_failure_data; auto.
  - destruct (listening st); exact Hst.
  - destruct (listening st) as [hdrs|]; [|exact Hst].
    cbn [Fetch.chunks].
    assert (forall r t d,
              finished_args (finish_decoded
                {| calledFinished := calledFinished st;
                   request_defined := request_defined st;
                   listening := Some hdrs; chunks := chunks st;
                   responseHeaders := hdrs; finished_args := finished_args st;
                   trace := trace st |} r) = Some (t, true, d) -> d = DUndefined) as Hfd.
    { intros [b|]; unfold finish_decoded; apply callFinished_failure_data; auto;
        discriminate. }
    destruct (header_get hdrs (js "content-encoding")) as [enc|].
    + destruct (str_eqb enc (js "gzip")); [apply Hfd|].
      destruct (str_eqb enc (js "deflate")); [apply Hfd|].
      apply callFinished_failure_data; auto; discriminate.
    + apply callFinished_failure_data; auto; discriminate.
  - destruct (listening st); [|exact Hst].
    apply callFinished_failure_data; auto.
  - apply callFinished_failure_data; auto.
  - destruct (own && _); [apply callFinished_failure_data; auto|exact Hst].
  - destruct (own && _); [apply callFinished_failure_data; auto|exact Hst].
Qed.

Lemma attempt_failure_data n evs t d :
  attempt_outcome n evs = Some (t, true, d) -> d = DUndefined.
Proof.
  unfold Fetch.attempt_outcome, Fetch.run_attempt.
  set (st0 := {| calledFinished := false; request_defined := true; listening := None;
                 chunks := []; responseHeaders := []; finished_args := None;
                 trace := _ |}).
  assert (forall t d, finished_args st0 = Some (t, true, d) -> d = DUndefined) as H0
    by discriminate.
  clearbody st0. revert st0 H0 t d.
  induction evs as [|ev evs IH]; intros st0 H0; simpl; [exact H0|].
  apply IH, handle_failure_data, H0.
Qed.

(** A response with a status other than 200, coming first, fails the
    attempt. *)
Lemma fold_handle_finished n evs : forall st,
  calledFinished st = true ->
  finished_args (fold_left (handle n) evs st) = finished_args st.
Proof.
  induction evs as [|ev evs IH]; intros st Hc; simpl; [reflexivity|].
  assert (forall s t m d, calledFinished s = true -> callFinished s t m d = s) as Hcf.
  { intros s t m d Hs. unfold callFinished. rewrite Hs. reflexivity. }
  assert (calledFinished (handle n st ev) = true
          /\ finished_args (handle n st ev) = finished_args st) as [H1 H2].
  { destruct ev as [code hdrs|chunk| | | |own|own]; cbn [Fetch.handle].
    - destruct (code =? 200); [split; [exact Hc|reflexivity]|].
      rewrite Hcf by exact Hc. split; [exact Hc|reflexivity].
    - destruct (listening st); split; try exact Hc; reflexivity.
    - destruct (listening st) as [hdrs|]; [|split; [exact Hc|reflexivity]].
      cbn [Fetch.chunks]. unfold finish_decoded.
      destruct (header_get hdrs (js "content-encoding")) as [enc|];
        [destruct (str_eqb enc (js "gzip")); [destruct (gunzip _)|
           destruct (str_eqb enc (js "deflate")); [destruct (inflate _)|]]|];
        rewrite Hcf by exact Hc; split; try exact Hc; reflexivity.
    - destruct (listening st); [|split; [exact Hc|reflexivity]].
      rewrite Hcf by exact Hc. split; [exact Hc|reflexivity].
    - rewrite Hcf by exact Hc. split; [exact Hc|reflexivity].
    - destruct (own && _); [rewrite Hcf by exact Hc|]; split; try exact Hc; reflexivity.
    - destruct (own && _); [rewrite Hcf by exact Hc|]; split; try exact Hc; reflexivity. }
  rewrite IH by exact H1. exact H2.
Qed.

Lemma non_200_fails n code hdrs rest :
  code <> 200 ->
  attempt_outcome n (EvResponse code hdrs :: rest) = Some (0, true, DUndefined).
Proof.
  intros Hc. unfold Fetch.attempt_outcome, Fetch.run_attempt.
  cbn [fold_left Fetch.handle]. apply Z.eqb_neq in Hc. rewrite Hc.
  rewrite fold_handle_finished; reflexivity.
Qed.

Lemma nth_head_tail (script : list (list net_event)) :
  nth 0 script [] = default [] (head script)
  /\ forall k, nth (S k) script [] = nth k (tail script) [].
Proof. destruct script; split; try reflexivity; intros []; reflexivity. Qed.

(** What [retry] adds to the trace. *)
Lemma retry_shape times : forall n script hdrs tr,
  exists l,
    retry times n script hdrs tr = tr ++ l
    /\ (length (List.filter is_callback l) <= 1)%nat
    /\ (length (List.filter is_request l) <= times)%nat
    /\ (forall k ms, In (TRequest k ms) l ->
          (n <= k < n + times)%nat /\ ms = requestTimeout cfg * 1000 * Z.of_nat k)
    /\ ((0 < times)%nat ->
        exists l', l = TRequest n (requestTimeout cfg * 1000 * Z.of_nat n) :: l')
    /\ ((forall k, (k < times)%nat ->
           (forall j, (j < k)%nat ->
              exists t d, attempt_outcome (n + j) (nth j script []) = Some (t, true, d)) ->
           attempt_outcome (n + k) (nth k script []) <> None) ->
        (0 < times)%nat -> length (List.filter is_callback l) = 1%nat)
    /\ ((forall k, (k < times)%nat ->
           exists t d, attempt_outcome (n + k) (nth k script []) = Some (t, true, d)) ->
        (0 < times)%nat ->
        length (List.filter is_request l) = times
        /\ exists l' h, l = l' ++ [TCallback (DBuffer []) h]).
Proof.
  induction times as [|times IH]; intros n script hdrs tr.
  - exists []. simpl. rewrite app_nil_r.
    repeat split; try lia; try (intros; lia); intros k ms [].
  - cbn [Fetch.retry].
    set (evs := default [] (head script)).
    destruct (run_attempt_trace n hdrs tr evs) as (q & Etr & Hq).
    rewrite run_attempt_outcome.
    destruct (nth_head_tail script) as [Hn0 HnS]. fold evs in Hn0.
    destruct (attempt_outcome n evs) as [[[t m] d]|] eqn:Eo.
    + destruct (m && negb (Nat.eqb times 0)) eqn:Em.
      * (* the attempt failed and attempts are left *)
        apply andb_true_iff in Em as [-> Ht]. apply negb_true_iff, Nat.eqb_neq in Ht.
        destruct (IH (S n) (tail script)
                     (responseHeaders (run_attempt n hdrs tr evs))
                     (trace (run_attempt n hdrs tr evs)))
          as (l & El & Hcb & Hrq & Hin & Hfirst & Hone & Hall).
        exists (TRequest n (requestTimeout cfg * 1000 * Z.of_nat n) :: q ++ l).
        destruct Hq as [Hq1 Hq2].
        assert (List.filter is_callback (TRequest n (requestTimeout cfg * 1000 * Z.of_nat n) :: q ++ l)
                = List.filter is_callback l) as Fc.
        { cbn [List.filter is_callback]. rewrite List.filter_app, Hq2. reflexivity. }
        assert (List.filter is_request (TRequest n (requestTimeout cfg * 1000 * Z.of_nat n) :: q ++ l)
                = TRequest n (requestTimeout cfg * 1000 * Z.of_nat n) :: List.filter is_request l) as Fr.
        { cbn [List.filter is_request]. rewrite List.filter_app, Hq1. reflexivity. }
        rewrite Fc, Fr.
        split; [rewrite El, Etr, <- app_assoc; reflexivity|].
        split; [exact Hcb|]. split; [simpl; lia|].
        split.
        { intros k ms [Hk|Hk].
          - injection Hk as <- <-. split; [lia|reflexivity].
          - apply in_app_or in Hk as [Hk|Hk].
            + exfalso. exact (quiet_no_request q k ms (conj Hq1 Hq2) Hk).
            + apply Hin in Hk as [Hk ->]. split; [lia|reflexivity]. }
        split; [intros _; eauto|].
        split.
        { intros Hc _. apply Hone; [|lia].
          intros k Hk Hprev. specialize (Hc (S k) ltac:(lia)).
          rewrite HnS in Hc. replace (S n + k)%nat with (n + S k)%nat by lia.
          apply Hc. intros [|j] Hj.
          - rewrite Hn0, Nat.add_0_r, Eo. eauto.
          - rewrite HnS. replace (n + S j)%nat with (S n + j)%nat by lia.
            apply Hprev. lia. }
        { intros Hf _.
          destruct Hall as [Hlen (l' & h & ->)]; [|lia|].
          - intros k Hk. specialize (Hf (S k) ltac:(lia)).
            rewrite HnS in Hf. replace (S n + k)%nat with (n + S k)%nat by lia. exact Hf.
          - split; [simpl; lia|].
            exists (TRequest n (requestTimeout cfg * 1000 * Z.of_nat n) :: q ++ l'), h.
            simpl. rewrite app_assoc. reflexivity. }
      * (* last attempt, or success: the final callback *)
        exists (TRequest n (requestTimeout cfg * 1000 * Z.of_nat n)
                  :: q ++ (if m then [TPrintErr] else [])
                  ++ [TCallback (data_or_empty d)
                        (responseHeaders (run_attempt n hdrs tr evs))]).
        destruct Hq as [Hq1 Hq2].
        assert (forall x, List.filter is_callback
                  (TRequest n (requestTimeout cfg * 1000 * Z.of_nat n)
                     :: q ++ (if m then [TPrintErr] else []) ++ [TCallback x
                        (responseHeaders (run_attempt n hdrs tr evs))])
                = [TCallback x (responseHeaders (run_attempt n hdrs tr evs))]) as Fc.
        { intros x. cbn [List.filter is_callback]. rewrite !List.filter_app, Hq2.
          destruct m; reflexivity. }
        assert (forall x, List.filter is_request
                  (TRequest n (requestTimeout cfg * 1000 * Z.of_nat n)
                     :: q ++ (if m then [TPrintErr] else []) ++ [TCallback x
                        (responseHeaders (run_attempt n hdrs tr evs))])
                = [TRequest n (requestTimeout cfg * 1000 * Z.of_nat n)]) as Fr.
        { intros x. cbn [List.filter is_request]. rewrite !List.filter_app, Hq1.
          destruct m; reflexivity. }
        rewrite Fc, Fr.
        split; [rewrite Etr, <- !app_assoc; reflexivity|].
        split; [simpl; lia|]. split; [simpl; lia|].
        split.
        { intros k ms [Hk|Hk].
          - injection Hk as <- <-. split; [lia|reflexivity].
          - exfalso. apply in_app_or in Hk as [Hk|Hk].
            + exact (quiet_no_request q k ms (conj Hq1 Hq2) Hk).
            + destruct m; simpl in Hk; intuition discriminate. }
        split; [intros _; eauto|].
        split; [intros _ _; reflexivity|].
        intros Hf _.
        destruct (Hf 0%nat ltac:(lia)) as (t' & d' & Hf0).
        rewrite Hn0, Nat.add_0_r, Eo in Hf0. injection Hf0 as -> -> ->.
        apply andb_false_iff in Em as [Em|Em]; [discriminate|].
        apply negb_false_iff, Nat.eqb_eq in Em. subst times.
        split; [reflexivity|].
        rewrite (attempt_failure_data n evs _ _ Eo). cbn [data_or_empty].
        exists (TRequest n (requestTimeout cfg * 1000 * Z.of_nat n) :: q ++ [TPrintErr]), 
               (responseHeaders (run_attempt n hdrs tr evs)).
        simpl. rewrite <- app_assoc. reflexivity.
    + (* the attempt never completes *)
      exists (TRequest n (requestTimeout cfg * 1000 * Z.of_nat n) :: q).
      destruct Hq as [Hq1 Hq2].
      split; [exact Etr|].
      cbn [List.filter is_callback is_request]. rewrite Hq1, Hq2.
      split; [simpl; lia|]. split; [simpl; lia|].
      split.
      { intros k ms [Hk|Hk].
        - injection Hk as <- <-. split; [lia|reflexivity].
        - exfalso. exact (quiet_no_request q k ms (conj Hq1 Hq2) Hk). }
      split; [intros _; eauto|].
      split.
      { intros Hc _. exfalso. apply (Hc 0%nat ltac:(lia)); [intros j Hj; lia|].
        rewrite Hn0, Nat.add_0_r. exact Eo. }
      { intros Hf _. exfalso. destruct (Hf 0%nat ltac:(lia)) as (t' & d' & Hf0).
        rewrite Hn0, Nat.add_0_r, Eo in Hf0. discriminate. }
Qed.

Lemma retry_after_failure times n script hdrs tr t d :
  attempt_outcome n (nth 0 script []) = Some (t, true, d) ->
  exists hdrs' tr' l,
    retry (S (S times)) n script hdrs tr = retry (S times) (S n) (tail script) hdrs' tr'
    /\ retry (S times) (S n) (tail script) hdrs' tr'
       = tr' ++ TRequest (S n) (requestTimeout cfg * 1000 * Z.of_nat (S n)) :: l.
Proof.
  intros Ho. destruct (nth_head_tail script) as [Hn0 _]. rewrite Hn0 in Ho.
  exists (responseHeaders (run_attempt n hdrs tr (default [] (head script)))),
         (trace (run_attempt n hdrs tr (default [] (head script)))).
  destruct (retry_shape (S times) (S n) (tail script)
              (responseHeaders (run_attempt n hdrs tr (default [] (head script))))
              (trace (run_attempt n hdrs tr (default [] (head script)))))
    as (l & El & _ & _ & _ & Hfirst & _).
  destruct (Hfirst ltac:(lia)) as (l' & ->).
  exists l'. split; [|exact El].
  cbn [Fetch.retry]. rewrite run_attempt_outcome, Ho. reflexivity.
Qed.

Lemma Ret_inj {A} (x y : A) : Ret x = Ret y -> x = y.
Proof. intros H. injection H as H. exact H. Qed.

Lemma downloadContent_ret url script tr :
  downloadContent gunzip inflate cfg url script = Ret tr ->
  tr = retry 3 1 script [] [].
Proof.
  unfold Fetch.downloadContent. destruct (URI.decodeURI url); [|discriminate].
  unfold bind. intros H. apply Ret_inj in H. symmetry. exact H.
Qed.

(** C3: [downloadContent] issues at most three requests; request
    number [n] is given the timeout [requestTimeout * 1000 * n]
    milliseconds; an attempt answered with a status other than 200 is
    followed by another attempt while fewer than three were made; and when
    all three attempts fail the callback is still invoked, with an empty
    buffer. *)
Theorem downloadContent_retry_policy (url : jsstring)
  (script : list (list net_event)) (tr : list trace_event) :
  downloadContent gunzip inflate cfg url script = Ret tr ->
  (length (List.filter is_request tr) <= 3)%nat
  /\ (forall n ms, In (TRequest n ms) tr ->
        (1 <= n <= 3)%nat /\ ms = requestTimeout cfg * 1000 * Z.of_nat n)
  /\ (forall k, (k < 2)%nat ->
        (forall j, (j <= k)%nat ->
           exists code hdrs rest,
             nth j script [] = EvResponse code hdrs :: rest /\ code <> 200) ->
        In (TRequest (k + 2) (requestTimeout cfg * 1000 * Z.of_nat (k + 2))) tr)
  /\ ((forall k, (k < 3)%nat ->
         exists t d, attempt_outcome (1 + k) (nth k script []) = Some (t, true, d)) ->
      length (List.filter is_request tr) = 3%nat
      /\ exists l h, tr = l ++ [TCallback (DBuffer []) h]).
Proof.
  intros Hd. apply downloadContent_ret in Hd. subst tr.
  destruct (retry_shape 3 1 script [] []) as (l & El & _ & Hrq & Hin & _ & _ & Hall).
  cbn [app] in El. rewrite El.
  split; [exact Hrq|]. split; [|split].
  - intros n ms H. apply Hin in H as [H ->]. split; [lia|reflexivity].
  - intros k Hk Hbad.
    assert (forall j, (j <= k)%nat ->
              attempt_outcome (1 + j) (nth j script []) = Some (0, true, DUndefined)) as Hf.
    { intros j Hj. destruct (Hbad j Hj) as (code & hdrs & rest & -> & Hc).
      apply non_200_fails, Hc. }
    rewrite <- El.
    destruct (retry_after_failure 1 1 script [] [] _ _ (Hf 0%nat ltac:(lia)))
      as (h1 & t1 & l1 & E1 & E1').
    destruct k as [|[|k]]; [| |lia].
    + rewrite E1, E1'. apply in_or_app. right. left. reflexivity.
    + destruct (nth_head_tail script) as [_ HnS].
      pose proof (Hf 1%nat ltac:(lia)) as H1. rewrite HnS in H1.
      destruct (retry_after_failure 0 2 (tail script) h1 t1 _ _ H1)
        as (h2 & t2 & l2 & E2 & E2').
      rewrite E1, E2, E2'. apply in_or_app. right. left. reflexivity.
  - intros Hf. apply Hall; [exact Hf|lia].
Qed.


End Facts.

Example downloadContent_errors_trace :
  downloadContent no_decoder no_decoder example_cfg
    (js "https://en.wikipedia.org/wiki/Paris") example_script_errors
  = Ret [TRequest 1 60000; TSocketDestroy; TPrintErr; TAbort; TSetTimeout 0;
         TRequest 2 120000; TSocketDestroy; TPrintErr; TAbort; TSetTimeout 0;
         TRequest 3 180000; TSocketDestroy; TPrintErr; TAbort; TSetTimeout 0;
         TPrintErr; TCallback (DBuffer []) []].
Proof. vm_compute. reflexivity. Qed.

Example downloadContent_recovers_trace :
  downloadContent no_decoder no_decoder example_cfg
    (js "https://en.wikipedia.org/wiki/Paris") example_script_recovers
  = Ret [TRequest 1 60000; TPrintErr; TSocketEnd; TPrintErr; TAbort; TSetTimeout 10000;
         TRequest 2 120000; TSocketDestroy; TPrintErr; TAbort; TSetTimeout 0;
         TRequest 3 180000; TSetTimeout 0; TSocketDestroy;
         TCallback (DBuffer [60; 112; 62; 104; 105]) [(js "content-type", js "text/html")]].
Proof. vm_compute. reflexivity. Qed.

(** The retry policy on the script of three error statuses. *)
Lemma downloadContent_retry_policy_witness :
  (length (List.filter is_request
     [TRequest 1 60000; TSocketDestroy; TPrintErr; TAbort; TSetTimeout 0;
      TRequest 2 120000; TSocketDestroy; TPrintErr; TAbort; TSetTimeout 0;
      TRequest 3 180000; TSocketDestroy; TPrintErr; TAbort; TSetTimeout 0;
      TPrintErr; TCallback (DBuffer []) []]) <= 3)%nat.
Proof.
  apply (downloadContent_retry_policy no_decoder no_decoder example_cfg
           (js "https://en.wikipedia.org/wiki/Paris") example_script_errors).
  vm_compute. reflexivity.
Defined.



End FetchFacts.

(* ================================================================== *)
(** * The media download cache *)
(* ================================================================== *)

Module MediaCacheFacts.
Import Media MediaCache.

Example media_ref_examples :
  media_ref example_url_120 = Ret (js "Tour_Eiffel.jpg", 120)
  /\ media_ref example_url_300 = Ret (js "Tour_Eiffel.jpg", 300).
Proof. split; vm_compute; reflexivity. Qed.

Example descending_widths_one_download :
  (fun w => (http_gets (effects w), mediaIds w !! js "Tour_Eiffel.jpg"))
    <$> match process Node.node example_cfg example_fetch
                [example_url_300; example_url_120] empty_world with
        | Ret w => Some w
        | Throw _ => None
        end
  = Some ([example_url_300], Some 300).
Proof. vm_compute. reflexivity. Qed.

Section Facts.
Variable lib : NodeLib.
Variable cfg : Config.
Variable fetch : jsstring -> Fetch.bytes.





End Facts.



End MediaCacheFacts.

(* ================================================================== *)
(** * The rewriting of a section *)
(* ================================================================== *)

Module RewriterFacts.
Import Dom Rewriter Notions.

Example innerHTML_example :
  innerHTML example_two_noprint
  = html "<div class='noprint'>A</div><div class='noprint'>B</div><p>text</p>".
Proof. vm_compute. reflexivity. Qed.

(** ** Facts about the document operations *)

Lemma ids_elem i tag a kids sibs :
  ids (FElem i tag a kids sibs) = i :: ids kids ++ ids sibs.
Proof. unfold ids. cbn [elements map el_id]. rewrite map_app. reflexivity. Qed.

Lemma ids_text t sibs : ids (FText t sibs) = ids sibs.
Proof. reflexivity. Qed.

Lemma find_app_first {A} (p : A -> bool) (l1 l2 : list A) :
  find p (l1 ++ l2) = match find p l1 with
                      | Some x => Some x
                      | None => find p l2
                      end.
Proof.
  induction l1 as [|x l1 IH]; [reflexivity|].
  cbn [app find]. destruct (p x); [reflexivity|exact IH].
Qed.

Lemma lookup_element_elem id i tag a kids sibs :
  lookup_element id (FElem i tag a kids sibs)
  = if Nat.eqb i id then Some (mkElement i tag a kids)
    else match lookup_element id kids with
         | Some e => Some e
         | None => lookup_element id sibs
         end.
Proof.
  unfold lookup_element. cbn [elements find el_id].
  destruct (Nat.eqb i id); [reflexivity|]. apply find_app_first.
Qed.





Lemma removeNode_subset id x f : In x (ids (removeNode id f)) -> In x (ids f).
Proof.
  induction f as [|t sibs IH|i tag a kids IHk sibs IHs]; cbn [removeNode].
  - intros [].
  - rewrite !ids_text. exact IH.
  - rewrite ids_elem. destruct (Nat.eqb i id).
    + intros H. right. apply in_or_app. right. apply IHs, H.
    + rewrite ids_elem. intros [H|H]; [left; exact H|right].
      apply in_app_or in H as [H|H]; apply in_or_app; [left; apply IHk, H|right; apply IHs, H].
Qed.

Lemma update_attrs_ids id g f : ids (update_attrs id g f) = ids f.
Proof.
  induction f as [|t sibs IH|i tag a kids IHk sibs IHs]; cbn [update_attrs].
  - reflexivity.
  - rewrite !ids_text. exact IH.
  - rewrite !ids_elem, IHk, IHs. reflexivity.
Qed.

Lemma lookup_update_attrs id g f :
  lookup_element id (update_attrs id g f)
  = (fun e => mkElement (el_id e) (el_tag e) (g (el_attrs e))
                        (update_attrs id g (el_kids e)))
      <$> lookup_element id f.
Proof.
  induction f as [|t sibs IH|i tag a kids IHk sibs IHs]; cbn [update_attrs].
  - reflexivity.
  - exact IH.
  - rewrite !lookup_element_elem. destruct (Nat.eqb i id) eqn:E; [reflexivity|].
    rewrite IHk, IHs. destruct (lookup_element id kids); reflexivity.
Qed.

Lemma getAttribute_update id g name f :
  getAttribute id name (update_attrs id g f)
  = match lookup_element id f with
    | Some e => attr_get (g (el_attrs e)) name
    | None => None
    end.
Proof.
  unfold getAttribute. rewrite lookup_update_attrs.
  destruct (lookup_element id f); reflexivity.
Qed.

Lemma str_eqb_refl s : str_eqb s s = true.
Proof. apply str_eqb_eq. reflexivity. Qed.

Lemma attr_get_set a name value : attr_get (attr_set a name value) name = Some value.
Proof.
  unfold attr_get. induction a as [|[k v] t IH]; cbn [attr_set find fst].
  - rewrite str_eqb_refl. reflexivity.
  - destruct (str_eqb k name) eqn:E; cbn [find fst]; rewrite E; [reflexivity|exact IH].
Qed.




(** ** Well-formed documents *)















Section ImageDecision.
Variable lib : NodeLib.
Variable cfg : Config.







End ImageDecision.

Example rewrite_with_pictures :
  transformSection_dom Node.node example_cfg example_images
  = Done (FElem 2 (js "img")
            [(js "class", js "mwe-math-fallback-image-inline"); (js "src", js "m/abcdef.png")]
            FNil
            (FElem 3 (js "img") [(js "src", js "m/Seine.jpg")] FNil
               (FElem 4 (js "img") [(js "src", js "m/Louvre.jpg")] FNil FNil)),
          [js "http://upload.wikimedia.org/math/a/b/abcdef.png";
           js "http://upload.wikimedia.org/wikipedia/commons/thumb/a/ab/Seine.jpg/120px-Seine.jpg";
           js "http://upload.wikimedia.org/wikipedia/commons/thumb/c/cd/Louvre.jpg/120px-Louvre.jpg"]).
Proof. vm_compute. reflexivity. Qed.

(** Without pictures: the formula image is kept, rewritten and
    unwrapped and the first photograph is deleted; the collection of
    images is shorter by then, and the loop ends without having processed
    the second photograph. *)
Example rewrite_without_pictures :
  transformSection Node.node example_cfg_nopic example_images
  = Done (html ("<img class='mwe-math-fallback-image-inline' src='m/abcdef.png'>"
                ++ "<img src='//upload.wikimedia.org/wikipedia/commons/thumb/c/cd/Louvre.jpg/120px-Louvre.jpg'>")).
Proof. vm_compute. reflexivity. Qed.

Example two_maps_one_left :
  transformSection Node.node example_cfg_nopic example_two_maps
  = Done (html "<map name='b'></map>").
Proof. vm_compute. reflexivity. Qed.




End RewriterFacts.
(* ================================================================== *)
(** * Escaping and unescaping *)
(* ================================================================== *)

Module EscapeFacts.
Import URI Util Shape.

(** A property of all the values below [n], checked by running through
    them. *)
Lemma below_forallb (P : Z -> bool) (n : nat) :
  forallb (fun k => P (Z.of_nat k)) (seq 0 n) = true ->
  forall b, 0 <= b < Z.of_nat n -> P b = true.
Proof.
  intros H b Hb. rewrite forallb_forall in H.
  specialize (H (Z.to_nat b)). rewrite Z2Nat.id in H by lia.
  apply H. apply in_seq. lia.
Qed.

Lemma hex_value_digit n : 0 <= n < 16 -> hex_value (hex_digit n) = Some n.
Proof.
  intros H.
  pose proof (below_forallb
    (fun n => match hex_value (hex_digit n) with
              | Some m => m =? n
              | None => false
              end) 16 eq_refl n H) as E.
  cbv beta in E. destruct (hex_value (hex_digit n)); [|discriminate].
  apply Z.eqb_eq in E. congruence.
Qed.

Lemma bind_ret {A B} (m : outcome A) (f : A -> outcome B) a :
  m = Ret a -> bind m f = f a.
Proof. intros ->. reflexivity. Qed.

Lemma percent_tokens_escape b r :
  0 <= b < 256 ->
  percent_tokens (percent_escape b ++ r)
  = bind (percent_tokens r) (fun ts => Ret (oct b :: ts)).
Proof.
  intros Hb. unfold percent_escape, oct. cbn [app percent_tokens].
  change (37 =? 37) with true. cbv iota.
  assert (0 <= Z.shiftr b 4 < 16) as H1.
  { rewrite Z.shiftr_div_pow2 by lia. change (2 ^ 4) with 16.
    split; [apply Z.div_pos; lia | apply Z.div_lt_upper_bound; lia]. }
  assert (0 <= Z.land b 15 < 16) as H2.
  { change 15 with (Z.ones 4). rewrite Z.land_ones by lia.
    change (2 ^ 4) with 16. apply Z.mod_pos_bound. lia. }
  rewrite (hex_value_digit _ H1), (hex_value_digit _ H2).
  assert (16 * Z.shiftr b 4 + Z.land b 15 = b) as ->; [|reflexivity].
  rewrite Z.shiftr_div_pow2 by lia. change 15 with (Z.ones 4).
  rewrite Z.land_ones by lia. change (2 ^ 4) with 16.
  symmetry. apply Z.div_mod. lia.
Qed.

Lemma percent_tokens_escapes bs r :
  Forall (fun b => 0 <= b < 256) bs ->
  percent_tokens (concat (map percent_escape bs) ++ r)
  = bind (percent_tokens r) (fun ts => Ret (map oct bs ++ ts)).
Proof.
  induction 1 as [|b bs Hb _ IH]; cbn [map concat app].
  - destruct (percent_tokens r); reflexivity.
  - rewrite <- app_assoc, (percent_tokens_escape _ _ Hb), IH.
    destruct (percent_tokens r); reflexivity.
Qed.

Lemma percent_tokens_literal c r :
  c <> 37 ->
  percent_tokens (c :: r) = bind (percent_tokens r) (fun ts => Ret (Lit c :: ts)).
Proof.
  intros H. cbn [percent_tokens]. destruct (Z.eqb_spec c 37); [contradiction|reflexivity].
Qed.

Local Abbreviation none := (fun _ : code_unit => false).

Lemma lead2 q : 0 <= q < 32 -> Z.land (192 + q) 31 = q.
Proof.
  intros H. apply Z.eqb_eq.
  exact (below_forallb (fun q => Z.land (192 + q) 31 =? q) 32 eq_refl q H).
Qed.

Lemma lead3 q : 0 <= q < 16 -> Z.land (224 + q) 15 = q.
Proof.
  intros H. apply Z.eqb_eq.
  exact (below_forallb (fun q => Z.land (224 + q) 15 =? q) 16 eq_refl q H).
Qed.

Lemma lead4 q : 0 <= q < 8 -> Z.land (240 + q) 7 = q.
Proof.
  intros H. apply Z.eqb_eq.
  exact (below_forallb (fun q => Z.land (240 + q) 7 =? q) 8 eq_refl q H).
Qed.

Lemma cont_byte r : 0 <= r < 64 -> is_cont (128 + r) = true /\ Z.land (128 + r) 63 = r.
Proof.
  intros H.
  pose proof (below_forallb
    (fun r => is_cont (128 + r) && (Z.land (128 + r) 63 =? r)) 64 eq_refl r H) as E.
  cbv beta in E. apply andb_true_iff in E as [E1 E2]. apply Z.eqb_eq in E2. tauto.
Qed.

Lemma low6 v : 0 <= v -> 0 <= Z.land v 63 < 64 /\ Z.land v 63 = v mod 64.
Proof.
  intros H. change 63 with (Z.ones 6). rewrite Z.land_ones by lia.
  change (2 ^ 6) with 64. split; [apply Z.mod_pos_bound; lia|reflexivity].
Qed.

Ltac decide_ltb :=
  repeat match goal with
         | |- context [?a <? ?b] => destruct (Z.ltb_spec a b); try lia
         | |- context [?a <=? ?b] => destruct (Z.leb_spec a b); try lia
         end.

Lemma utf8_tokens_1 b ts :
  0 <= b < 128 ->
  utf8_tokens none (oct b :: ts) = bind (utf8_tokens none ts) (fun s => Ret (b :: s)).
Proof.
  intros H. unfold oct. cbn [utf8_tokens]. decide_ltb. reflexivity.
Qed.

Lemma utf8_tokens_2 v ts :
  128 <= v < 2048 ->
  utf8_tokens none (map oct (utf8_of_code_point v) ++ ts)
  = bind (utf8_tokens none ts) (fun s => Ret (v :: s)).
Proof.
  intros H. unfold utf8_of_code_point. decide_ltb.
  destruct (low6 v ltac:(lia)) as [Hr Er].
  assert (Z.shiftr v 6 = v / 64) as Eq by (rewrite Z.shiftr_div_pow2 by lia; reflexivity).
  assert (2 <= v / 64 < 32) as Hq
    by (split; [apply Z.div_le_lower_bound; lia | apply Z.div_lt_upper_bound; lia]).
  rewrite Eq. set (q := v / 64) in *. set (r := Z.land v 63) in *.
  unfold oct. cbn [map app utf8_tokens].
  destruct (cont_byte r Hr) as [-> ->]. rewrite (lead2 q) by lia.
  assert (q * 64 + r = v) as -> by (subst q; rewrite Er; pose proof (Z.div_mod v 64); lia).
  cbn [andb]. decide_ltb. reflexivity.
Qed.

Lemma utf8_tokens_3 v ts :
  2048 <= v < 65536 -> is_high v = false -> is_low v = false ->
  utf8_tokens none (map oct (utf8_of_code_point v) ++ ts)
  = bind (utf8_tokens none ts) (fun s => Ret (v :: s)).
Proof.
  intros H Hh Hl. unfold utf8_of_code_point. decide_ltb.
  destruct (low6 v ltac:(lia)) as [Hr Er].
  assert (Z.shiftr v 6 = v / 64) as E6 by (rewrite Z.shiftr_div_pow2 by lia; reflexivity).
  assert (Z.shiftr v 12 = v / 4096) as E12 by (rewrite Z.shiftr_div_pow2 by lia; reflexivity).
  assert (0 <= v / 64) as H6 by (apply Z.div_pos; lia).
  destruct (low6 (v / 64) H6) as [Hm Em].
  assert (0 <= v / 4096 < 16) as Hq
    by (split; [apply Z.div_pos; lia | apply Z.div_lt_upper_bound; lia]).
  rewrite E6, E12.
  set (q := v / 4096) in *. set (m := Z.land (v / 64) 63) in *. set (r := Z.land v 63) in *.
  unfold oct. cbn [map app utf8_tokens].
  destruct (cont_byte r Hr) as [-> ->]. destruct (cont_byte m Hm) as [-> ->].
  rewrite (lead3 q) by lia.
  assert (q * 4096 + m * 64 + r = v) as ->.
  { subst q. rewrite Em, Er.
    pose proof (Z.div_mod v 64). pose proof (Z.div_mod (v / 64) 64).
    assert (v / 64 / 64 = v / 4096) by (rewrite Z.div_div by lia; reflexivity). lia. }
  assert ((55296 <=? v) && (v <=? 57343) = false) as ->.
  { unfold is_high, is_low in Hh, Hl.
    destruct (Z.leb_spec 55296 v); destruct (Z.leb_spec v 57343); try reflexivity.
    destruct (Z.leb_spec v 56319); destruct (Z.leb_spec 56320 v);
      cbn in Hh, Hl; try discriminate; lia. }
  cbn [andb negb]. decide_ltb. reflexivity.
Qed.

Lemma utf8_tokens_4 h l ts :
  is_high h = true -> is_low l = true ->
  utf8_tokens none (map oct (utf8_of_code_point (code_point_of_pair h l)) ++ ts)
  = bind (utf8_tokens none ts) (fun s => Ret (h :: l :: s)).
Proof.
  intros Hh Hl. unfold is_high in Hh. unfold is_low in Hl.
  apply andb_true_iff in Hh as [Hh1 Hh2]. apply andb_true_iff in Hl as [Hl1 Hl2].
  apply Z.leb_le in Hh1, Hh2, Hl1, Hl2.
  set (v := code_point_of_pair h l).
  assert (65536 <= v <= 1114111) as H by (subst v; unfold code_point_of_pair; lia).
  unfold utf8_of_code_point. decide_ltb.
  destruct (low6 v ltac:(lia)) as [Hr Er].
  assert (Z.shiftr v 6 = v / 64) as E6 by (rewrite Z.shiftr_div_pow2 by lia; reflexivity).
  assert (Z.shiftr v 12 = v / 4096) as E12 by (rewrite Z.shiftr_div_pow2 by lia; reflexivity).
  assert (Z.shiftr v 18 = v / 262144) as E18 by (rewrite Z.shiftr_div_pow2 by lia; reflexivity).
  assert (0 <= v / 64) as H6 by (apply Z.div_pos; lia).
  assert (0 <= v / 4096) as H12 by (apply Z.div_pos; lia).
  destruct (low6 (v / 64) H6) as [Hm Em]. destruct (low6 (v / 4096) H12) as [Hn En].
  assert (0 <= v / 262144 < 8) as Hq
    by (split; [apply Z.div_pos; lia | apply Z.div_lt_upper_bound; lia]).
  rewrite E6, E12, E18.
  set (q := v / 262144) in *. set (n := Z.land (v / 4096) 63) in *.
  set (m := Z.land (v / 64) 63) in *. set (r := Z.land v 63) in *.
  unfold oct. cbn [map app utf8_tokens].
  destruct (cont_byte r Hr) as [-> ->]. destruct (cont_byte m Hm) as [-> ->].
  destruct (cont_byte n Hn) as [-> ->]. rewrite (lead4 q) by lia.
  assert (q * 262144 + n * 4096 + m * 64 + r = v) as ->.
  { subst q. rewrite En, Em, Er.
    pose proof (Z.div_mod v 64). pose proof (Z.div_mod (v / 64) 64).
    pose proof (Z.div_mod (v / 4096) 64).
    assert (v / 64 / 64 = v / 4096) by (rewrite Z.div_div by lia; reflexivity).
    assert (v / 4096 / 64 = v / 262144) by (rewrite Z.div_div by lia; reflexivity). lia. }
  cbn [andb]. decide_ltb.
  assert (units_of_code_point v = [h; l]) as ->; [|reflexivity].
  unfold units_of_code_point. decide_ltb.
  assert (v - 65536 = (h - 55296) * 1024 + (l - 56320)) as ->
    by (subst v; unfold code_point_of_pair; lia).
  rewrite Z.shiftr_div_pow2 by lia. change 1023 with (Z.ones 10).
  rewrite Z.land_ones by lia. change (2 ^ 10) with 1024.
  rewrite Z.div_add_l by lia. rewrite Z.div_small by lia.
  rewrite (Z.add_comm ((h - 55296) * 1024)), Z.mod_add by lia.
  rewrite Z.mod_small by lia.
  f_equal; [lia|]. f_equal. lia.
Qed.

Lemma utf8_bytes v :
  0 <= v <= 1114111 -> Forall (fun b => 0 <= b < 256) (utf8_of_code_point v).
Proof.
  intros H. unfold utf8_of_code_point.
  assert (forall k, 0 <= Z.land k 63 < 64) as Hl.
  { intros k. change 63 with (Z.ones 6). rewrite Z.land_ones by lia.
    apply Z.mod_pos_bound. reflexivity. }
  assert (forall k, 0 <= Z.shiftr v k) as Hs by (intros k; apply Z.shiftr_nonneg; lia).
  decide_ltb; repeat constructor;
    try (pose proof (Hl v); pose proof (Hl (Z.shiftr v 6));
         pose proof (Hl (Z.shiftr v 12)); lia);
    try (pose proof (Hs 6); pose proof (Hs 12); pose proof (Hs 18); lia).
  - rewrite Z.shiftr_div_pow2 by lia. change (2 ^ 6) with 64.
    assert (v / 64 < 32) by (apply Z.div_lt_upper_bound; lia). lia.
  - rewrite Z.shiftr_div_pow2 by lia. change (2 ^ 12) with 4096.
    assert (v / 4096 < 16) by (apply Z.div_lt_upper_bound; lia). lia.
  - rewrite Z.shiftr_div_pow2 by lia. change (2 ^ 18) with 262144.
    assert (v / 262144 < 8) by (apply Z.div_lt_upper_bound; lia). lia.
Qed.

Lemma unreserved_not_percent c : uri_unreserved c = true -> c <> 37.
Proof. intros H ->. discriminate. Qed.

Lemma utf8_tokens_unit c ts :
  0 <= c < 65536 -> is_high c = false -> is_low c = false ->
  utf8_tokens none (map oct (utf8_of_code_point c) ++ ts)
  = bind (utf8_tokens none ts) (fun s => Ret (c :: s)).
Proof.
  intros H Hh Hl.
  destruct (Z.ltb_spec c 128); [|destruct (Z.ltb_spec c 2048)].
  - assert (utf8_of_code_point c = [c]) as ->
      by (unfold utf8_of_code_point; decide_ltb; reflexivity).
    apply utf8_tokens_1. lia.
  - apply utf8_tokens_2. lia.
  - apply utf8_tokens_3; [lia|assumption..].
Qed.

(** The two passes of [Decode] on an encoded string *)
Lemma encoded_tokens s : forall e,
  code_units s -> encodeURIComponent s = Ret e ->
  exists ts, percent_tokens e = Ret ts /\ utf8_tokens none ts = Ret s.
Proof.
  induction s as [s IH] using (induction_ltof1 _ (@length _)); unfold ltof in IH.
  intros e Hs He. destruct s as [|c t].
  - injection He as <-. exists []. split; reflexivity.
  - apply Forall_cons in Hs as [Hc Ht]. cbn [encodeURIComponent] in He.
    destruct (uri_unreserved c) eqn:Hu.
    + destruct (encodeURIComponent t) as [r|] eqn:Er; [|discriminate].
      injection He as <-.
      destruct (IH t ltac:(simpl; lia) r Ht Er) as (ts & E1 & E2).
      exists (Lit c :: ts). split.
      * rewrite percent_tokens_literal by (apply unreserved_not_percent, Hu).
        rewrite E1. reflexivity.
      * cbn [utf8_tokens]. rewrite E2. reflexivity.
    + destruct (is_low c) eqn:Hl; [discriminate|].
      destruct (is_high c) eqn:Hh.
      * destruct t as [|l t']; [discriminate|].
        destruct (is_low l) eqn:Hl'; [|discriminate].
        destruct (encodeURIComponent t') as [r|] eqn:Er; [|discriminate].
        injection He as <-. apply Forall_cons in Ht as [_ Ht'].
        destruct (IH t' ltac:(simpl; lia) r Ht' Er) as (ts & E1 & E2).
        exists (map oct (utf8_of_code_point (code_point_of_pair c l)) ++ ts). split.
        -- rewrite percent_tokens_escapes, E1; [reflexivity|].
           apply utf8_bytes. unfold is_high in Hh. unfold is_low in Hl'.
           apply andb_true_iff in Hh as [H1 H2]. apply andb_true_iff in Hl' as [H3 H4].
           apply Z.leb_le in H1, H2, H3, H4. unfold code_point_of_pair. lia.
        -- rewrite (utf8_tokens_4 c l ts Hh Hl'), E2. reflexivity.
      * destruct (encodeURIComponent t) as [r|] eqn:Er; [|discriminate].
        injection He as <-.
        destruct (IH t ltac:(simpl; lia) r Ht Er) as (ts & E1 & E2).
        exists (map oct (utf8_of_code_point c) ++ ts). split.
        -- rewrite percent_tokens_escapes, E1; [reflexivity|]. apply utf8_bytes. lia.
        -- rewrite (utf8_tokens_unit c ts Hc Hh Hl), E2. reflexivity.
Qed.

Lemma decode_encode s e :
  code_units s -> encodeURIComponent s = Ret e -> decodeURIComponent e = Ret s.
Proof.
  intros Hs He. destruct (encoded_tokens s e Hs He) as (ts & E1 & E2).
  unfold decodeURIComponent, Decode. rewrite E1. exact E2.
Qed.

Lemma hex_digit_safe n : 0 <= n < 16 -> url_safe (hex_digit n) = true.
Proof.
  intros H. exact (below_forallb (fun n => url_safe (hex_digit n)) 16 eq_refl n H).
Qed.

Lemma percent_escape_safe b :
  0 <= b < 256 -> Forall (fun c => url_safe c = true) (percent_escape b).
Proof.
  intros H. unfold percent_escape. repeat constructor.
  - apply hex_digit_safe. rewrite Z.shiftr_div_pow2 by lia. change (2 ^ 4) with 16.
    split; [apply Z.div_pos; lia | apply Z.div_lt_upper_bound; lia].
  - apply hex_digit_safe. change 15 with (Z.ones 4). rewrite Z.land_ones by lia.
    change (2 ^ 4) with 16. apply Z.mod_pos_bound. lia.
Qed.

Lemma escapes_safe bs :
  Forall (fun b => 0 <= b < 256) bs ->
  Forall (fun c => url_safe c = true) (concat (map percent_escape bs)).
Proof.
  induction 1 as [|b bs Hb _ IH]; cbn [map concat]; [constructor|].
  apply Forall_app. split; [apply percent_escape_safe, Hb|exact IH].
Qed.

Lemma pair_code_point h l :
  is_high h = true -> is_low l = true -> 65536 <= code_point_of_pair h l <= 1114111.
Proof.
  unfold is_high, is_low, code_point_of_pair. intros Hh Hl.
  apply andb_true_iff in Hh as [H1 H2]. apply andb_true_iff in Hl as [H3 H4].
  apply Z.leb_le in H1, H2, H3, H4. lia.
Qed.

(** What [encodeURIComponent] returns is made of unreserved characters
    and escapes. *)
Lemma encodeURIComponent_safe s : forall e,
  code_units s -> encodeURIComponent s = Ret e ->
  Forall (fun c => url_safe c = true) e.
Proof.
  induction s as [s IH] using (induction_ltof1 _ (@length _)); unfold ltof in IH.
  intros e Hs He. destruct s as [|c t].
  - injection He as <-. constructor.
  - apply Forall_cons in Hs as [Hc Ht]. cbn [encodeURIComponent] in He.
    destruct (uri_unreserved c) eqn:Hu.
    + destruct (encodeURIComponent t) as [r|] eqn:Er; [|discriminate].
      injection He as <-. constructor.
      * unfold url_safe. rewrite Hu. reflexivity.
      * apply (IH t); [simpl; lia|exact Ht|exact Er].
    + destruct (is_low c) eqn:Hl; [discriminate|].
      destruct (is_high c) eqn:Hh.
      * destruct t as [|l t']; [discriminate|].
        destruct (is_low l) eqn:Hl'; [|discriminate].
        destruct (encodeURIComponent t') as [r|] eqn:Er; [|discriminate].
        injection He as <-. apply Forall_cons in Ht as [_ Ht'].
        apply Forall_app. split.
        -- apply escapes_safe, utf8_bytes. pose proof (pair_code_point c l Hh Hl'). lia.
        -- apply (IH t'); [simpl; lia|exact Ht'|exact Er].
      * destruct (encodeURIComponent t) as [r|] eqn:Er; [|discriminate].
        injection He as <-. apply Forall_app. split.
        -- apply escapes_safe, utf8_bytes. lia.
        -- apply (IH t); [simpl; lia|exact Ht|exact Er].
Qed.

(** A string without surrogates is always accepted. *)
Lemma encodeURIComponent_no_surrogate s :
  no_surrogate s -> exists e, encodeURIComponent s = Ret e.
Proof.
  induction 1 as [|c t [Hh Hl] _ [r IH]]; [exists []; reflexivity|].
  cbn [encodeURIComponent]. rewrite IH, Hh, Hl.
  destruct (uri_unreserved c); eexists; reflexivity.
Qed.

(** Escaping goes through a concatenation of accepted strings. *)
Lemma encodeURIComponent_app a : forall b ea eb,
  encodeURIComponent a = Ret ea -> encodeURIComponent b = Ret eb ->
  encodeURIComponent (a ++ b) = Ret (ea ++ eb).
Proof.
  induction a as [a IH] using (induction_ltof1 _ (@length _)); unfold ltof in IH.
  intros b ea eb Ha Hb. destruct a as [|c t].
  - injection Ha as <-. exact Hb.
  - cbn [app encodeURIComponent] in *.
    destruct (uri_unreserved c).
    + destruct (encodeURIComponent t) as [r|] eqn:Er; [|discriminate].
      injection Ha as <-. rewrite (IH t ltac:(simpl; lia) b r eb Er Hb). reflexivity.
    + destruct (is_low c); [discriminate|].
      destruct (is_high c).
      * destruct t as [|l t']; [discriminate|]. cbn [app].
        destruct (is_low l); [|discriminate].
        destruct (encodeURIComponent t') as [r|] eqn:Er; [|discriminate].
        injection Ha as <-. rewrite (IH t' ltac:(simpl; lia) b r eb Er Hb).
        cbn [bind]. rewrite app_assoc. reflexivity.
      * destruct (encodeURIComponent t) as [r|] eqn:Er; [|discriminate].
        injection Ha as <-. rewrite (IH t ltac:(simpl; lia) b r eb Er Hb).
        cbn [bind]. rewrite app_assoc. reflexivity.
Qed.

Lemma decode_literal c r s :
  c <> 37 -> decodeURIComponent r = Ret s -> decodeURIComponent (c :: r) = Ret (c :: s).
Proof.
  unfold decodeURIComponent, Decode. intros Hc H.
  rewrite percent_tokens_literal by exact Hc.
  destruct (percent_tokens r) as [ts|]; [|discriminate].
  cbn [bind utf8_tokens] in *. rewrite H. reflexivity.
Qed.

(** X1: [myDecodeURIComponent] undoes [encodeURIComponent]: a string of
    16-bit code units that [encodeURIComponent] accepts is given back
    from its escaped form. *)
Theorem myDecodeURIComponent_inverts_encodeURIComponent (s e : jsstring) :
  code_units s ->
  encodeURIComponent s = Ret e ->
  myDecodeURIComponent e = Ret s.
Proof.
  intros Hs He. unfold myDecodeURIComponent.
  rewrite (decode_encode s e Hs He). reflexivity.
Qed.

(** A title with an accented letter, spaces, an ampersand and a slash
    comes back from its escaped form. *)
Lemma myDecodeURIComponent_inverts_witness :
  myDecodeURIComponent (js "Caf%C3%A9%20%26%20Co%2F1")
  = Ret (js "Caf" ++ [233] ++ js " & Co/1").
Proof.
  apply (myDecodeURIComponent_inverts_encodeURIComponent
           (js "Caf" ++ [233] ++ js " & Co/1")).
  - unfold code_units. repeat constructor; lia.
  - vm_compute. reflexivity.
Defined.

End EscapeFacts.

(* ================================================================== *)
(** * Article file names *)
(* ================================================================== *)

Module ArticleFacts.
Import URI Article Shape Notions.

Example getArticleBase_examples :
  getArticleBase (js "AC/DC") false = Ret (js "AC_DC.html")
  /\ getArticleBase (js "Tour Eiffel?") true = Ret (js "Tour%20Eiffel%3F.html")
  /\ getArticlePath example_cfg (js "Paris") false
     = Ret (js "out/wikipedia_en_all/Paris.html").
Proof. repeat split; vm_compute; reflexivity. Qed.

Lemma replace_all_absent c r s : ~ In c r -> ~ In c (Str.replace_all c r s).
Proof.
  intros Hr. induction s as [|x t IH]; cbn [Str.replace_all]; [intros []|].
  destruct (Z.eqb_spec x c).
  - intros H. apply in_app_or in H as [H|H]; [exact (Hr H)|exact (IH H)].
  - intros [H|H]; [congruence|exact (IH H)].
Qed.

Lemma In_take {A} (x : A) n l : In x (take n l) -> In x l.
Proof.
  revert l. induction n as [|n IH]; intros [|y l]; cbn; try tauto.
  intros [H|H]; [left; exact H|right; exact (IH _ H)].
Qed.

(** The loop stops on the longest prefix that fits. *)
Lemma cut_loop_spec fuel : forall s,
  (length s <= fuel)%nat ->
  exists n, (n <= length s)%nat
    /\ cut_loop fuel s = take n s
    /\ (byteLength (take n s) <= 250)%nat
    /\ (forall k, (n < k <= length s)%nat -> (250 < byteLength (take k s))%nat).
Proof.
  induction fuel as [|fuel IH]; intros s Hs.
  - destruct s; [|simpl in Hs; lia]. exists 0%nat.
    repeat split; [lia|unfold byteLength; simpl; lia|intros k Hk; simpl in Hk; lia].
  - cbn [cut_loop]. destruct (Nat.ltb_spec 250 (byteLength s)) as [Hlong|Hfit].
    + assert (s <> []) as Hne by (intros ->; unfold byteLength in Hlong; simpl in Hlong; lia).
      assert (0 < length s)%nat as Hpos by (destruct s; [congruence|simpl; lia]).
      destruct (IH (take (length s - 1) s)) as (n & Hn & Ecut & Hb & Hmax).
      { rewrite length_take. lia. }
      rewrite length_take in Hn.
      assert (forall k, (k <= length s - 1)%nat -> take k (take (length s - 1) s) = take k s) as Ht.
      { intros k Hk. rewrite take_take. f_equal. lia. }
      exists n. rewrite Ecut, Ht in * by lia.
      repeat split; [lia|exact Hb|].
      intros k Hk. destruct (Nat.eq_dec k (length s)) as [->|Hk'].
      * rewrite firstn_all. exact Hlong.
      * rewrite <- Ht by lia. apply Hmax. rewrite length_take. lia.
    + exists (length s). rewrite firstn_all.
      repeat split; [lia|exact Hfit|intros k Hk; lia].
Qed.

Lemma html_suffix_bytes f : byteLength (f ++ js ".html") = (byteLength f + 5)%nat.
Proof.
  rewrite MediaFacts.byteLength_app by reflexivity.
  rewrite (MediaFacts.byteLength_ascii (js ".html")) by reflexivity. reflexivity.
Qed.

(** X2: the name [getArticleBase] gives without escaping always
    exists, takes at most 255 bytes and holds no slash: it is the name of
    one file of the directory. *)
Theorem getArticleBase_is_a_file_name (articleId : jsstring) :
  exists name,
    getArticleBase articleId false = Ret name
    /\ (byteLength name <= 255)%nat
    /\ ~ In 47 name.
Proof.
  unfold getArticleBase. cbn [bind].
  set (r := Str.replace_all 47 [95] articleId).
  destruct (cut_loop_spec (length r) r (le_n _)) as (n & Hn & -> & Hb & _).
  eexists. split; [reflexivity|]. split.
  - rewrite html_suffix_bytes. lia.
  - intros H. apply in_app_or in H as [H|H].
    + apply In_take in H. revert H. apply replace_all_absent.
      intros [E|[]]. discriminate.
    + vm_compute in H. intuition discriminate.
Qed.

(** X3: the name is cut no more than needed: it is the longest prefix
    of the identifier (slashes replaced by underscores) that takes at most
    250 bytes, followed by [.html]; an identifier of at most 250 bytes is
    kept whole. *)
Theorem getArticleBase_longest_prefix (articleId : jsstring) :
  let replaced := Str.replace_all 47 [95] articleId in
  exists n,
    (n <= length replaced)%nat
    /\ getArticleBase articleId false = Ret (take n replaced ++ js ".html")
    /\ (byteLength (take n replaced) <= 250)%nat
    /\ (forall k, (n < k <= length replaced)%nat ->
          (250 < byteLength (take k replaced))%nat)
    /\ ((byteLength replaced <= 250)%nat -> n = length replaced).
Proof.
  intros replaced. unfold getArticleBase. cbn [bind]. fold replaced.
  destruct (cut_loop_spec (length replaced) replaced (le_n _)) as (n & Hn & -> & Hb & Hmax).
  exists n. repeat split; try assumption.
  intros Hfit. destruct (Nat.eq_dec n (length replaced)) as [E|E]; [exact E|].
  specialize (Hmax (length replaced) ltac:(lia)). rewrite firstn_all in Hmax. lia.
Qed.

Lemma code_units_replace_all c r s :
  code_units r -> code_units s -> code_units (Str.replace_all c r s).
Proof.
  intros Hr. induction 1 as [|x t Hx _ IH]; cbn [Str.replace_all]; [constructor|].
  destruct (x =? c); [apply Forall_app; split; assumption|constructor; assumption].
Qed.

Lemma code_units_take n s : code_units s -> code_units (take n s).
Proof. apply Forall_take. Qed.

Lemma no_surrogate_replace_all c r s :
  no_surrogate r -> no_surrogate s -> no_surrogate (Str.replace_all c r s).
Proof.
  intros Hr. induction 1 as [|x t Hx _ IH]; cbn [Str.replace_all]; [constructor|].
  destruct (x =? c); [apply Forall_app; split; assumption|constructor; assumption].
Qed.

Lemma cut_loop_take fuel s : exists n, cut_loop fuel s = take n s.
Proof.
  revert s. induction fuel as [|fuel IH]; intros s; cbn [cut_loop].
  - exists (length s). symmetry. apply firstn_all.
  - destruct (250 <? byteLength s)%nat.
    + destruct (IH (take (length s - 1) s)) as [n ->]. rewrite take_take. eauto.
    + exists (length s). symmetry. apply firstn_all.
Qed.

Lemma getArticleUrl_url_safe (articleId url : jsstring) :
  code_units articleId ->
  getArticleUrl articleId = Ret url ->
  Forall (fun c => url_safe c = true) url.
Proof.
  intros Hu H. unfold getArticleUrl, getArticleBase in H.
  destruct (cut_loop_take (length (Str.replace_all 47 [95] articleId))
              (Str.replace_all 47 [95] articleId)) as [n En].
  rewrite En in H.
  destruct (encodeURIComponent _) as [e|] eqn:Ee; [|discriminate].
  injection H as <-. apply Forall_app. split.
  - apply (EscapeFacts.encodeURIComponent_safe _ _ (code_units_take n _
             (code_units_replace_all 47 [95] _ ltac:(repeat constructor; lia) Hu)) Ee).
  - repeat constructor.
Qed.

(** X4: the address [getArticleUrl] gives for an identifier of 16-bit
    code units is made of the characters [encodeURIComponent] leaves alone
    and of [%] escapes only; it holds no slash, no double quote, no
    ampersand, no [<] and no dollar sign. *)
Theorem getArticleUrl_characters (articleId url : jsstring) :
  code_units articleId ->
  getArticleUrl articleId = Ret url ->
  Forall (fun c => url_safe c = true) url
  /\ ~ In 47 url /\ ~ In 34 url /\ ~ In 38 url /\ ~ In 60 url /\ ~ In 36 url.
Proof.
  intros Hu H. pose proof (getArticleUrl_url_safe articleId url Hu H) as Hs.
  split; [exact Hs|].
  rewrite List.Forall_forall in Hs.
  repeat split; intros Hin; apply Hs in Hin; discriminate.
Qed.

(** The address of the article [Paris, Texas] *)
Lemma getArticleUrl_characters_witness :
  ~ In 47 (js "Paris%2C_Texas.html") /\ ~ In 34 (js "Paris%2C_Texas.html").
Proof.
  destruct (getArticleUrl_characters (js "Paris,_Texas") (js "Paris%2C_Texas.html"))
    as (_ & H1 & H2 & _).
  - unfold code_units. repeat constructor; lia.
  - vm_compute. reflexivity.
  - split; assumption.
Defined.

(** X5: [getArticleUrl] returns for every identifier without surrogate
    code units; it can raise [URIError] only on an identifier with
    characters outside the Basic Multilingual Plane or lone surrogates. *)
Theorem getArticleUrl_returns_without_surrogates (articleId : jsstring) :
  no_surrogate articleId ->
  exists url, getArticleUrl articleId = Ret url.
Proof.
  intros Hn. unfold getArticleUrl, getArticleBase.
  destruct (cut_loop_take (length (Str.replace_all 47 [95] articleId))
              (Str.replace_all 47 [95] articleId)) as [n ->].
  destruct (EscapeFacts.encodeURIComponent_no_surrogate (take n (Str.replace_all 47 [95] articleId)))
    as [e ->].
  - apply Forall_take, no_surrogate_replace_all; [|exact Hn].
    repeat constructor.
  - eexists. reflexivity.
Qed.

Lemma getArticleUrl_returns_witness :
  exists url, getArticleUrl (js "Tour_Eiffel") = Ret url.
Proof.
  apply getArticleUrl_returns_without_surrogates.
  unfold no_surrogate. repeat constructor.
Defined.

(** A title of 251 bytes that ends with a character outside the Basic
    Multilingual Plane is cut in the middle of that character: the file
    name ends with a lone surrogate and the address cannot be built. *)
Example getArticleUrl_cut_pair :
  getArticleBase example_astral_title false = Ret (repeat 97 247 ++ [55357] ++ js ".html")
  /\ getArticleUrl example_astral_title = Throw URIError.
Proof. split; vm_compute; reflexivity. Qed.

(** X6: the address written into the pages leads to the file: where
    [getArticleUrl] returns, decoding its result gives the file name
    [getArticleBase] returns without escaping. *)
Theorem getArticleUrl_decodes_to_file_name (articleId url : jsstring) :
  code_units articleId ->
  getArticleUrl articleId = Ret url ->
  exists name,
    getArticleBase articleId false = Ret name
    /\ decodeURIComponent url = Ret name
    /\ Util.myDecodeURIComponent url = Ret name.
Proof.
  intros Hu H. unfold getArticleUrl, getArticleBase in *.
  destruct (cut_loop_take (length (Str.replace_all 47 [95] articleId))
              (Str.replace_all 47 [95] articleId)) as [n En].
  rewrite En in *.
  destruct (encodeURIComponent _) as [e|] eqn:Ee; [|discriminate].
  injection H as <-. cbn [bind]. eexists. split; [reflexivity|].
  assert (decodeURIComponent (e ++ js ".html")
          = Ret (take n (Str.replace_all 47 [95] articleId) ++ js ".html")) as Hd.
  { apply EscapeFacts.decode_encode.
    - apply Forall_app. split; [|repeat constructor; lia].
      apply code_units_take, code_units_replace_all; [repeat constructor; lia|exact Hu].
    - apply EscapeFacts.encodeURIComponent_app; [exact Ee|reflexivity]. }
  split; [exact Hd|]. unfold Util.myDecodeURIComponent. rewrite Hd. reflexivity.
Qed.

Lemma getArticleUrl_decodes_witness :
  exists name,
    getArticleBase (js "Tour Eiffel?") false = Ret name
    /\ decodeURIComponent (js "Tour%20Eiffel%3F.html") = Ret name
    /\ Util.myDecodeURIComponent (js "Tour%20Eiffel%3F.html") = Ret name.
Proof.
  apply getArticleUrl_decodes_to_file_name.
  - unfold code_units. repeat constructor; lia.
  - vm_compute. reflexivity.
Defined.

(** X7: slashes and underscores are not told apart: an identifier and
    the identifier with its slashes replaced by underscores get the same
    name, so that the articles [a/b] and [a_b] share one file. *)
Theorem getArticleBase_slash_is_underscore (articleId : jsstring) (escape : bool) :
  getArticleBase (Str.replace_all 47 [95] articleId) escape
  = getArticleBase articleId escape.
Proof.
  unfold getArticleBase.
  assert (forall s, Str.replace_all 47 [95] (Str.replace_all 47 [95] s)
                    = Str.replace_all 47 [95] s) as ->; [|reflexivity].
  induction s as [|x t IH]; [reflexivity|]. cbn [Str.replace_all].
  destruct (Z.eqb_spec x 47) as [->|Hx]; cbn [app Str.replace_all].
  - rewrite IH. reflexivity.
  - destruct (Z.eqb_spec x 47); [contradiction|]. rewrite IH. reflexivity.
Qed.

End ArticleFacts.

(* ================================================================== *)
(** * Media names and the media cache, continued *)
(* ================================================================== *)

Module MediaStoreFacts.
Import URI Media MediaCache MediaEndings Shape.

Section Facts.
Variable lib : NodeLib.
Variable cfg : Config.
Variable fetch : jsstring -> Fetch.bytes.

Lemma http_gets_app l1 l2 : http_gets (l1 ++ l2) = http_gets l1 ++ http_gets l2.
Proof. unfold http_gets. apply omap_app. Qed.

Lemma cache_writes_app l1 l2 : cache_writes (l1 ++ l2) = cache_writes l1 ++ cache_writes l2.
Proof. unfold cache_writes. apply omap_app. Qed.

Lemma symlink_keeps w target path :
  let w1 := fst (symlink w target path) in
  mediaIds w1 = mediaIds w /\ mediaToCheck w1 = mediaToCheck w
  /\ cacheBody w1 = cacheBody w /\ cacheHeader w1 = cacheHeader w
  /\ http_gets (effects w1) = http_gets (effects w)
  /\ cache_writes (effects w1) = cache_writes (effects w)
  /\ links w1 !! path <> None.
Proof.
  unfold symlink. destruct (links w !! path) eqn:E; cbn [fst mediaIds mediaToCheck
    cacheBody cacheHeader effects links].
  - repeat split; congruence.
  - rewrite http_gets_app, cache_writes_app, lookup_insert_eq. cbn.
    rewrite !app_nil_r. repeat split; congruence.
Qed.

Ltac open_symlink cachePath mediaPath :=
  match goal with
  | |- context [symlink ?w0 cachePath mediaPath] =>
      let Hs := fresh "Hs" in
      pose proof (symlink_keeps w0 cachePath mediaPath) as Hs;
      destruct (symlink w0 cachePath mediaPath) as [? ?];
      cbv zeta in Hs;
      cbn [fst downloadFile mediaIds mediaToCheck cacheBody cacheHeader effects] in Hs;
      destruct Hs as (K1 & K2 & K3 & K4 & K5 & K6 & K7)
  end.

Ltac cleaning_cases :=
  repeat match goal with
         | |- context [if ?b then _ else _] => destruct b
         end;
  cbn [emit write_header mediaIds mediaToCheck cacheBody cacheHeader effects links];
  rewrite ?http_gets_app, ?cache_writes_app; cbn [http_gets cache_writes omap];
  rewrite ?app_nil_r.

(** How a request that returns has ended. *)
Lemma downloadFileAndCache_ending url base width w w' :
  media_ref url = Ret (base, width) ->
  downloadFileAndCache lib cfg fetch url w = Ret w' ->
  ending lib cfg fetch url base width w w'.
Proof.
  intros Hm. unfold downloadFileAndCache. rewrite Hm. cbn [bind].
  destruct (match mediaIds w !! base with
            | Some r => r <? width
            | None => true
            end) eqn:Hmiss.
  - assert (forall r, mediaIds w !! base = Some r -> r < width) as Hnc.
    { intros r Hr. rewrite Hr in Hmiss. apply Z.ltb_lt, Hmiss. }
    destruct (getMediaPath lib cfg url) as [[mediaPath|]|] eqn:Ep; cbn [bind];
      try discriminate;
      (destruct (cache_path lib cfg url base) as [cachePath|] eqn:Ec; cbn [bind];
       try discriminate).
    cbn [cacheHeader cacheBody].
    assert (forall w0,
              (let '(w1, _) := symlink (downloadFile fetch w0 url cachePath)
                                 cachePath mediaPath in
               Ret (emit (write_header w1 cachePath width) [ECallback])) = Ret w' ->
              mediaIds w0 = <[base := width]> (mediaIds w) ->
              cacheBody w0 = cacheBody w -> cacheHeader w0 = cacheHeader w ->
              effects w0 = effects w ->
              ending lib cfg fetch url base width w w') as Hdown.
    { intros w0. open_symlink cachePath mediaPath. intros H E1 E2 E3 E4.
      injection H as <-.
      apply (Downloaded lib cfg fetch url base width w _ mediaPath cachePath Hnc Ep Ec);
        cleaning_cases; try congruence.
      - rewrite K5, http_gets_app, E4. reflexivity.
      - rewrite K6, cache_writes_app, E4. reflexivity. }
    destruct (cacheHeader w !! cachePath) as [[|hw]|] eqn:Eh.
    + intros H. apply (Hdown _ H); reflexivity.
    + destruct (cacheBody w !! cachePath) as [body|] eqn:Eb.
      * destruct (match hw with Some c => c <? width | None => false end) eqn:Ew.
        -- intros H. apply (Hdown _ H); reflexivity.
        -- open_symlink cachePath mediaPath. intros H. injection H as <-.
           apply (FromCache lib cfg fetch url base width w _ mediaPath cachePath hw
                    Hnc Ep Ec Eh); cleaning_cases; try assumption.
           ++ rewrite Eb. discriminate.
           ++ intros c ->. apply Z.ltb_ge, Ew.
      * intros H. apply (Hdown _ H); reflexivity.
    + intros H. apply (Hdown _ H); reflexivity.
  - intros H. injection H as <-.
    destruct (mediaIds w !! base) as [r|] eqn:Er; [|discriminate].
    apply (Covered lib cfg fetch url base width w _ r Er); [|reflexivity].
    apply Z.ltb_ge, Hmiss.
Qed.

Lemma downloadFileAndCache_parses url w w' :
  downloadFileAndCache lib cfg fetch url w = Ret w' ->
  exists base width, media_ref url = Ret (base, width).
Proof.
  unfold downloadFileAndCache. destruct (media_ref url) as [[base width]|]; [eauto|discriminate].
Qed.

Lemma downloadFileAndCache_monotone url w w' :
  downloadFileAndCache lib cfg fetch url w = Ret w' ->
  forall base r, mediaIds w !! base = Some r ->
  exists r', mediaIds w' !! base = Some r' /\ r <= r'.
Proof.
  intros H base r Hr.
  destruct (downloadFileAndCache_parses url w w' H) as (b & width & Hm).
  destruct (downloadFileAndCache_ending url b width w w' Hm H)
    as [r0 _ _ ->|mediaPath cachePath hw Hnc _ _ _ _ _ E _ _ _ _ _
        |mediaPath cachePath Hnc _ _ E _ _ _ _ _].
  - exists r. split; [exact Hr|lia].
  - rewrite E. destruct (decide (b = base)) as [->|Hne].
    + exists width. rewrite lookup_insert_eq. specialize (Hnc r Hr). split; [reflexivity|lia].
    + exists r. rewrite lookup_insert_ne by exact Hne. split; [exact Hr|lia].
  - rewrite E. destruct (decide (b = base)) as [->|Hne].
    + exists width. rewrite lookup_insert_eq. specialize (Hnc r Hr). split; [reflexivity|lia].
    + exists r. rewrite lookup_insert_ne by exact Hne. split; [exact Hr|lia].
Qed.

(** X8: during a run the width recorded for a file never decreases:
    after any sequence of requests that return, every file of the store is
    still recorded, at a width at least as large as before. *)
Theorem recorded_width_never_decreases (urls : list jsstring) (w w' : world) :
  process lib cfg fetch urls w = Ret w' ->
  forall base r, mediaIds w !! base = Some r ->
  exists r', mediaIds w' !! base = Some r' /\ r <= r'.
Proof.
  revert w. induction urls as [|url rest IH]; intros w H base r Hr.
  - injection H as <-. exists r. split; [exact Hr|lia].
  - cbn [process] in H.
    destruct (downloadFileAndCache lib cfg fetch url w) as [w1|] eqn:E; [|discriminate].
    destruct (downloadFileAndCache_monotone url w w1 E base r Hr) as (r1 & Hr1 & Hle).
    destruct (IH w1 H base r1 Hr1) as (r' & Hr' & Hle').
    exists r'. split; [exact Hr'|lia].
Qed.

(** X9: a file that was downloaded is served from the cache afterwards:
    when a request went to the network, a later request for the same URL,
    in a world where the store does not know the file and the cache still
    holds what the download left, makes no HTTP request and writes nothing
    to the cache. *)
Theorem downloaded_media_is_served_from_cache
  (url base cachePath : jsstring) (width : Z) (w w1 w2 : world) :
  media_ref url = Ret (base, width) ->
  cache_path lib cfg url base = Ret cachePath ->
  downloadFileAndCache lib cfg fetch url w = Ret w1 ->
  http_gets (effects w1) <> http_gets (effects w) ->
  cacheBody w2 !! cachePath = cacheBody w1 !! cachePath ->
  cacheHeader w2 !! cachePath = cacheHeader w1 !! cachePath ->
  mediaIds w2 !! base = None ->
  exists w3,
    downloadFileAndCache lib cfg fetch url w2 = Ret w3
    /\ http_gets (effects w3) = http_gets (effects w2)
    /\ cache_writes (effects w3) = cache_writes (effects w2)
    /\ cacheBody w3 !! cachePath = Some (fetch url).
Proof.
  intros Hm Hc H Hnet Eb Eh Hnew.
  destruct (downloadFileAndCache_ending url base width w w1 Hm H)
    as [r0 _ _ ->|mediaPath cachePath' hw _ _ _ _ _ _ _ _ _ E _ _
        |mediaPath cachePath' _ Ep Ec' _ E1 E2 _ _ _].
  - exfalso. apply Hnet. cbn [emit effects]. rewrite http_gets_app. cbn. apply app_nil_r.
  - exfalso. exact (Hnet E).
  - rewrite Hc in Ec'. injection Ec' as <-.
    rewrite E1, lookup_insert_eq in Eb. rewrite E2, lookup_insert_eq in Eh.
    unfold downloadFileAndCache. rewrite Hm. cbn [bind]. rewrite Hnew, Ep. cbn [bind].
    rewrite Hc. cbn [bind cacheHeader cacheBody]. rewrite Eb, Eh.
    destruct (Z.ltb_spec width width); [lia|].
    open_symlink cachePath mediaPath.
    eexists. split; [reflexivity|].
    cleaning_cases; repeat split; congruence.
Qed.

End Facts.

(** The picture of width 300 is downloaded in one run and served from
    the cache in the next. *)
Lemma downloaded_media_witness :
  exists w3,
    downloadFileAndCache Node.node example_cfg example_fetch example_url_300
      (next_run (default empty_world
                   (match downloadFileAndCache Node.node example_cfg example_fetch
                            example_url_300 empty_world with
                    | Ret w1 => Some w1
                    | Throw _ => None
                    end))) = Ret w3
    /\ http_gets (effects w3) = []
    /\ cache_writes (effects w3) = []
    /\ cacheBody w3 !! js "cac/m/75c61b7b8c48334d09ff.jpg" = Some [255; 216; 255].
Proof.
  destruct (downloadFileAndCache Node.node example_cfg example_fetch
              example_url_300 empty_world) as [w1|] eqn:E; [|vm_compute in E; discriminate].
  apply (downloaded_media_is_served_from_cache Node.node example_cfg example_fetch
           example_url_300 (js "Tour_Eiffel.jpg") (js "cac/m/75c61b7b8c48334d09ff.jpg")
           300 empty_world w1).
  - vm_compute. reflexivity.
  - vm_compute. reflexivity.
  - exact E.
  - vm_compute in E. injection E as <-. vm_compute. discriminate.
  - reflexivity.
  - reflexivity.
  - reflexivity.
Defined.

Lemma recorded_width_witness :
  exists r', mediaIds (emit (next_store 300) [ECallback]) !! js "Tour_Eiffel.jpg" = Some r'
             /\ 300 <= r'.
Proof.
  apply (recorded_width_never_decreases Node.node example_cfg example_fetch
           [example_url_120] (next_store 300)).
  - vm_compute. reflexivity.
  - reflexivity.
Defined.

End MediaStoreFacts.

(* ================================================================== *)
(** * Media addresses *)
(* ================================================================== *)

Module MediaUrlFacts.
Import URI Media Shape.

Section Facts.
Variable lib : NodeLib.

Lemma getMediaBase_both url p q :
  getMediaBase lib url false = Ret (Some q) ->
  getMediaUrl lib url = Ret (Some p) ->
  exists f e, q = js "m/" ++ f /\ p = js "m/" ++ e /\ encodeURIComponent f = Ret e.
Proof.
  unfold getMediaUrl, getMediaBase.
  destruct (derivedFilename url) as [[filename|]|]; cbn [bind]; try discriminate.
  intros Hq. injection Hq as <-.
  destruct (encodeURIComponent (shortenFilename lib filename)) as [e|] eqn:Ee;
    cbn [bind]; [|discriminate].
  intros Hp. injection Hp as <-. exists (shortenFilename lib filename), e.
  repeat split. exact Ee.
Qed.

(** X10: the address [getMediaUrl] gives is [m/] followed by a name
    made of the characters [encodeURIComponent] leaves alone and of [%]
    escapes: the slash after [m] is its only slash, and it holds no double
    quote.  The file name is taken to be made of 16-bit code units. *)
Theorem getMediaUrl_characters (url p q : jsstring) :
  getMediaBase lib url false = Ret (Some q) ->
  code_units q ->
  getMediaUrl lib url = Ret (Some p) ->
  exists e, p = js "m/" ++ e
            /\ Forall (fun c => url_safe c = true) e
            /\ ~ In 47 e /\ ~ In 34 e.
Proof.
  intros Hq Hu Hp. destruct (getMediaBase_both url p q Hq Hp) as (f & e & -> & -> & Ee).
  exists e. split; [reflexivity|].
  assert (Forall (fun c => url_safe c = true) e) as Hs.
  { apply (EscapeFacts.encodeURIComponent_safe f e); [|exact Ee].
    apply Forall_app in Hu. apply Hu. }
  split; [exact Hs|]. rewrite List.Forall_forall in Hs.
  split; intros Hin; apply Hs in Hin; discriminate.
Qed.

(** X11: the address of a picture leads to its file: decoding what
    [getMediaUrl] returns gives the path [getMediaBase] returns without
    escaping, under which the file is stored. *)
Theorem getMediaUrl_decodes_to_media_path (url p q : jsstring) :
  getMediaBase lib url false = Ret (Some q) ->
  code_units q ->
  getMediaUrl lib url = Ret (Some p) ->
  decodeURIComponent p = Ret q /\ Util.myDecodeURIComponent p = Ret q.
Proof.
  intros Hq Hu Hp. destruct (getMediaBase_both url p q Hq Hp) as (f & e & -> & -> & Ee).
  assert (decodeURIComponent (js "m/" ++ e) = Ret (js "m/" ++ f)) as Hd.
  { change (js "m/" ++ e) with (109 :: 47 :: e).
    change (js "m/" ++ f) with (109 :: 47 :: f).
    apply EscapeFacts.decode_literal; [discriminate|].
    apply EscapeFacts.decode_literal; [discriminate|].
    apply (EscapeFacts.decode_encode f e); [|exact Ee].
    apply Forall_app in Hu. apply Hu. }
  split; [exact Hd|]. unfold Util.myDecodeURIComponent. rewrite Hd. reflexivity.
Qed.

(** A URL the media queue receives is one [downloadFileAndCache] can
    read: where [getMediaUrl] finds a name, the groups of the regular
    expression are there. *)
Lemma getMediaUrl_media_ref url p :
  getMediaUrl lib url = Ret (Some p) ->
  exists base width, MediaCache.media_ref url = Ret (base, width).
Proof.
  unfold getMediaUrl, getMediaBase, derivedFilename, MediaCache.media_ref.
  destruct (decodeURI url) as [decoded|]; cbn [bind]; [|discriminate].
  destruct (Regex.exec mediaRegex decoded) as [parts|]; [eauto|discriminate].
Qed.

End Facts.

Lemma getMediaUrl_characters_witness :
  exists e, js "m/Caf%C3%A9_de_Flore.jpg" = js "m/" ++ e
            /\ Forall (fun c => url_safe c = true) e
            /\ ~ In 47 e /\ ~ In 34 e.
Proof.
  apply (getMediaUrl_characters Node.node example_url_cafe
           (js "m/Caf%C3%A9_de_Flore.jpg") (js "m/Caf" ++ [233] ++ js "_de_Flore.jpg")).
  - vm_compute. reflexivity.
  - unfold code_units. repeat constructor; lia.
  - vm_compute. reflexivity.
Defined.

Lemma getMediaUrl_decodes_witness :
  decodeURIComponent (js "m/Caf%C3%A9_de_Flore.jpg")
  = Ret (js "m/Caf" ++ [233] ++ js "_de_Flore.jpg")
  /\ Util.myDecodeURIComponent (js "m/Caf%C3%A9_de_Flore.jpg")
     = Ret (js "m/Caf" ++ [233] ++ js "_de_Flore.jpg").
Proof.
  apply (getMediaUrl_decodes_to_media_path Node.node example_url_cafe).
  - vm_compute. reflexivity.
  - unfold code_units. repeat constructor; lia.
  - vm_compute. reflexivity.
Defined.

End MediaUrlFacts.

(* ================================================================== *)
(** * The passes over a section, continued *)
(* ================================================================== *)

Module PassFacts.
Import Dom Rewriter DomShape Notions.

Lemma removeNode_size id f : (length (ids (removeNode id f)) <= length (ids f))%nat.
Proof.
  induction f as [|t sibs IH|i tag a kids IHk sibs IHs]; cbn [removeNode].
  - lia.
  - rewrite !RewriterFacts.ids_text. exact IH.
  - rewrite RewriterFacts.ids_elem. destruct (Nat.eqb i id).
    + cbn [length]. rewrite length_app. lia.
    + rewrite RewriterFacts.ids_elem. cbn [length]. rewrite !length_app. lia.
Qed.

Lemma select_by_tag_size tag f : (length (getElementsByTagName tag f) <= length (ids f))%nat.
Proof.
  unfold getElementsByTagName, ids. rewrite !length_map. apply List.filter_length_le.
Qed.

Lemma select_by_class_size cls f :
  (length (getElementsByClassName cls f) <= length (ids f))%nat.
Proof.
  unfold getElementsByClassName, ids. rewrite !length_map. apply List.filter_length_le.
Qed.

(** A loop over a live collection ends within its fuel when its body
    adds no element. *)
Lemma live_loop_ends (select : forest -> list nat) (body : nat -> forest -> forest) :
  (forall g, (length (select g) <= length (ids g))%nat) ->
  (forall n g, (length (ids (body n g)) <= length (ids g))%nat) ->
  (forall n g x, In x (ids (body n g)) -> In x (ids g)) ->
  forall fuel i g,
    (length (ids g) - i < fuel)%nat ->
    exists g', live_loop fuel select (fun n g => Ret (body n g)) i g = Done g'
               /\ (length (ids g') <= length (ids g))%nat
               /\ (forall x, In x (ids g') -> In x (ids g)).
Proof.
  intros Hsel Hsize Hsub. induction fuel as [|fuel IH]; intros i g Hf; [lia|].
  cbn [live_loop]. destruct (select g !! i) as [node|] eqn:E.
  - apply lookup_lt_Some in E. specialize (Hsel g).
    destruct (IH (S i) (body node g)) as (g' & -> & H1 & H2).
    { specialize (Hsize node g). lia. }
    exists g'. split; [reflexivity|]. split.
    + specialize (Hsize node g). lia.
    + intros x Hx. apply (Hsub node), H2, Hx.
  - exists g. repeat split; [lia|tauto].
Qed.

Lemma dom_loop_ends (select : forest -> list nat) (body : nat -> forest -> forest) f :
  (forall g, (length (select g) <= length (ids g))%nat) ->
  (forall n g, (length (ids (body n g)) <= length (ids g))%nat) ->
  (forall n g x, In x (ids (body n g)) -> In x (ids g)) ->
  exists g', dom_loop select body f = Done g'
             /\ (length (ids g') <= length (ids f))%nat
             /\ (forall x, In x (ids g') -> In x (ids f)).
Proof.
  intros H1 H2 H3. unfold dom_loop, loop_fuel.
  apply (live_loop_ends select body H1 H2 H3).
  unfold ids. rewrite length_map. lia.
Qed.

Lemma for_each_ends {A} (xs : list A) (step : A -> forest -> run forest) :
  (forall x g, exists g', step x g = Done g'
                          /\ (forall y, In y (ids g') -> In y (ids g))) ->
  forall f, exists f', for_each xs step f = Done f'
                       /\ (forall y, In y (ids f') -> In y (ids f)).
Proof.
  intros Hstep. unfold for_each.
  induction xs as [|x xs IH] using rev_ind; intros f.
  - exists f. split; [reflexivity|tauto].
  - rewrite fold_left_app. cbn [fold_left].
    destruct (IH f) as (f1 & -> & H1). cbn [run_bind].
    destruct (Hstep x f1) as (f2 & -> & H2).
    exists f2. split; [reflexivity|]. intros y Hy. apply H1, H2, Hy.
Qed.

Section Passes.
Variable lib : NodeLib.
Variable cfg : Config.

Lemma show_node_ids n g : ids (show_node lib n g) = ids g.
Proof.
  unfold show_node. destruct (getAttribute n (js "style") g); [|reflexivity].
  destruct (css_removeProperty lib _ _); [|reflexivity].
  apply RewriterFacts.update_attrs_ids.
Qed.

(** X12: [applyOtherTreatments] always comes to its end: each of its
    loops over a live collection stops, nothing is raised, and the
    document it leaves holds no element that was not there before. *)
Theorem applyOtherTreatments_ends (f : forest) :
  exists f', applyOtherTreatments lib cfg f = Done f'
             /\ (forall x, In x (ids f') -> In x (ids f)).
Proof.
  unfold applyOtherTreatments.
  assert (forall select, (forall g, (length (select g) <= length (ids g))%nat) ->
            forall g, exists g', dom_loop select deleteNode g = Done g'
                                 /\ (forall y, In y (ids g') -> In y (ids g))) as Hdel.
  { intros select Hs g.
    destruct (dom_loop_ends select deleteNode g Hs
                (fun n g => removeNode_size n g)
                (fun n g x => RewriterFacts.removeNode_subset n x g)) as (g' & E & _ & H).
    eauto. }
  assert (exists f1, (if nopic cfg
                      then dom_loop (getElementsByTagName (js "map")) deleteNode f
                      else Done f) = Done f1
                     /\ (forall y, In y (ids f1) -> In y (ids f))) as (f1 & -> & H1).
  { destruct (nopic cfg); [apply Hdel, select_by_tag_size|]. exists f. split; [reflexivity|tauto]. }
  cbn [run_bind].
  destruct (for_each_ends idBlackList
              (fun idv f => match getElementById idv f with
                            | Some node => Done (deleteNode node f)
                            | None => Done f
                            end)) with (f := f1) as (f2 & -> & H2).
  { intros idv g. destruct (getElementById idv g) as [node|].
    - eexists. split; [reflexivity|]. intros y. apply RewriterFacts.removeNode_subset.
    - exists g. split; [reflexivity|tauto]. }
  cbn [run_bind].
  destruct (for_each_ends cssClassBlackList
              (fun classname => dom_loop (getElementsByClassName classname) deleteNode))
    with (f := f2) as (f3 & -> & H3).
  { intros classname g. apply Hdel, select_by_class_size. }
  cbn [run_bind].
  destruct (for_each_ends cssClassBlackListIfNoLink
              (fun classname =>
                 dom_loop (getElementsByClassName classname)
                   (fun node g => if Nat.eqb (descendants_by_tag node (js "a") g) 0
                                  then deleteNode node g else g)))
    with (f := f3) as (f4 & -> & H4).
  { intros classname g.
    destruct (dom_loop_ends (getElementsByClassName classname)
                (fun node g => if Nat.eqb (descendants_by_tag node (js "a") g) 0
                               then deleteNode node g else g) g) as (g' & E & _ & H).
    - apply select_by_class_size.
    - intros n g0. destruct (Nat.eqb _ 0); [apply removeNode_size|lia].
    - intros n g0 x. destruct (Nat.eqb _ 0); [apply RewriterFacts.removeNode_subset|tauto].
    - eauto. }
  cbn [run_bind].
  destruct (for_each_ends cssClassDisplayList
              (fun classname => dom_loop (getElementsByClassName classname) (show_node lib)))
    with (f := f4) as (f5 & -> & H5).
  { intros classname g.
    destruct (dom_loop_ends (getElementsByClassName classname) (show_node lib) g)
      as (g' & E & _ & H).
    - apply select_by_class_size.
    - intros n g0. rewrite show_node_ids. lia.
    - intros n g0 x. rewrite show_node_ids. tauto.
    - eauto. }
  exists f5. split; [reflexivity|]. intros x Hx. apply H1, H2, H3, H4, H5, Hx.
Qed.

Lemma attr_remove_set a name value :
  attr_remove (attr_set a name value) name = attr_remove a name.
Proof.
  unfold attr_remove. induction a as [|[k v] t IH]; cbn [attr_set List.filter fst].
  - rewrite RewriterFacts.str_eqb_refl. reflexivity.
  - destruct (str_eqb k name) eqn:E; cbn [List.filter fst]; rewrite E; cbn [negb].
    + reflexivity.
    + rewrite IH. reflexivity.
Qed.

Lemma strip_href_set id value f :
  strip_href (setAttribute id (js "href") value f) = strip_href f.
Proof.
  unfold setAttribute.
  induction f as [|t sibs IH|i tag a kids IHk sibs IHs]; cbn [update_attrs strip_href].
  - reflexivity.
  - rewrite IH. reflexivity.
  - rewrite IHk, IHs. destruct (Nat.eqb i id); [rewrite attr_remove_set|]; reflexivity.
Qed.

Lemma lookup_update_attrs_other x n g f :
  x <> n ->
  lookup_element x (update_attrs n g f)
  = (fun e => mkElement (el_id e) (el_tag e) (el_attrs e) (update_attrs n g (el_kids e)))
      <$> lookup_element x f.
Proof.
  intros Hx.
  induction f as [|t sibs IH|i tag a kids IHk sibs IHs]; cbn [update_attrs].
  - reflexivity.
  - exact IH.
  - rewrite !RewriterFacts.lookup_element_elem. destruct (Nat.eqb i x) eqn:E.
    + apply Nat.eqb_eq in E. subst i.
      destruct (Nat.eqb_spec x n); [contradiction|reflexivity].
    + rewrite IHk, IHs. destruct (lookup_element x kids); reflexivity.
Qed.

Lemma getAttribute_set_other x n name value name' f :
  x <> n -> getAttribute x name' (setAttribute n name value f) = getAttribute x name' f.
Proof.
  intros Hx. unfold getAttribute, setAttribute.
  rewrite lookup_update_attrs_other by exact Hx.
  destruct (lookup_element x f); reflexivity.
Qed.

Lemma getAttribute_set_same n name value f :
  getAttribute n name (setAttribute n name value f)
  = match lookup_element n f with
    | Some _ => Some value
    | None => None
    end.
Proof.
  unfold setAttribute. rewrite RewriterFacts.getAttribute_update.
  destruct (lookup_element n f); [apply RewriterFacts.attr_get_set|reflexivity].
Qed.

Lemma rewriteUrl_geo href new :
  Geo.rewriteUrl lib href = Ret (Some new) -> exists rest, new = js "geo:" ++ rest.
Proof.
  unfold Geo.rewriteUrl. destruct href as [[|c h]|]; try discriminate.
  destruct (if contains _ _ then _ else _) as [[lat lon]|]; cbn [bind]; [|discriminate].
  destruct (negb (Geo.isNaN lat) && negb (Geo.isNaN lon)); [|discriminate].
  intros H. injection H as <-. eauto.
Qed.

(** What the links of a document look like after some of them were
    rewritten. *)
Lemma rewriteUrl_node_keeps n g g' :
  rewriteUrl_node lib n g = Ret g' ->
  strip_href g' = strip_href g /\ ids g' = ids g
  /\ forall x, getAttribute x (js "href") g' = getAttribute x (js "href") g
               \/ exists rest, getAttribute x (js "href") g' = Some (js "geo:" ++ rest).
Proof.
  unfold rewriteUrl_node.
  destruct (Geo.rewriteUrl lib (getAttribute n (js "href") g)) as [[h|]|] eqn:E;
    cbn [bind]; try discriminate; intros H; injection H as <-.
  - split; [apply strip_href_set|]. split; [apply RewriterFacts.update_attrs_ids|].
    intros x. destruct (Nat.eq_dec x n) as [->|Hx].
    + rewrite getAttribute_set_same. destruct (lookup_element n g) eqn:El.
      * right. destruct (rewriteUrl_geo _ _ E) as [rest ->]. eauto.
      * left. unfold getAttribute. rewrite El. reflexivity.
    + left. apply getAttribute_set_other, Hx.
  - repeat split. intros x. left. reflexivity.
Qed.

Lemma fold_rewrite_throw l e :
  fold_left (fun acc linkNode => bind acc (rewriteUrl_node lib linkNode)) l (Throw e)
  = Throw e.
Proof. induction l as [|x l IH]; [reflexivity|exact IH]. Qed.

(** X13: [rewriteUrls] touches nothing but the [href] attributes: the
    document it leaves is the same once these are left out, no node is
    added or removed, and an [href] that was changed holds a [geo:]
    address. *)
Theorem rewriteUrls_changes_hrefs_only (f f' : forest) :
  rewriteUrls lib f = Ret f' ->
  strip_href f' = strip_href f
  /\ ids f' = ids f
  /\ forall x, getAttribute x (js "href") f' = getAttribute x (js "href") f
               \/ exists rest, getAttribute x (js "href") f' = Some (js "geo:" ++ rest).
Proof.
  unfold rewriteUrls.
  generalize (getElementsByTagName (js "a") f ++ getElementsByTagName (js "area") f).
  intros l. revert f. induction l as [|n l IH]; intros f H.
  - injection H as <-. repeat split. intros x. left. reflexivity.
  - cbn [fold_left bind] in H.
    destruct (rewriteUrl_node lib n f) as [g|e] eqn:E;
      [|rewrite fold_rewrite_throw in H; discriminate].
    destruct (rewriteUrl_node_keeps n f g E) as (S1 & I1 & A1).
    destruct (IH g H) as (S2 & I2 & A2).
    split; [congruence|]. split; [congruence|].
    intros x. destruct (A2 x) as [E2|E2]; [|right; exact E2].
    rewrite E2. apply A1.
Qed.

Lemma live_loop_invariant {St} (P : St -> Prop) select
  (body : nat -> St -> outcome St) :
  (forall n st st', P st -> body n st = Ret st' -> P st') ->
  forall fuel i st st', P st -> live_loop fuel select body i st = Done st' -> P st'.
Proof.
  intros Hbody. induction fuel as [|fuel IH]; intros i st st' Hst H; [discriminate|].
  cbn [live_loop] in H. destruct (select st !! i) as [node|].
  - destruct (body node st) as [st1|] eqn:E; [|discriminate].
    apply (IH (S i) st1 st'); [apply (Hbody node st st1 Hst E)|exact H].
  - injection H as <-. exact Hst.
Qed.

(** X14: the URLs [treatMediaElementsForSection] pushes on the download
    queue for a section are pairwise different, and each of them is one
    that [downloadFileAndCache] can read the base name and the width
    from. *)
Theorem queued_urls_are_distinct_and_readable (f : forest) (st : state) :
  treatMediaElementsForSection lib cfg f = Done st ->
  NoDup (downloadFileQueue st)
  /\ Forall (fun u => exists base width, MediaCache.media_ref u = Ret (base, width))
            (downloadFileQueue st).
Proof.
  unfold treatMediaElementsForSection. intros H.
  pose (P := fun st : state =>
    NoDup (downloadFileQueue st)
    /\ (forall u, In u (downloadFileQueue st) -> u ∈ imgSrcCache st)
    /\ Forall (fun u => exists base width, MediaCache.media_ref u = Ret (base, width))
              (downloadFileQueue st)).
  assert (P st) as (H1 & _ & H3); [|split; assumption].
  apply (live_loop_invariant P _ (treat_image lib cfg)) in H; [exact H| |].
  - clear. intros img st st' (N & C & R). unfold treat_image.
    destruct ((negb (nopic cfg) || is_math_image img (dom st))
              && has_usable_src img (dom st)).
    2:{ intros H. injection H as <-. repeat split; assumption. }
    destruct (remove_image_link lib cfg img (dom st)) as [f1|]; cbn [bind]; [|discriminate].
    destruct (getFullUrl lib cfg _) as [src|]; cbn [bind]; [|discriminate].
    destruct (Media.getMediaUrl lib src) as [[[|c n]|]|] eqn:Em; cbn [bind];
      try discriminate;
      try (intros H; injection H as <-; repeat split; assumption).
    intros H. injection H as <-. cbn [downloadFileQueue imgSrcCache].
    destruct (bool_decide (src ∈ imgSrcCache st)) eqn:Es.
    + repeat split; [exact N| |exact R]. intros u Hu. apply C in Hu. set_solver.
    + apply bool_decide_eq_false in Es. repeat split.
      * apply NoDup_app. repeat split; [exact N| |apply NoDup_singleton].
        intros u Hu Hs. apply list_elem_of_singleton in Hs. subst u.
        apply Es, C, list_elem_of_In, Hu.
      * intros u Hu. apply in_app_or in Hu as [Hu|[<-|[]]]; [apply C in Hu|]; set_solver.
      * apply Forall_app. split; [exact R|]. constructor; [|constructor].
        apply (MediaUrlFacts.getMediaUrl_media_ref lib src _ Em).
  - repeat split; [constructor|intros u []|constructor].
Qed.

End Passes.

Lemma rewriteUrls_witness :
  strip_href example_geo_link_rewritten = strip_href example_geo_link
  /\ ids example_geo_link_rewritten = ids example_geo_link
  /\ forall x,
       getAttribute x (js "href") example_geo_link_rewritten
       = getAttribute x (js "href") example_geo_link
       \/ exists rest,
            getAttribute x (js "href") example_geo_link_rewritten
            = Some (js "geo:" ++ rest).
Proof.
  apply (rewriteUrls_changes_hrefs_only Node.node).
  vm_compute. reflexivity.
Defined.

Lemma queued_urls_witness :
  exists st,
    treatMediaElementsForSection Node.node example_cfg example_images = Done st
    /\ NoDup (downloadFileQueue st)
    /\ Forall (fun u => exists base width, MediaCache.media_ref u = Ret (base, width))
              (downloadFileQueue st).
Proof.
  destruct (treatMediaElementsForSection Node.node example_cfg example_images)
    as [st| |] eqn:E; [|vm_compute in E; discriminate..].
  exists st. split; [reflexivity|].
  apply (queued_urls_are_distinct_and_readable Node.node example_cfg example_images st E).
Defined.

End PassFacts.

(* ================================================================== *)
(** * The cache of downloaded pages *)
(* ================================================================== *)

Module ContentCacheFacts.
Import Fetch ContentCache.

Example downloadContentAndCache_miss_then_hit :
  (fun w => ContentCache.effects w)
    <$> match bind (downloadContentAndCache no_decoder no_decoder example_cfg example_net_up
                      (js "https://en.wikipedia.org/api/rest_v1/page/mobile-sections/Paris")
                      ContentCache.empty_disk)
                   (downloadContentAndCache no_decoder no_decoder example_cfg example_net_up
                      (js "https://en.wikipedia.org/api/rest_v1/page/mobile-sections/Paris")) with
        | Ret w => Some w
        | Throw _ => None
        end
  = Some [EDownload (js "https://en.wikipedia.org/api/rest_v1/page/mobile-sections/Paris");
          EWrite (js "cac/fb0b124d65de68dcbaad.h");
          EWrite (js "cac/fb0b124d65de68dcbaad");
          ECallback (DBuffer [123; 125]) [(js "content-type", js "application/json")];
          ETouch (js "cac/fb0b124d65de68dcbaad");
          ECallback (DString [123; 125]) [(js "content-type", js "application/json")]].
Proof. vm_compute. reflexivity. Qed.

Section Facts.
Variable gunzip : bytes -> option bytes.
Variable inflate : bytes -> option bytes.
Variable cfg : Config.
Variable net : jsstring -> list (list net_event).

Local Abbreviation downloadContentAndCache :=
  (downloadContentAndCache gunzip inflate cfg net).

Lemma toString_idempotent d : toString (toString d) = toString d.
Proof. destruct d; reflexivity. Qed.

Lemma last_two {A} (l : list A) a b : last (l ++ [a; b]) = Some b.
Proof. change [a; b] with ([a] ++ [b]). rewrite app_assoc. apply last_snoc. Qed.

Lemma next_call_is_served
  (url : jsstring) (w w1 : disk) (d : data) (h : headers) :
  downloadContentAndCache url w = Ret w1 ->
  last (ContentCache.effects w1) = Some (ECallback d h) ->
  downloadContentAndCache url w1
  = Ret {| bodies := bodies w1; heads := heads w1;
           effects := ContentCache.effects w1
                      ++ [ETouch (cachePath cfg url); ECallback (toString d) h] |}.
Proof.
  unfold ContentCache.downloadContentAndCache.
  destruct (bodies w !! cachePath cfg url) as [d0|] eqn:Eb.
  1: destruct (heads w !! cacheHeadersPath cfg url) as [[|h0]|] eqn:Eh.
  2:{ (* served from the cache *)
      intros H. injection H as <-. cbn [ContentCache.effects bodies heads].
      rewrite last_two. intros H. injection H as <- <-.
      rewrite Eb, Eh, toString_idempotent. reflexivity. }
  all: destruct (downloadContent gunzip inflate cfg url (net url)) as [tr|];
    cbn [bind]; [|discriminate];
    destruct (callback_args tr) as [[content rh]|];
    intros H; injection H as <-; cbn [ContentCache.effects bodies heads];
    [ change [EDownload url; EWrite (cacheHeadersPath cfg url); EWrite (cachePath cfg url);
              ECallback content rh]
        with ([EDownload url; EWrite (cacheHeadersPath cfg url)]
              ++ [EWrite (cachePath cfg url); ECallback content rh]);
      rewrite app_assoc, last_two; intros H; injection H as <- <-;
      rewrite !lookup_insert_eq; reflexivity
    | rewrite last_snoc; discriminate ].
Qed.

(** X15: what was handed to the callback once is handed again from the
    cache: after a call that invoked its callback, the next call for the
    same URL makes no request and writes nothing; it touches the body file
    and invokes its callback with the text of the same content and with
    the same headers. *)
Theorem cached_content_is_returned
  (url : jsstring) (w w1 : disk) (d : data) (h : headers) :
  downloadContentAndCache url w = Ret w1 ->
  last (ContentCache.effects w1) = Some (ECallback d h) ->
  downloadContentAndCache url w1
  = Ret {| bodies := bodies w1; heads := heads w1;
           effects := ContentCache.effects w1
                      ++ [ETouch (cachePath cfg url); ECallback (toString d) h] |}.
Proof. apply next_call_is_served. Qed.

(** X16: a download that failed is cached like any other: when the
    cache has no body for the URL and the three attempts fail, the empty
    body is written to the cache, and the next call returns the empty text
    from the cache without a request. *)
Theorem failed_download_is_cached (url : jsstring) (w : disk) :
  (exists decoded, URI.decodeURI url = Ret decoded) ->
  bodies w !! cachePath cfg url = None ->
  (forall k, (k < 3)%nat ->
     exists t d, attempt_outcome gunzip inflate cfg (1 + k) (nth k (net url) [])
                 = Some (t, true, d)) ->
  exists w1 w2 h,
    downloadContentAndCache url w = Ret w1
    /\ bodies w1 !! cachePath cfg url = Some (DBuffer [])
    /\ last (ContentCache.effects w1) = Some (ECallback (DBuffer []) h)
    /\ downloadContentAndCache url w1 = Ret w2
    /\ ContentCache.effects w2
       = ContentCache.effects w1 ++ [ETouch (cachePath cfg url); ECallback (DString []) h].
Proof.
  intros [decoded Hd] Hb Hfail.
  destruct (FetchFacts.retry_shape gunzip inflate cfg 3 1 (net url) [] [])
    as (l & El & _ & _ & _ & _ & _ & Hall).
  destruct (Hall Hfail ltac:(lia)) as (_ & l' & h & ->). cbn [app] in El.
  assert (downloadContentAndCache url w
          = Ret {| bodies := <[cachePath cfg url := DBuffer []]> (bodies w);
                   heads := <[cacheHeadersPath cfg url := JHeaders h]> (heads w);
                   effects := ContentCache.effects w
                              ++ [EDownload url; EWrite (cacheHeadersPath cfg url);
                                  EWrite (cachePath cfg url);
                                  ECallback (DBuffer []) h] |}) as E1.
  { unfold ContentCache.downloadContentAndCache. rewrite Hb.
    unfold downloadContent. rewrite Hd. cbn [bind]. rewrite El.
    unfold callback_args. rewrite last_snoc. reflexivity. }
  eexists _, _, h. split; [exact E1|].
  cbn [bodies ContentCache.effects]. rewrite lookup_insert_eq.
  split; [reflexivity|].
  assert (last (ContentCache.effects w
                ++ [EDownload url; EWrite (cacheHeadersPath cfg url);
                    EWrite (cachePath cfg url); ECallback (DBuffer []) h])
          = Some (ECallback (DBuffer []) h)) as Hl.
  { change [EDownload url; EWrite (cacheHeadersPath cfg url); EWrite (cachePath cfg url);
            ECallback (DBuffer []) h]
      with ([EDownload url; EWrite (cacheHeadersPath cfg url)]
            ++ [EWrite (cachePath cfg url); ECallback (DBuffer []) h]).
    rewrite app_assoc. apply last_two. }
  split; [exact Hl|].
  rewrite (next_call_is_served url w _ (DBuffer []) h E1 Hl).
  split; reflexivity.
Qed.

End Facts.

(** A page is fetched, then served from the cache. *)
Lemma cached_content_witness :
  exists w1 w2,
    ContentCache.downloadContentAndCache no_decoder no_decoder example_cfg example_net_up
      (js "https://en.wikipedia.org/api/rest_v1/page/mobile-sections/Paris")
      ContentCache.empty_disk = Ret w1
    /\ ContentCache.downloadContentAndCache no_decoder no_decoder example_cfg example_net_up
         (js "https://en.wikipedia.org/api/rest_v1/page/mobile-sections/Paris") w1 = Ret w2
    /\ ContentCache.effects w2
       = ContentCache.effects w1
         ++ [ETouch (js "cac/fb0b124d65de68dcbaad");
             ECallback (DString [123; 125]) [(js "content-type", js "application/json")]].
Proof.
  destruct (ContentCache.downloadContentAndCache no_decoder no_decoder example_cfg
              example_net_up
              (js "https://en.wikipedia.org/api/rest_v1/page/mobile-sections/Paris")
              ContentCache.empty_disk) as [w1|] eqn:E; [|vm_compute in E; discriminate].
  exists w1. eexists. split; [reflexivity|]. split.
  - apply (cached_content_is_returned no_decoder no_decoder example_cfg example_net_up
             _ _ _ (DBuffer [123; 125]) [(js "content-type", js "application/json")] E).
    vm_compute in E. injection E as <-. reflexivity.
  - reflexivity.
Defined.

(** The service is down, and its last answer is remembered. *)
Lemma failed_download_witness :
  exists w1 w2 h,
    ContentCache.downloadContentAndCache no_decoder no_decoder example_cfg example_net_down
      (js "https://en.wikipedia.org/api/rest_v1/page/mobile-sections/Paris")
      ContentCache.empty_disk = Ret w1
    /\ bodies w1 !! cachePath example_cfg
                      (js "https://en.wikipedia.org/api/rest_v1/page/mobile-sections/Paris")
       = Some (DBuffer [])
    /\ last (ContentCache.effects w1) = Some (ECallback (DBuffer []) h)
    /\ ContentCache.downloadContentAndCache no_decoder no_decoder example_cfg
         example_net_down
         (js "https://en.wikipedia.org/api/rest_v1/page/mobile-sections/Paris") w1 = Ret w2
    /\ ContentCache.effects w2
       = ContentCache.effects w1
         ++ [ETouch (cachePath example_cfg
                       (js "https://en.wikipedia.org/api/rest_v1/page/mobile-sections/Paris"));
             ECallback (DString []) h].
Proof.
  apply (failed_download_is_cached no_decoder no_decoder example_cfg example_net_down).
  - eexists. vm_compute. reflexivity.
  - reflexivity.
  - intros k Hk. destruct k as [|[|[|k]]]; [eexists _, _; vm_compute; reflexivity..|lia].
Defined.

End ContentCacheFacts.

(* ================================================================== *)
(** * The names of a dump and the dumps to resume *)
(* ================================================================== *)

Module NamingFacts.
Import Naming.

Example names_of_the_example :
  computeFilenameRadical Node.node example_sys example_names false false false
  = js "wikipedia_en_top_100_2016-05"
  /\ computeFilenameRadical Node.node example_sys example_names true true true
     = js "wikipedia_en"
  /\ computeHtmlRootPath Node.node example_sys example_names
     = js "/srv/tmp/wikipedia_en_top_100_2016-05/"
  /\ computeZimRootPath Node.node example_sys example_names
     = js "/srv/out/wikipedia_en_top_100_2016-05.zim"
  /\ computeZimName Node.node example_sys example_names = js "kiwix.wikipedia_en_top_100"
  /\ computeRedirectsCacheFilePath Node.node example_sys example_names
     = js "cac/wikipedia_en_top_100.redirects".
Proof. repeat split; vm_compute; reflexivity. Qed.

Example checkResume_example :
  dumps <$> checkResume Node.node example_sys true example_existsSync
              [js ""; js "nopic"; js "nopic,nozim"] example_names []
  = Some [js ""; js "nopic,nozim"].
Proof. vm_compute. reflexivity. Qed.

Section Facts.
Variable lib : NodeLib.
Variable sys : SysLib.

Local Abbreviation computeFilenameRadical := (computeFilenameRadical lib sys).

(** The part of the radical that does not depend on the pictures *)
Lemma radical_split v :
  exists base,
    (forall nopic nozim,
       computeFilenameRadical (with_format v nopic nozim) false false false
       = base ++ (if nopic then js "_nopic" else []) ++ js "_" ++ contentDate v).
Proof.
  eexists. intros nopic nozim. unfold Naming.computeFilenameRadical.
  cbn [with_format filenamePrefix creator hostParts langIso2 langIso3 articleList_path
       nopic_ contentDate].
  rewrite <- app_assoc. reflexivity.
Qed.

(** X17: the dump with pictures and the dump without never share a
    name: whatever the other settings, their radicals differ, and so do
    their HTML directories and their ZIM files. *)
Theorem nopic_dump_has_its_own_names (v : Names) (nozim : bool) :
  computeFilenameRadical (with_format v true nozim) false false false
  <> computeFilenameRadical (with_format v false nozim) false false false
  /\ computeHtmlRootPath lib sys (with_format v true nozim)
     <> computeHtmlRootPath lib sys (with_format v false nozim)
  /\ computeZimRootPath lib sys (with_format v true nozim)
     <> computeZimRootPath lib sys (with_format v false nozim).
Proof.
  destruct (radical_split v) as [base Hb].
  assert (computeFilenameRadical (with_format v true nozim) false false false
          <> computeFilenameRadical (with_format v false nozim) false false false) as Hr.
  { rewrite !Hb. intros H. apply app_inv_head in H.
    apply (f_equal (@length _)) in H. rewrite !length_app in H. simpl in H. lia. }
  split; [exact Hr|]. split.
  - unfold computeHtmlRootPath.
    cbn [with_format nozim_ outputDirectory tmpDirectory].
    intros H. apply app_inv_head, app_inv_tail in H. exact (Hr H).
  - unfold computeZimRootPath. cbn [with_format outputDirectory].
    intros H. apply app_inv_head, app_inv_tail in H. exact (Hr H).
Qed.

Section Resume.
Variable resume : bool.
Variable existsSync : jsstring -> bool.

Local Abbreviation already_built := (already_built lib sys resume existsSync).

Lemma with_format_twice v a b c d :
  with_format (with_format v a b) c d = with_format v c d.
Proof. reflexivity. Qed.

Lemma already_built_with_format v a b dump :
  already_built (with_format v a b) dump = already_built v dump.
Proof. reflexivity. Qed.

(** The loop, from a point where [kept] was looked at and kept and
    [rest] is still to look at. *)
Lemma checkResume_loop_filter rest : forall fuel kept v h,
  (length rest < fuel)%nat ->
  exists st,
    checkResume_loop lib sys resume existsSync fuel (length kept) (kept ++ rest) v h
    = Some st
    /\ dumps st = kept ++ List.filter (fun d => negb (already_built v d)) rest
    /\ finished_error st = (length (dumps st) <=? 0)%nat
    /\ match last rest with
       | Some dump =>
           names st = with_format v (contains (js "nopic") dump) (contains (js "nozim") dump)
           /\ htmlRootPath_ st = computeHtmlRootPath lib sys (names st)
       | None => names st = v /\ htmlRootPath_ st = h
       end.
Proof.
  induction rest as [|d rest IH]; intros fuel kept v h Hf;
    (destruct fuel as [|fuel]; [simpl in Hf; lia|]); cbn [checkResume_loop].
  - rewrite app_nil_r, lookup_ge_None_2 by lia.
    eexists. cbn [dumps finished_error names htmlRootPath_ List.filter last].
    rewrite app_nil_r. repeat split.
  - rewrite lookup_app_r, Nat.sub_diag by lia. cbn [lookup list_lookup].
    fold (already_built v d). unfold Naming.already_built at 1. cbv zeta.
    set (v' := with_format v (contains (js "nopic") d) (contains (js "nozim") d)).
    destruct (resume && negb (nozim_ v') && existsSync (computeZimRootPath lib sys v'))
      eqn:Eb.
    + assert (delete (length kept) (kept ++ d :: rest) = kept ++ rest) as ->.
      { rewrite delete_middle. reflexivity. }
      destruct (IH fuel kept v' (computeHtmlRootPath lib sys v') ltac:(simpl in Hf; lia))
        as (st & -> & Hd & He & Hl).
      exists st. split; [reflexivity|]. cbn [List.filter].
      unfold Naming.already_built. fold v'. rewrite Eb. cbn [negb].
      split; [exact Hd|]. split; [exact He|].
      destruct rest as [|d' rest'].
      * destruct Hl as [Hn Hh]. split; [exact Hn|]. rewrite Hh, Hn. reflexivity.
      * change (last (d :: d' :: rest')) with (last (d' :: rest')).
        destruct (last (d' :: rest')) eqn:El; [exact Hl|].
        apply last_None in El. discriminate.
    + assert (kept ++ d :: rest = (kept ++ [d]) ++ rest) as -> by (rewrite <- app_assoc; reflexivity).
      assert (S (length kept) = length (kept ++ [d])) as -> by (rewrite length_app; simpl; lia).
      destruct (IH fuel (kept ++ [d]) v' (computeHtmlRootPath lib sys v')
                  ltac:(simpl in Hf; lia)) as (st & -> & Hd & He & Hl).
      exists st. split; [reflexivity|]. cbn [List.filter].
      unfold Naming.already_built. fold v'. rewrite Eb. cbn [negb].
      rewrite <- app_assoc in Hd. split; [exact Hd|]. split; [exact He|].
      destruct rest as [|d' rest'].
      * destruct Hl as [Hn Hh]. split; [exact Hn|]. rewrite Hh, Hn. reflexivity.
      * change (last (d :: d' :: rest')) with (last (d' :: rest')).
        destruct (last (d' :: rest')) eqn:El; [exact Hl|].
        apply last_None in El. discriminate.
Qed.

(** X18: [checkResume] removes from the list exactly the dumps whose
    ZIM file exists already (and only when resuming, for formats that
    build a ZIM file); it keeps the others in their order, looks at every
    dump once, and reports that nothing is left to do exactly when the
    list it leaves is empty. *)
Theorem checkResume_keeps_the_dumps_to_make
  (dumps0 : list jsstring) (v : Names) (h : jsstring) :
  exists st,
    checkResume lib sys resume existsSync dumps0 v h = Some st
    /\ dumps st = List.filter (fun d => negb (already_built v d)) dumps0
    /\ (finished_error st = true <-> dumps st = []).
Proof.
  unfold checkResume.
  destruct (checkResume_loop_filter dumps0 (S (length dumps0)) [] v h ltac:(lia))
    as (st & E & Hd & He & _).
  exists st. split; [exact E|]. split; [exact Hd|].
  rewrite He. destruct (dumps st); cbn; split; intros H; congruence.
Qed.

End Resume.
End Facts.

End NamingFacts.

(* ================================================================== *)
(** * Redirects *)
(* ================================================================== *)

Module RedirectFacts.
Import Article Redirects Shape.

Example redirect_page_example :
  saveHtmlRedirect_data (js "Eiffel_Tower") (js "Tour_Eiffel")
  = Ret (html ("<html><head><meta charset='UTF-8' /><title>Eiffel Tower</title>"
               ++ "<meta http-equiv='refresh' content='0; URL=Tour_Eiffel.html'></head>"
               ++ "<body></body></html>")).
Proof. vm_compute. reflexivity. Qed.

(** A dollar sign of the title is read as a pattern. *)
Example redirect_page_dollar :
  redirect_page (js "US$&A") (js "x.html")
  = html ("<html><head><meta charset='UTF-8' /><title>US{{ title }}A</title>"
          ++ "<meta http-equiv='refresh' content='0; URL=x.html'></head>"
          ++ "<body></body></html>").
Proof. vm_compute. reflexivity. Qed.

Lemma GetSubstitution_plain matched before after r :
  ~ In 36 r -> GetSubstitution matched before after r = r.
Proof.
  induction r as [|c t IH]; [reflexivity|]. intros H. cbn [GetSubstitution].
  destruct (Z.eqb_spec c 36) as [->|_]; [exfalso; apply H; left; reflexivity|].
  rewrite IH; [reflexivity|]. intros Hin. apply H. right. exact Hin.
Qed.

Lemma indexOf_skip p0 p' a s :
  Forall (fun c => c <> p0) a ->
  indexOf (p0 :: p') (a ++ s) = (fun n => (length a + n)%nat) <$> indexOf (p0 :: p') s.
Proof.
  induction 1 as [|c a Hc _ IH]; cbn [app length].
  - destruct (indexOf (p0 :: p') s); reflexivity.
  - cbn [indexOf starts_with]. destruct (Z.eqb_spec p0 c); [congruence|].
    cbn [andb]. rewrite IH. destruct (indexOf (p0 :: p') s); reflexivity.
Qed.

Lemma starts_with_within p : forall t c s,
  starts_with p (t ++ c :: s) = true -> ~ In c p -> starts_with p t = true.
Proof.
  induction p as [|x p IH]; intros t c s H Hc; [destruct t; reflexivity|].
  destruct t as [|y t]; cbn [app starts_with] in *.
  - apply andb_true_iff in H as [H _]. apply Z.eqb_eq in H.
    exfalso. apply Hc. left. exact H.
  - apply andb_true_iff in H as [H1 H2]. rewrite H1. cbn [andb].
    apply (IH t c s H2). intros Hin. apply Hc. right. exact Hin.
Qed.

Lemma contains_head p s : contains p s = false -> starts_with p s = false.
Proof. destruct s; cbn [contains]; intros H; apply orb_false_iff in H; apply H. Qed.

Lemma contains_tail p x t : contains p (x :: t) = false -> contains p t = false.
Proof. cbn [contains]. intros H. apply orb_false_iff in H. apply H. Qed.

Lemma indexOf_over p0 p' t : forall c s,
  contains (p0 :: p') t = false -> ~ In c (p0 :: p') ->
  indexOf (p0 :: p') (t ++ c :: s)
  = (fun n => (length t + 1 + n)%nat) <$> indexOf (p0 :: p') s.
Proof.
  induction t as [|x t IH]; intros c s Ht Hc.
  - cbn [app length]. apply (indexOf_skip p0 p' [c] s).
    constructor; [|constructor]. intros ->. apply Hc. left. reflexivity.
  - cbn [app length indexOf].
    destruct (starts_with (p0 :: p') (x :: t ++ c :: s)) eqn:E.
    + apply (starts_with_within (p0 :: p') (x :: t) c s) in E; [|exact Hc].
      apply contains_head in Ht. congruence.
    + rewrite (IH c s (contains_tail _ _ _ Ht) Hc).
      destruct (indexOf (p0 :: p') s); reflexivity.
Qed.

(** The page of a redirect once the two places of the template are
    filled *)
Lemma redirect_page_filled title url :
  ~ In 36 title -> contains (js "{{ target }}") title = false -> ~ In 36 url ->
  redirect_page title url
  = html "<html><head><meta charset='UTF-8' /><title>" ++ title
    ++ html "</title><meta http-equiv='refresh' content='0; URL=" ++ url
    ++ html "'></head><body></body></html>".
Proof.
  intros Ht Hc Hu. unfold redirect_page.
  set (pre := html "<html><head><meta charset='UTF-8' /><title>").
  set (mid := html "/title><meta http-equiv='refresh' content='0; URL=").
  set (post := html "'></head><body></body></html>").
  assert (replace redirectTemplateCode (js "{{ title }}") title
          = (pre ++ title) ++ 60 :: mid ++ js "{{ target }}" ++ post) as ->.
  { unfold replace.
    assert (indexOf (js "{{ title }}") redirectTemplateCode = Some 43%nat) as ->
      by (vm_compute; reflexivity).
    cbv zeta. rewrite (GetSubstitution_plain _ _ _ _ Ht).
    assert (take 43 redirectTemplateCode = pre) as -> by (vm_compute; reflexivity).
    assert (drop (43 + length (js "{{ title }}")) redirectTemplateCode
            = 60 :: mid ++ js "{{ target }}" ++ post) as -> by (vm_compute; reflexivity).
    rewrite <- app_assoc. reflexivity. }
  unfold replace.
  assert (indexOf (js "{{ target }}") ((pre ++ title) ++ 60 :: mid ++ js "{{ target }}" ++ post)
          = Some (length (pre ++ title ++ 60 :: mid))) as ->.
  { rewrite <- app_assoc.
    change (js "{{ target }}") with (123 :: js "{ target }}") at 1.
    rewrite (indexOf_skip 123 (js "{ target }}") pre)
      by (subst pre; vm_compute; repeat constructor; discriminate).
    change (123 :: js "{ target }}") with (js "{{ target }}").
    change (js "{{ target }}") with (123 :: js "{ target }}") at 1.
    rewrite (indexOf_over 123 (js "{ target }}") title 60); [|exact Hc|].
    2:{ vm_compute. intuition discriminate. }
    rewrite (indexOf_skip 123 (js "{ target }}") mid)
      by (subst mid; vm_compute; repeat constructor; discriminate).
    change (indexOf (123 :: js "{ target }}") (js "{{ target }}" ++ post)) with (Some O).
    cbn [fmap option_fmap option_map]. f_equal. rewrite !length_app. cbn [length].
    rewrite Nat.add_0_r, <- Nat.add_assoc. reflexivity. }
  cbv zeta. rewrite (GetSubstitution_plain _ _ _ _ Hu).
  assert ((pre ++ title) ++ 60 :: mid ++ js "{{ target }}" ++ post
          = (pre ++ title ++ 60 :: mid) ++ js "{{ target }}" ++ post) as ->.
  { rewrite <- !app_assoc. reflexivity. }
  rewrite take_app_length.
  assert (drop (length (pre ++ title ++ 60 :: mid) + length (js "{{ target }}"))
               ((pre ++ title ++ 60 :: mid) ++ js "{{ target }}" ++ post) = post) as ->.
  { rewrite <- drop_drop, drop_app_length. apply (drop_app_length (js "{{ target }}")). }
  rewrite <- !app_assoc. reflexivity.
Qed.

Lemma In_replace_all x c r s : In x (Str.replace_all c r s) -> In x r \/ In x s.
Proof.
  induction s as [|y t IH]; cbn [Str.replace_all]; [tauto|].
  destruct (y =? c).
  - intros H. apply in_app_or in H as [H|H]; [tauto|]. destruct (IH H); [tauto|].
    right. right. assumption.
  - intros [H|H]; [right; left; exact H|]. destruct (IH H); [tauto|].
    right. right. assumption.
Qed.

(** X19: the page written for a redirect carries the title and the
    address of the target at their places, as they are: when the
    identifier of the redirect holds no dollar sign and its title does not
    hold the text [{{ target }}], the page is the template with the title
    (underscores as spaces, not escaped) and the address [getArticleUrl]
    gives for the target.  The page of the redirect to the main page is
    built the same way. *)
Theorem redirect_page_carries_title_and_target (redirectId target url : jsstring) :
  code_units target ->
  getArticleUrl target = Ret url ->
  ~ In 36 redirectId ->
  contains (js "{{ target }}") (Str.replace_all 95 [32] redirectId) = false ->
  saveHtmlRedirect_data redirectId target
  = Ret (html "<html><head><meta charset='UTF-8' /><title>"
         ++ Str.replace_all 95 [32] redirectId
         ++ html "</title><meta http-equiv='refresh' content='0; URL=" ++ url
         ++ html "'></head><body></body></html>")
  /\ (redirectId = target ->
      createMainPageRedirect_html target = saveHtmlRedirect_data redirectId target).
Proof.
  intros Hu Hg Hd Hc. split; [|intros ->; reflexivity].
  unfold saveHtmlRedirect_data. rewrite Hg. cbn [bind]. f_equal.
  apply redirect_page_filled; [|exact Hc|].
  - intros H. apply In_replace_all in H as [[H|[]]|H]; [discriminate|exact (Hd H)].
  - pose proof (ArticleFacts.getArticleUrl_url_safe target url Hu Hg) as Hs.
    rewrite List.Forall_forall in Hs. intros H. apply Hs in H. discriminate.
Qed.

Lemma redirect_page_witness :
  saveHtmlRedirect_data (js "Eiffel_Tower") (js "Tour_Eiffel")
  = Ret (html "<html><head><meta charset='UTF-8' /><title>"
         ++ Str.replace_all 95 [32] (js "Eiffel_Tower")
         ++ html "</title><meta http-equiv='refresh' content='0; URL="
         ++ js "Tour_Eiffel.html"
         ++ html "'></head><body></body></html>")
  /\ (js "Eiffel_Tower" = js "Tour_Eiffel" ->
      createMainPageRedirect_html (js "Tour_Eiffel")
      = saveHtmlRedirect_data (js "Eiffel_Tower") (js "Tour_Eiffel")).
Proof.
  apply redirect_page_carries_title_and_target.
  - unfold code_units. repeat constructor; lia.
  - vm_compute. reflexivity.
  - vm_compute. intuition discriminate.
  - vm_compute. reflexivity.
Defined.

Lemma split_on_whole sep a : ~ In sep a -> split_on sep a = [a].
Proof.
  induction a as [|c t IH]; [reflexivity|]. intros H. cbn [split_on].
  destruct (Z.eqb_spec c sep) as [->|_]; [exfalso; apply H; left; reflexivity|].
  rewrite IH; [reflexivity|]. intros Hin. apply H. right. exact Hin.
Qed.

Lemma split_on_field sep a rest :
  ~ In sep a -> split_on sep (a ++ sep :: rest) = a :: split_on sep rest.
Proof.
  induction a as [|c t IH]; intros H.
  - cbn [app split_on]. rewrite Z.eqb_refl. reflexivity.
  - cbn [app split_on].
    destruct (Z.eqb_spec c sep) as [->|_]; [exfalso; apply H; left; reflexivity|].
    rewrite IH; [reflexivity|]. intros Hin. apply H. right. exact Hin.
Qed.

Lemma article_name_units x articleId name :
  getArticleBase articleId false = Ret name ->
  In x name -> In x articleId \/ x = 95 \/ In x (js ".html").
Proof.
  unfold getArticleBase.
  destruct (ArticleFacts.cut_loop_take (length (Str.replace_all 47 [95] articleId))
              (Str.replace_all 47 [95] articleId)) as [n ->].
  cbn [bind]. intros H. injection H as <-. intros H.
  apply in_app_or in H as [H|H]; [|tauto].
  apply ArticleFacts.In_take, In_replace_all in H as [[H|[]]|H]; [|tauto].
  right. left. symmetry. exact H.
Qed.

(** X20: the line written for a redirect can be read back: when
    neither identifier holds a tab or a line feed, the line ends with its
    only line feed and its four fields, separated by tabs, are the letter
    [A], the file name of the redirect, its title and the file name of the
    target. *)
Theorem cacheRedirect_line_fields (redirectId target : jsstring) :
  ~ In 9 redirectId -> ~ In 10 redirectId -> ~ In 9 target -> ~ In 10 target ->
  exists from to l,
    getArticleBase redirectId false = Ret from
    /\ getArticleBase target false = Ret to
    /\ cacheRedirect_line redirectId target = Ret (l ++ [10])
    /\ ~ In 10 l
    /\ split_on 9 l = [js "A"; from; Str.replace_all 95 [32] redirectId; to].
Proof.
  intros H1 H2 H3 H4. unfold cacheRedirect_line.
  destruct (getArticleBase redirectId false) as [from|] eqn:Ef;
    [|unfold getArticleBase in Ef; discriminate].
  destruct (getArticleBase target false) as [to|] eqn:Et;
    [|unfold getArticleBase in Et; discriminate].
  cbn [bind].
  assert (forall x, x = 9 \/ x = 10 -> ~ In x from) as Hfrom.
  { intros x Hx Hin. apply (article_name_units x _ _ Ef) in Hin.
    destruct Hx as [-> | ->]; destruct Hin as [Hin|[Hin|Hin]];
      try discriminate; try contradiction; vm_compute in Hin; intuition discriminate. }
  assert (forall x, x = 9 \/ x = 10 -> ~ In x to) as Hto.
  { intros x Hx Hin. apply (article_name_units x _ _ Et) in Hin.
    destruct Hx as [-> | ->]; destruct Hin as [Hin|[Hin|Hin]];
      try discriminate; try contradiction; vm_compute in Hin; intuition discriminate. }
  assert (forall x, x = 9 \/ x = 10 -> ~ In x (Str.replace_all 95 [32] redirectId)) as Htitle.
  { intros x Hx Hin. apply In_replace_all in Hin as [[Hin|[]]|Hin];
      destruct Hx as [-> | ->]; try discriminate; contradiction. }
  exists from, to,
    (js "A" ++ [9] ++ from ++ [9] ++ Str.replace_all 95 [32] redirectId ++ [9] ++ to).
  repeat split.
  - rewrite <- !app_assoc. reflexivity.
  - intros Hin. repeat (apply in_app_or in Hin as [Hin|Hin]);
      try (vm_compute in Hin; intuition discriminate).
    + exact (Hfrom 10 (or_intror eq_refl) Hin).
    + exact (Htitle 10 (or_intror eq_refl) Hin).
    + exact (Hto 10 (or_intror eq_refl) Hin).
  - change (js "A" ++ [9] ++ from ++ [9] ++ Str.replace_all 95 [32] redirectId ++ [9] ++ to)
      with (js "A" ++ 9 :: (from ++ 9 :: (Str.replace_all 95 [32] redirectId ++ 9 :: to))).
    rewrite split_on_field by (vm_compute; intuition discriminate).
    rewrite split_on_field by (apply Hfrom; left; reflexivity).
    rewrite split_on_field by (apply Htitle; left; reflexivity).
    rewrite split_on_whole by (apply Hto; left; reflexivity).
    reflexivity.
Qed.

Lemma cacheRedirect_line_witness :
  exists from to l,
    getArticleBase (js "Eiffel_Tower") false = Ret from
    /\ getArticleBase (js "Tour_Eiffel") false = Ret to
    /\ cacheRedirect_line (js "Eiffel_Tower") (js "Tour_Eiffel") = Ret (l ++ [10])
    /\ ~ In 10 l
    /\ split_on 9 l = [js "A"; from; Str.replace_all 95 [32] (js "Eiffel_Tower"); to].
Proof.
  apply cacheRedirect_line_fields; vm_compute; intuition discriminate.
Defined.

End RedirectFacts.

(* ================================================================== *)
(** * downloadContent: what a successful attempt delivers *)
(* ================================================================== *)

Module DeliveryFacts.
Import Fetch.

Section Facts.
Variable gunzip : bytes -> option bytes.
Variable inflate : bytes -> option bytes.
Variable cfg : Config.

Lemma data_events_collect n h cs : forall cf rd c0 rh fa tr,
  fold_left (handle gunzip inflate n) (map EvData cs)
    {| calledFinished := cf; request_defined := rd; listening := Some h;
       chunks := c0; responseHeaders := rh; finished_args := fa; trace := tr |}
  = {| calledFinished := cf; request_defined := rd; listening := Some h;
       chunks := c0 ++ cs; responseHeaders := rh; finished_args := fa; trace := tr |}.
Proof.
  induction cs as [|c cs IH]; intros cf rd c0 rh fa tr.
  - cbn [map fold_left]. rewrite app_nil_r. reflexivity.
  - cbn [map fold_left handle listening calledFinished request_defined chunks
         responseHeaders finished_args trace].
    rewrite IH, <- app_assoc. reflexivity.
Qed.

Lemma answered_attempt n h cs rh tr :
  fold_left (handle gunzip inflate n) (EvResponse 200 h :: map EvData cs ++ [EvEnd])
    {| calledFinished := false; request_defined := true; listening := None;
       chunks := []; responseHeaders := rh; finished_args := None; trace := tr |}
  = handle gunzip inflate n
      {| calledFinished := false; request_defined := true; listening := Some h;
         chunks := cs; responseHeaders := rh; finished_args := None; trace := tr |}
      EvEnd.
Proof.
  cbn [fold_left]. rewrite fold_left_app.
  change (handle gunzip inflate n _ (EvResponse 200 h))
    with {| calledFinished := false; request_defined := true; listening := Some h;
            chunks := []; responseHeaders := rh; finished_args := None; trace := tr |}.
  rewrite data_events_collect. reflexivity.
Qed.

Lemma retry_first times n evs script hdrs tr :
  retry gunzip inflate cfg (S times) n (evs :: script) hdrs tr
  = let st := run_attempt gunzip inflate cfg n hdrs tr evs in
    match st.(finished_args) with
    | None => st.(trace)
    | Some (_, message, d) =>
        if message && negb (Nat.eqb times 0)
        then retry gunzip inflate cfg times (S n) script st.(responseHeaders) st.(trace)
        else st.(trace) ++ (if message then [TPrintErr] else [])
             ++ [TCallback (data_or_empty d) st.(responseHeaders)]
    end.
Proof. reflexivity. Qed.

(** X21: a response with status 200 that is not announced as gzip or
    deflate is delivered as it came: the first attempt is the only one,
    and the callback receives a Buffer holding the chunks in the order of
    their arrival, with the headers of the response. *)
Theorem downloadContent_delivers_the_body (url u : jsstring) (hdrs : headers)
  (body : list bytes) (script : list (list net_event)) :
  URI.decodeURI url = Ret u ->
  header_get hdrs (js "content-encoding") <> Some (js "gzip") ->
  header_get hdrs (js "content-encoding") <> Some (js "deflate") ->
  downloadContent gunzip inflate cfg url
    ((EvResponse 200 hdrs :: map EvData body ++ [EvEnd]) :: script)
  = Ret [TRequest 1 (cfg.(requestTimeout) * 1000 * 1); TSetTimeout 0;
         TCallback (DBuffer (concat body)) hdrs].
Proof.
  intros Hu Hg Hd. unfold downloadContent. rewrite Hu. cbn [bind]. f_equal.
  rewrite retry_first. unfold run_attempt. rewrite answered_attempt.
  cbn [handle listening chunks].
  destruct (header_get hdrs (js "content-encoding")) as [enc|] eqn:Eh.
  - destruct (str_eqb enc (js "gzip")) eqn:E1.
    { apply str_eqb_eq in E1. subst enc. contradiction. }
    destruct (str_eqb enc (js "deflate")) eqn:E2.
    { apply str_eqb_eq in E2. subst enc. contradiction. }
    reflexivity.
  - reflexivity.
Qed.

(** X22: a response with status 200 announced as gzip (or deflate) that
    [zlib.gunzip] (or [zlib.inflate]) decodes is delivered decoded, in one
    attempt, with the headers of the response: as a string when the
    decoded content is not empty, as an empty Buffer when it is. *)
Theorem downloadContent_delivers_decoded (url u : jsstring) (hdrs : headers)
  (body : list bytes) (decoded : bytes) (script : list (list net_event)) :
  URI.decodeURI url = Ret u ->
  (header_get hdrs (js "content-encoding") = Some (js "gzip")
   /\ gunzip (concat body) = Some decoded)
  \/ (header_get hdrs (js "content-encoding") = Some (js "deflate")
      /\ inflate (concat body) = Some decoded) ->
  downloadContent gunzip inflate cfg url
    ((EvResponse 200 hdrs :: map EvData body ++ [EvEnd]) :: script)
  = Ret [TRequest 1 (cfg.(requestTimeout) * 1000 * 1); TSetTimeout 0;
         TCallback (match decoded with [] => DBuffer [] | _ => DString decoded end) hdrs].
Proof.
  intros Hu Hc. unfold downloadContent. rewrite Hu. cbn [bind]. f_equal.
  rewrite retry_first. unfold run_attempt. rewrite answered_attempt.
  cbn [handle listening chunks].
  destruct Hc as [[-> Hz]|[-> Hz]]; cbn [str_eqb]; rewrite ?str_eqb_refl.
  - rewrite Hz. destruct decoded; reflexivity.
  - replace (str_eqb (js "deflate") (js "gzip")) with false by (vm_compute; reflexivity).
    rewrite Hz. destruct decoded; reflexivity.
Qed.

End Facts.

Lemma downloadContent_delivers_witness :
  downloadContent no_decoder no_decoder example_cfg (js "http://en.wikipedia.org/x")
    ((EvResponse 200 [(js "content-type", js "text/html")]
        :: map EvData [[60; 112]; [62]] ++ [EvEnd]) :: [])
  = Ret [TRequest 1 (example_cfg.(requestTimeout) * 1000 * 1); TSetTimeout 0;
         TCallback (DBuffer (concat [[60; 112]; [62]]))
           [(js "content-type", js "text/html")]].
Proof.
  apply (downloadContent_delivers_the_body no_decoder no_decoder example_cfg
           (js "http://en.wikipedia.org/x") (js "http://en.wikipedia.org/x")).
  - vm_compute. reflexivity.
  - vm_compute. discriminate.
  - vm_compute. discriminate.
Defined.

Lemma downloadContent_decoded_witness :
  downloadContent (fun b => Some (rev b)) no_decoder example_cfg
    (js "http://en.wikipedia.org/x")
    ((EvResponse 200 [(js "content-encoding", js "gzip")]
        :: map EvData [[62]; [112; 60]] ++ [EvEnd]) :: [])
  = Ret [TRequest 1 (example_cfg.(requestTimeout) * 1000 * 1); TSetTimeout 0;
         TCallback (DString [60; 112; 62]) [(js "content-encoding", js "gzip")]].
Proof.
  apply (downloadContent_delivers_decoded (fun b => Some (rev b)) no_decoder example_cfg
           (js "http://en.wikipedia.org/x") (js "http://en.wikipedia.org/x")
           [(js "content-encoding", js "gzip")] [[62]; [112; 60]] [60; 112; 62]).
  - vm_compute. reflexivity.
  - left. split; vm_compute; reflexivity.
Defined.

End DeliveryFacts.

(* ================================================================== *)
(** * The command that optimizes a media file *)
(* ================================================================== *)

Module OptimizeFacts.
Import Optimize.

Example getOptimizationCommand_examples :
  getOptimizationCommand Node.node (js "k3x9a") (js "m/a.jpg") None
  = Some (html "jpegoptim -s -f --all-normal -m40 'm/a.jpg'")
  /\ getOptimizationCommand Node.node (js "k3x9a") (js "m/a.gif") None
     = Some (html ("gifsicle --verbose --colors 64 -O3 'm/a.gif' -o 'm/a.k3x9a.gif' && "
                   ++ "if [ $(stat -c%s 'm/a.k3x9a.gif') -lt $(stat -c%s 'm/a.gif') ]; "
                   ++ "then mv 'm/a.k3x9a.gif' 'm/a.gif'; else rm 'm/a.k3x9a.gif'; fi"))
  /\ getOptimizationCommand Node.node (js "k3x9a") (js "m/a.svg") None = None
  /\ getOptimizationCommand Node.node (js "k3x9a") (js "m/a.svg") (Some (js "png"))
     = Some (html ("pngquant --verbose --nofs --force --ext='.k3x9a.svg' 'm/a.svg' && "
                   ++ "advdef -q -z -4 -i 5 'm/a.k3x9a.svg' && "
                   ++ "if [ $(stat -c%s 'm/a.k3x9a.svg') -lt $(stat -c%s 'm/a.svg') ]; "
                   ++ "then mv 'm/a.k3x9a.svg' 'm/a.svg'; else rm 'm/a.k3x9a.svg'; fi")).
Proof. repeat split; vm_compute; reflexivity. Qed.

Lemma escape_cons c t :
  escape (c :: t)
  = (if (c =? 34) || (c =? 36) || (c =? 96) then [92; c] else [c]) ++ escape t.
Proof.
  unfold escape. cbn [Str.replace_all].
  destruct (Z.eqb_spec c 34) as [->|H1]; [reflexivity|].
  cbn [Str.replace_all].
  destruct (Z.eqb_spec c 36) as [->|H2]; [reflexivity|].
  cbn [Str.replace_all].
  destruct (Z.eqb_spec c 96) as [->|H3]; reflexivity.
Qed.

Lemma escape_units s :
  escape s
  = flat_map (fun c => if (c =? 34) || (c =? 36) || (c =? 96) then [92; c] else [c]) s.
Proof.
  induction s as [|c t IH]; [reflexivity|].
  rewrite escape_cons, IH. reflexivity.
Qed.

(** X23: in every command [getOptimizationCommand] returns, the path
    of the file stands between double quotes with a backslash put before
    each of its double quotes, dollar signs and backquotes, and with every
    other unit, a backslash included, left as it is. *)
Theorem getOptimizationCommand_quotes_the_path (lib : NodeLib)
  (random path : jsstring) (forcedType : option jsstring) (cmd : jsstring) :
  getOptimizationCommand lib random path forcedType = Some cmd ->
  exists before after,
    cmd = before ++ [34]
          ++ flat_map (fun c => if (c =? 34) || (c =? 36) || (c =? 96)
                                then [92; c] else [c]) path
          ++ [34] ++ after.
Proof.
  unfold getOptimizationCommand. cbv zeta. rewrite <- escape_units.
  match goal with |- context [is_one_of ?t ?l] => destruct (is_one_of t l) end.
  { intros H. injection H as <-.
    exists (js "jpegoptim -s -f --all-normal -m40 "), []. reflexivity. }
  match goal with |- context [is_one_of ?t ?l] => destruct (is_one_of t l) end.
  { intros H. injection H as <-.
    exists (html "pngquant --verbose --nofs --force --ext='"
            ++ (js "." ++ random ++ js "." ++ Media.filename_ext lib path) ++ html "' ").
    eexists. rewrite <- !app_assoc. reflexivity. }
  match goal with |- context [is_one_of ?t ?l] => destruct (is_one_of t l) end;
    [|discriminate].
  intros H. injection H as <-.
  exists (js "gifsicle --verbose --colors 64 -O3 "). eexists. reflexivity.
Qed.

Lemma getOptimizationCommand_quotes_witness :
  exists before after,
    html "jpegoptim -s -f --all-normal -m40 'm/a\$b.jpg'"
    = before ++ [34]
      ++ flat_map (fun c => if (c =? 34) || (c =? 36) || (c =? 96)
                            then [92; c] else [c]) (js "m/a$b.jpg")
      ++ [34] ++ after.
Proof.
  apply (getOptimizationCommand_quotes_the_path Node.node (js "k3x9a")
           (js "m/a$b.jpg") None).
  vm_compute. reflexivity.
Defined.

End OptimizeFacts.

(* ================================================================== *)
(** * Patterns: the matcher against the words of a pattern *)
(* ================================================================== *)

Module RegexFacts.
Import Regex RegexMeaning.

Lemma m_star greedy a s caps k :
  m (RStar greedy a) s caps k = star_loop greedy a k (length s) s caps.
Proof. reflexivity. Qed.

Lemma star_loop_S greedy a k fuel s caps :
  star_loop greedy a k (S fuel) s caps
  = let more :=
      m a s caps (fun s' caps' =>
        if (length s' <? length s)%nat then star_loop greedy a k fuel s' caps' else None) in
    if greedy then or_try more (k s caps) else or_try (k s caps) more.
Proof. destruct greedy; reflexivity. Qed.

Lemma or_try_Some a b c : or_try a b = Some c -> a = Some c \/ b = Some c.
Proof. destruct a; cbn; intros H; [left|right]; exact H. Qed.

Lemma or_try_left a b : a <> None -> or_try a b <> None.
Proof. destruct a; cbn; congruence. Qed.

Lemma or_try_right a b : b <> None -> or_try a b <> None.
Proof. destruct a; cbn; congruence. Qed.

(** What the matcher accepts is a word of the pattern followed by
    what the continuation accepts. *)
Lemma m_sound r : forall s caps k c,
  m r s caps k = Some c ->
  exists pre s' caps', s = pre ++ s' /\ lang r pre /\ k s' caps' = Some c.
Proof.
  induction r as [p| |a IHa b IHb|a IHa b IHb|g a IHa|n a IHa|]; intros s caps k c H.
  - cbn [m] in H. destruct s as [|x t]; [discriminate|].
    destruct (p x) eqn:E; [|discriminate].
    exists [x], t, caps. repeat split; [|exact H]. exists x. split; [reflexivity|exact E].
  - exists [], s, caps. repeat split. exact H.
  - cbn [m] in H. apply IHa in H as (p1 & s1 & c1 & -> & L1 & H).
    apply IHb in H as (p2 & s2 & c2 & -> & L2 & H).
    exists (p1 ++ p2), s2, c2. rewrite app_assoc. repeat split; [|exact H].
    exists p1, p2. repeat split; assumption.
  - cbn [m] in H. apply or_try_Some in H as [H|H].
    + apply IHa in H as (p1 & s1 & c1 & -> & L1 & H).
      exists p1, s1, c1. repeat split; [left; exact L1|exact H].
    + apply IHb in H as (p1 & s1 & c1 & -> & L1 & H).
      exists p1, s1, c1. repeat split; [right; exact L1|exact H].
  - rewrite m_star in H. revert H. generalize (length s) at 1. intros fuel.
    revert s caps. induction fuel as [|fuel IH]; intros s caps H.
    + exists [], s, caps. repeat split; [|exact H]. exists []. split; [reflexivity|constructor].
    + rewrite star_loop_S in H. cbv zeta in H.
      assert (k s caps = Some c ->
              exists pre s' caps', s = pre ++ s' /\ lang (RStar g a) pre
                                   /\ k s' caps' = Some c) as Hstop.
      { intros Hk. exists [], s, caps. repeat split; [|exact Hk].
        exists []. split; [reflexivity|constructor]. }
      assert (m a s caps (fun s' caps' =>
                if (length s' <? length s)%nat
                then star_loop g a k fuel s' caps' else None) = Some c ->
              exists pre s' caps', s = pre ++ s' /\ lang (RStar g a) pre
                                   /\ k s' caps' = Some c) as Hmore.
      { intros Hm. apply IHa in Hm as (p1 & s1 & c1 & -> & L1 & Hm).
        destruct (length s1 <? length (p1 ++ s1))%nat; [|discriminate].
        apply IH in Hm as (p2 & s2 & c2 & -> & (ws & -> & Hws) & Hm).
        exists (p1 ++ concat ws), s2, c2. rewrite app_assoc. repeat split; [|exact Hm].
        exists (p1 :: ws). split; [reflexivity|constructor; assumption]. }
      destruct g; apply or_try_Some in H as [H|H]; auto.
  - cbn [m] in H. apply IHa in H as (p1 & s1 & c1 & -> & L1 & H).
    eexists p1, s1, _. repeat split; [exact L1|exact H].
  - cbn [m] in H. destruct s; [|discriminate].
    exists [], [], caps. repeat split. exact H.
Qed.

Lemma concat_nonempty (ws : list jsstring) :
  exists ws', concat ws' = concat ws /\ List.Forall (fun w => w <> []) ws'
              /\ forall P : jsstring -> Prop, List.Forall P ws -> List.Forall P ws'.
Proof.
  induction ws as [|w ws (ws' & E & Hn & HP)].
  - exists []. repeat split; [constructor|auto].
  - destruct w as [|x w].
    + exists ws'. repeat split; [exact E|exact Hn|].
      intros P H. inversion H; subst. apply HP. assumption.
    + exists ((x :: w) :: ws'). cbn [concat]. rewrite E. repeat split.
      * constructor; [discriminate|exact Hn].
      * intros P H. inversion H; subst. constructor; [assumption|apply HP; assumption].
Qed.

(** A word of a pattern that does not test for the end, followed by
    something the continuation accepts whatever the captures, is
    accepted. *)
Lemma m_complete r : no_end r = true -> forall w s' caps k,
  lang r w -> (forall caps', k s' caps' <> None) -> m r (w ++ s') caps k <> None.
Proof.
  induction r as [p| |a IHa b IHb|a IHa b IHb|g a IHa|n a IHa|];
    intros Hne w s' caps k L Hk.
  - destruct L as (c & -> & Hp). cbn [m app]. rewrite Hp. apply Hk.
  - cbn in L. subst w. cbn [m app]. apply Hk.
  - cbn [no_end] in Hne. apply andb_prop in Hne as [Ha Hb].
    destruct L as (u & v & -> & Lu & Lv). cbn [m]. rewrite <- app_assoc.
    apply (IHa Ha); [exact Lu|]. intros caps'. apply (IHb Hb); assumption.
  - cbn [no_end] in Hne. apply andb_prop in Hne as [Ha Hb]. cbn [m].
    destruct L as [L|L].
    + apply or_try_left. apply (IHa Ha); assumption.
    + apply or_try_right. apply (IHb Hb); assumption.
  - cbn [no_end] in Hne. destruct L as (ws0 & -> & Hws0).
    destruct (concat_nonempty ws0) as (ws & <- & Hn & HP).
    specialize (HP _ Hws0). clear Hws0 ws0.
    rewrite m_star.
    assert (forall fuel caps, (length (concat ws) <= fuel)%nat ->
              star_loop g a k fuel (concat ws ++ s') caps <> None) as Hloop.
    { clear caps. induction ws as [|w ws IH]; intros fuel caps Hf.
      - cbn [concat app]. destruct fuel; [apply Hk|].
        rewrite star_loop_S. cbv zeta.
        destruct g; [apply or_try_right|apply or_try_left]; apply Hk.
      - inversion Hn as [|? ? Hw Hn']; subst. inversion HP as [|? ? Lw HP']; subst.
        cbn [concat] in Hf |- *. rewrite length_app in Hf.
        destruct fuel as [|fuel].
        { destruct w; [contradiction|cbn in Hf; lia]. }
        rewrite star_loop_S. cbv zeta.
        assert (m a ((w ++ concat ws) ++ s') caps
                  (fun s1 caps1 =>
                     if (length s1 <? length ((w ++ concat ws) ++ s'))%nat
                     then star_loop g a k fuel s1 caps1 else None) <> None) as Hmore.
        { rewrite <- app_assoc. apply (IHa Hne); [exact Lw|]. intros caps'.
          replace (length (concat ws ++ s') <? length (w ++ concat ws ++ s'))%nat with true.
          - apply IH; [assumption|assumption|].
            destruct w; [contradiction|cbn in Hf; lia].
          - symmetry. apply Nat.ltb_lt. rewrite (length_app w).
            destruct w; [contradiction|cbn; lia]. }
        destruct g; [apply or_try_left|apply or_try_right]; exact Hmore. }
    apply Hloop. rewrite length_app. lia.
  - cbn [no_end] in Hne. cbn [m]. apply (IHa Hne); [exact L|]. intros caps'. apply Hk.
  - discriminate.
Qed.

End RegexFacts.

(* ================================================================== *)
(** * validateEmail and the user agent *)
(* ================================================================== *)

Module EmailFacts.
Import Regex RegexMeaning Email RegexFacts.

Example validateEmail_examples :
  validateEmail (js "admin@kiwix.org") = true
  /\ validateEmail (js "first.last@mail.example.co") = true
  /\ validateEmail (html "'the admin'@kiwix.org") = true
  /\ validateEmail (js "admin@[192.168.1.10]") = true
  /\ validateEmail (js "admin@localhost") = false
  /\ validateEmail (js "admin@kiwix.o") = false
  /\ validateEmail (js "admin@kiwix.org ") = false
  /\ validateEmail (js "a..b@kiwix.org") = false
  /\ validateEmail (js "the admin@kiwix.org") = false
  /\ validateEmail (js "undefined") = false
  /\ validateEmail [] = false.
Proof. repeat split; vm_compute; reflexivity. Qed.

Lemma lang_covers P r : covers P r -> forall w, lang r w -> forallb P w = true.
Proof.
  induction r as [p| |a IHa b IHb|a IHa b IHb|g a IHa|n a IHa|]; intros Hc w L.
  - destruct L as (c & -> & Hp). cbn. rewrite (Hc c Hp). reflexivity.
  - cbn in L. subst w. reflexivity.
  - destruct Hc as [Ha Hb]. destruct L as (u & v & -> & Lu & Lv).
    rewrite forallb_app, (IHa Ha u Lu), (IHb Hb v Lv). reflexivity.
  - destruct Hc as [Ha Hb]. destruct L as [L|L]; [apply (IHa Ha)|apply (IHb Hb)]; exact L.
  - destruct L as (ws & -> & Hws). induction Hws as [|x ws Lx Hws IH]; [reflexivity|].
    cbn [concat]. rewrite forallb_app, (IHa Hc x Lx), IH. reflexivity.
  - apply (IHa Hc). exact L.
  - cbn in L. subst w. reflexivity.
Qed.

Lemma lang_star_units g p w : forallb p w = true -> lang (RStar g (RChar p)) w.
Proof.
  intros H. exists (map (fun c => [c]) w). split.
  - induction w as [|c w IH]; [reflexivity|]. cbn in H. apply andb_prop in H as [_ H].
    cbn [map concat app]. rewrite <- IH by exact H. reflexivity.
  - induction w as [|c w IH]; [constructor|]. cbn in H. apply andb_prop in H as [Hc H].
    cbn [map]. constructor; [exists c; split; [reflexivity|exact Hc]|apply IH; exact H].
Qed.

Lemma lang_plus_units g p w :
  w <> [] -> forallb p w = true -> lang (plus g (RChar p)) w.
Proof.
  intros Hn H. destruct w as [|c w]; [contradiction|]. cbn in H.
  apply andb_prop in H as [Hc H]. exists [c], w. repeat split.
  - exists c. split; [reflexivity|exact Hc].
  - apply lang_star_units. exact H.
Qed.

(** The subjects the pattern of [validateEmail] accepts: a word of the
    local part, the at sign, a word of the domain, and nothing more. *)
Lemma validateEmail_words email :
  validateEmail email = true
  <-> exists l d, email = l ++ 64 :: d /\ lang local_re l /\ lang domain_re d.
Proof.
  unfold validateEmail, exec. split.
  - destruct (m emailRegex email [] _) as [c|] eqn:E; [intros _|discriminate].
    unfold emailRegex in E. cbn [m] in E.
    apply m_sound in E as (l & s1 & c1 & -> & Ll & E).
    apply m_sound in E as (x & s2 & c2 & -> & (a & -> & Ha) & E).
    apply Z.eqb_eq in Ha. subst a. cbn [m] in E.
    apply m_sound in E as (d & s3 & c3 & -> & Ld & E).
    cbn [m] in E. destruct s3; [|discriminate].
    exists l, d. rewrite app_nil_r. repeat split; assumption.
  - intros (l & d & -> & Ll & Ld).
    assert (m emailRegex (l ++ 64 :: d) [] (fun _ caps => Some caps) <> None) as H.
    { unfold emailRegex. cbn [m]. apply m_complete; [reflexivity|exact Ll|].
      intros caps1. unfold lit. cbn [m]. rewrite Z.eqb_refl.
      rewrite <- (app_nil_r d) at 1. apply m_complete; [reflexivity|exact Ld|].
      intros caps2. cbn [m]. discriminate. }
    destruct (m emailRegex (l ++ 64 :: d) [] _); [reflexivity|contradiction].
Qed.

Lemma local_not_empty l : lang local_re l -> l <> [].
Proof.
  intros [(u & v & -> & (u1 & u2 & -> & (c & -> & _) & _) & _)
         |(u & v & -> & (c & -> & _) & _)]; discriminate.
Qed.

Lemma domain_not_empty d : lang domain_re d -> d <> [].
Proof.
  intros [(u & v & -> & (c & -> & _) & _)
         |(u & v & -> & (u1 & u2 & -> & (a & b & -> & (a1 & a2 & -> & (c & -> & _) & _) & _)
                         & _) & _)]; discriminate.
Qed.

Lemma local_units : covers (fun c => negb ((c =? 10) || (c =? 13))) local_re.
Proof.
  assert (forall c, atom_unit c = true -> negb ((c =? 10) || (c =? 13)) = true) as Ha.
  { intros c H. destruct (Z.eqb_spec c 10) as [->|_]; [vm_compute in H; discriminate|].
    destruct (Z.eqb_spec c 13) as [->|_]; [vm_compute in H; discriminate|reflexivity]. }
  assert (forall x c, x <> 10 -> x <> 13 -> (x =? c) = true
                      -> negb ((c =? 10) || (c =? 13)) = true) as Hl.
  { intros x c H1 H2 H. apply Z.eqb_eq in H. subst c.
    destruct (Z.eqb_spec x 10); [contradiction|].
    destruct (Z.eqb_spec x 13); [contradiction|reflexivity]. }
  assert (forall c, negb (existsb (Z.eqb c) [10; 13; 8232; 8233]) = true
                    -> negb ((c =? 10) || (c =? 13)) = true) as Hd.
  { intros c H. cbn [existsb] in H. destruct (c =? 10), (c =? 13); try discriminate.
    reflexivity. }
  unfold local_re, plus, lit, dot. cbn [covers].
  repeat split; try exact Ha; try exact Hd; intros c; apply Hl; discriminate.
Qed.

Lemma domain_units :
  covers (fun c => label_unit c || (c =? 46) || (c =? 91) || (c =? 93)) domain_re.
Proof.
  assert (forall c, is_digit c = true
                    -> label_unit c || (c =? 46) || (c =? 91) || (c =? 93) = true) as Hg.
  { intros c H. unfold label_unit. rewrite H, !orb_true_r. reflexivity. }
  assert (forall c, label_unit c = true
                    -> label_unit c || (c =? 46) || (c =? 91) || (c =? 93) = true) as Hb.
  { intros c H. rewrite H. reflexivity. }
  assert (forall c, letter c = true
                    -> label_unit c || (c =? 46) || (c =? 91) || (c =? 93) = true) as Ht.
  { intros c H. unfold label_unit, letter in *.
    apply orb_prop in H as [-> | ->]; rewrite ?orb_true_r; reflexivity. }
  assert (forall x c, (x =? 46) || (x =? 91) || (x =? 93) = true -> (x =? c) = true
                      -> label_unit c || (c =? 46) || (c =? 91) || (c =? 93) = true) as Hl.
  { intros x c Hx H. apply Z.eqb_eq in H. subst c. rewrite <- !orb_assoc.
    rewrite <- !orb_assoc in Hx. rewrite Hx, orb_true_r. reflexivity. }
  unfold domain_re, octet, opt, plus, lit. cbv zeta. cbn [covers].
  repeat split; try exact Hg; try exact Hb; try exact Ht;
    intros c; apply Hl; reflexivity.
Qed.

(** The shape of an accepted address. *)
Lemma validateEmail_parts email :
  validateEmail email = true ->
  exists l d,
    email = l ++ 64 :: d /\ l <> [] /\ d <> []
    /\ forallb (fun c => negb ((c =? 10) || (c =? 13))) l = true
    /\ forallb (fun c => label_unit c || (c =? 46) || (c =? 91) || (c =? 93)) d = true.
Proof.
  intros H. apply validateEmail_words in H as (l & d & -> & Ll & Ld).
  exists l, d. repeat split.
  - apply local_not_empty. exact Ll.
  - apply domain_not_empty. exact Ld.
  - apply (lang_covers _ _ local_units). exact Ll.
  - apply (lang_covers _ _ domain_units). exact Ld.
Qed.

(** X24: an address [validateEmail] accepts is a local part that is
    not empty and holds no line feed and no carriage return, then an at
    sign, then a domain that is not empty and made of ASCII letters,
    digits, hyphens, dots and square brackets only; so the at sign that
    separates them is the last one of the address. *)
Theorem validateEmail_accepted_shape (email : jsstring) :
  validateEmail email = true ->
  exists l d,
    email = l ++ 64 :: d /\ l <> [] /\ d <> []
    /\ forallb (fun c => negb ((c =? 10) || (c =? 13))) l = true
    /\ forallb (fun c => label_unit c || (c =? 46) || (c =? 91) || (c =? 93)) d = true.
Proof. apply validateEmail_parts. Qed.

Lemma validateEmail_accepted_witness :
  exists l d,
    js "admin@kiwix.org" = l ++ 64 :: d /\ l <> [] /\ d <> []
    /\ forallb (fun c => negb ((c =? 10) || (c =? 13))) l = true
    /\ forallb (fun c => label_unit c || (c =? 46) || (c =? 91) || (c =? 93)) d = true.
Proof.
  apply (validateEmail_accepted_shape (js "admin@kiwix.org")).
  vm_compute. reflexivity.
Defined.

(** X25: when the program goes on after its check of the address of
    the administrator, the user agent it sends with every request is
    [MWOffliner/HEAD], a space and the address between parentheses, and it
    holds no line feed and no carriage return. *)
Theorem userAgentString_is_one_line (adminEmail ua : jsstring) :
  userAgentString adminEmail = Some ua ->
  ua = js "MWOffliner/HEAD (" ++ adminEmail ++ js ")"
  /\ ~ In 10 ua /\ ~ In 13 ua.
Proof.
  unfold userAgentString. destruct (validateEmail adminEmail) eqn:E; [|discriminate].
  intros H. injection H as <-. split; [reflexivity|].
  apply validateEmail_parts in E as (l & d & -> & _ & _ & Hl & Hd).
  rewrite forallb_forall in Hl, Hd.
  assert (forall x, x = 10 \/ x = 13 ->
            ~ In x (js "MWOffliner/HEAD" ++ js " (" ++ (l ++ 64 :: d) ++ js ")")) as Hno.
  { intros x Hx Hin.
    apply in_app_or in Hin as [Hin|Hin];
      [vm_compute in Hin; destruct Hx; subst x; intuition discriminate|].
    apply in_app_or in Hin as [Hin|Hin];
      [vm_compute in Hin; destruct Hx; subst x; intuition discriminate|].
    apply in_app_or in Hin as [Hin|Hin];
      [|vm_compute in Hin; destruct Hx; subst x; intuition discriminate].
    apply in_app_or in Hin as [Hin|[Hin|Hin]].
    - apply Hl in Hin. destruct Hx; subst x; discriminate.
    - destruct Hx; subst x; discriminate.
    - apply Hd in Hin. destruct Hx; subst x; discriminate. }
  split; apply Hno; [left|right]; reflexivity.
Qed.

Lemma userAgentString_witness :
  js "MWOffliner/HEAD (admin@kiwix.org)"
  = js "MWOffliner/HEAD (" ++ js "admin@kiwix.org" ++ js ")"
  /\ ~ In 10 (js "MWOffliner/HEAD (admin@kiwix.org)")
  /\ ~ In 13 (js "MWOffliner/HEAD (admin@kiwix.org)").
Proof.
  apply (userAgentString_is_one_line (js "admin@kiwix.org")).
  vm_compute. reflexivity.
Defined.

Lemma lang_dotted_groups (more : list jsstring) :
  List.Forall (fun n => n <> [] /\ forallb atom_unit n = true) more ->
  lang (RStar true (RGroup 3 (RSeq (lit 46) (plus true (RChar atom_unit)))))
    (concat (map (cons 46) more)).
Proof.
  intros H. exists (map (cons 46) more). split; [reflexivity|].
  induction H as [|n more [Hn Hu] _ IH]; [constructor|].
  cbn [map]. constructor; [|exact IH].
  exists [46], n. repeat split.
  - exists 46. split; reflexivity.
  - apply lang_plus_units; assumption.
Qed.

Lemma lang_labels (labels : list jsstring) :
  List.Forall (fun l => l <> [] /\ forallb label_unit l = true) labels ->
  List.Forall (lang (RGroup 8 (RSeq (plus true (RChar label_unit)) (lit 46))))
    (map (fun l => l ++ [46]) labels).
Proof.
  intros H. induction H as [|l labels [Hn Hu] _ IH]; [constructor|].
  cbn [map]. constructor; [|exact IH].
  exists l, [46]. repeat split.
  - apply lang_plus_units; assumption.
  - exists 46. split; reflexivity.
Qed.

(** X26: the usual addresses are accepted: a local part made of one
    or more groups separated by single dots, each group not empty and
    without white space, double quote or any of [<>()[]\.,;:@], then an at
    sign, then one or more labels of ASCII letters, digits and hyphens,
    each not empty and followed by a dot, then two or more ASCII
    letters. *)
Theorem validateEmail_accepts_usual_addresses
  (name : jsstring) (more labels : list jsstring) (tld : jsstring) :
  List.Forall (fun n => n <> [] /\ forallb atom_unit n = true) (name :: more) ->
  labels <> [] ->
  List.Forall (fun l => l <> [] /\ forallb label_unit l = true) labels ->
  (2 <= length tld)%nat -> forallb letter tld = true ->
  validateEmail (name ++ concat (map (cons 46) more) ++ [64]
                 ++ concat (map (fun l => l ++ [46]) labels) ++ tld) = true.
Proof.
  intros Hnames Hne Hlabels Hlen Htld. apply validateEmail_words.
  exists (name ++ concat (map (cons 46) more)),
         (concat (map (fun l => l ++ [46]) labels) ++ tld).
  split; [rewrite <- app_assoc; reflexivity|]. split.
  - inversion Hnames as [|? ? [Hn Hu] Hmore]; subst. left.
    exists name, (concat (map (cons 46) more)). repeat split.
    + apply lang_plus_units; assumption.
    + apply lang_dotted_groups. exact Hmore.
  - right. exists (concat (map (fun l => l ++ [46]) labels)), tld. repeat split.
    + apply lang_labels in Hlabels.
      destruct labels as [|l labels]; [contradiction|].
      cbn [map concat] in *. inversion Hlabels; subst.
      exists (l ++ [46]), (concat (map (fun l => l ++ [46]) labels)).
      repeat split; [assumption|]. eexists. split; [reflexivity|assumption].
    + destruct tld as [|a [|b t]]; cbn in Hlen; try lia.
      cbn [forallb] in Htld. apply andb_prop in Htld as [Ha Htld].
      apply andb_prop in Htld as [Hb Ht].
      exists [a], (b :: t). repeat split; [exists a; split; [reflexivity|exact Ha]|].
      exists [b], t. repeat split; [exists b; split; [reflexivity|exact Hb]|].
      apply lang_star_units. exact Ht.
Qed.

Lemma validateEmail_accepts_witness :
  validateEmail (js "first" ++ concat (map (cons 46) [js "last"]) ++ [64]
                 ++ concat (map (fun l => l ++ [46]) [js "mail"; js "example"])
                 ++ js "co") = true.
Proof.
  apply validateEmail_accepts_usual_addresses.
  - repeat constructor; discriminate.
  - discriminate.
  - repeat constructor; discriminate.
  - vm_compute. lia.
  - vm_compute. reflexivity.
Defined.

End EmailFacts.
